(** * Leaffliction: dataset augmentation and train/validation split

    A shallow embedding of [Augmentation.py] (the nine image transforms of
    class [Augmentation], the [augment] helper and the command-line driver)
    and of [split_dataset.py] (the per-class 25-image validation split).

    Conventions.
    - An image is the array [cv2.imread] returns: rows of pixels, a pixel
      being the list of its channel samples; samples are integers, the
      [uint8] range being written out where the code saturates.
    - [np.random] is a global generator: it is threaded as state, an
      unbounded supply of raw integers with a cursor.  "For every possible
      draw" is a quantification over that supply.
    - A Python exception is the [Raise] branch of [result].
    - Matrices hold rationals: every floating-point value is one.  The
      rounding of the floating-point operations themselves is not modelled;
      no statement below depends on a sample taken off the pixel grid. *)

From Stdlib Require Import ZArith QArith Qround Lia Ascii DecimalString DecimalNat.
From stdpp Require Import base option list gmap strings sorting.

Local Open Scope Z_scope.

(** ** Exceptions, results and the state-and-exception monad *)

Inductive exn : Type :=
  | ValueError        (* np.random.randint with low >= high, int() of a non-number, max() of nothing *)
  | AttributeError    (* [None.shape]: the file did not decode *)
  | CvError           (* an OpenCV assertion (empty source array) *)
  | FileNotFoundError (* the path check of the entry point, a missing directory *)
  | IndexError        (* a list index out of range *)
  | SystemExit (code : Z).

Inductive result (A : Type) : Type :=
  | Ok (a : A)
  | Raise (e : exn).
Arguments Ok {A} a.
Arguments Raise {A} e.

Definition M (S A : Type) : Type := S -> result A * S.

Definition ret {S A} (a : A) : M S A := fun s => (Ok a, s).
Definition raise {S A} (e : exn) : M S A := fun s => (Raise e, s).
Definition bind {S A B} (m : M S A) (k : A -> M S B) : M S B :=
  fun s => match m s with
           | (Ok a, s') => k a s'
           | (Raise e, s') => (Raise e, s')
           end.

Notation "x <- m ;; k" := (bind m (fun x => k))
  (at level 100, m at next level, right associativity).
Notation "m ;;; k" := (bind m (fun _ => k))
  (at level 100, right associativity).

Definition lift_result {S A} (r : result A) : M S A := fun s => (r, s).

(** ** The random generator [np.random] *)

Record rng : Type := { entropy : nat -> Z; cursor : nat }.

Definition Rand (A : Type) : Type := M rng A.

Definition next_raw : Rand Z :=
  fun g => (Ok (entropy g (cursor g)), {| entropy := entropy g; cursor := S (cursor g) |}).

(** [np.random.randint(low, high)]: uniform over the half-open range
    [low, high); raises [ValueError] ("low >= high") when it is empty. *)
Definition randint (low high : Z) : Rand Z :=
  if low <? high
  then r <- next_raw ;; ret (low + r mod (high - low))
  else raise ValueError.

(** ** Images *)

Definition pixel : Type := list Z.
Definition image : Type := list (list pixel).

(** [img.shape] of a three-dimensional array. *)
Definition shape (img : image) : nat * nat * nat :=
  (length img,
   match img with r :: _ => length r | [] => 0%nat end,
   match img with (p :: _) :: _ => length p | _ => 0%nat end).

(** The array is rectangular, with exactly this shape. *)
Definition has_shape (rows cols dim : nat) (img : image) : bool :=
  (length img =? rows)%nat &&
  forallb (fun r => (length r =? cols)%nat &&
                    forallb (fun p => (length p =? dim)%nat) r) img.

(** A slice bound as Python normalises it: negative bounds count from the
    end, and the result is clipped to the sequence. *)
Definition slice_index (len i : Z) : Z :=
  Z.max 0 (Z.min len (if i <? 0 then i + len else i)).

Definition py_slice {A} (start stop : Z) (l : list A) : list A :=
  let n := Z.of_nat (length l) in
  let a := slice_index n start in
  let b := slice_index n stop in
  take (Z.to_nat (b - a)) (drop (Z.to_nat a) l).

(** [img[y0:y1, x0:x1]] *)
Definition slice2 (y0 y1 x0 x1 : Z) (img : image) : image :=
  map (py_slice x0 x1) (py_slice y0 y1 img).

(** [cv::saturate_cast<uchar>] of an integer. *)
Definition saturate_u8 (v : Z) : Z := Z.max 0 (Z.min 255 v).

(** ** [Augmentation.contrast] *)

(** [cv2.addWeighted(src1, alpha, src2, beta, gamma)] on 8-bit arrays of one
    shape: each sample is [saturate(src1*alpha + src2*beta + gamma)].  The
    weights the code passes are integers, so the sum is exact. *)
Definition addWeighted (src1 : image) (alpha : Z) (src2 : image) (beta gamma : Z) : image :=
  zip_with (zip_with (zip_with (fun a b => saturate_u8 (a * alpha + b * beta + gamma))))
           src1 src2.

(** [np.zeros(img.shape, img.dtype)] *)
Definition zeros_like (img : image) : image := map (map (map (fun _ => 0))) img.

Definition contrast (img : image) : image :=
  addWeighted img 2 (zeros_like img) 0 (-50).

(** ** [Augmentation.crop] *)

Definition crop (img : image) : Rand image :=
  let '(rows, cols, dim) := shape img in
  x <- randint 0 (Z.of_nat cols - 100) ;;
  y <- randint 0 (Z.of_nat rows - 100) ;;
  ret (slice2 y (y + 100) x (x + 100) img).

(** ** OpenCV's geometric warps

    [cv2.warpPerspective] and [cv2.warpAffine] with the defaults the code
    leaves in place: linear interpolation, constant border of value 0, the
    matrix taken as the source-to-destination map and inverted first.  The
    destination sample at [(x, y)] is the source read at the inverse map of
    [(x, y)]; source positions are kept to 1/32 of a pixel. *)

Definition row3 : Type := (Q * Q * Q)%type.
Definition mat3 : Type := (row3 * row3 * row3)%type.
Definition mat23 : Type := (row3 * row3)%type.

Definition zero3 : mat3 := ((0, 0, 0), (0, 0, 0), (0, 0, 0))%Q.

Definition det3 (m : mat3) : Q :=
  let '((a, b, c), (d, e, f), (g, h, i)) := m in
  (a * (e * i - f * h) - b * (d * i - f * g) + c * (d * h - e * g))%Q.

(** [cv::invert] of a 3x3 matrix: the adjugate over the determinant, and the
    zero matrix when the determinant is 0. *)
Definition invert3 (m : mat3) : mat3 :=
  let '((a, b, c), (d, e, f), (g, h, i)) := m in
  let dt := det3 m in
  if Qeq_bool dt 0 then zero3
  else
    (((e * i - f * h) / dt, (c * h - b * i) / dt, (b * f - c * e) / dt),
     ((f * g - d * i) / dt, (a * i - c * g) / dt, (c * d - a * f) / dt),
     ((d * h - e * g) / dt, (b * g - a * h) / dt, (a * e - b * d) / dt))%Q.

(** [cvRound]: to the nearest integer, ties to even. *)
Definition cvRound (q : Q) : Z :=
  let f := Qfloor q in
  match Qcompare (q - inject_Z f) (1 # 2) with
  | Lt => f
  | Gt => f + 1
  | Eq => if Z.even f then f else f + 1
  end.

Definition saturate_int (v : Z) : Z := Z.max (- 2 ^ 31) (Z.min (2 ^ 31 - 1) v).
Definition saturate_short (v : Z) : Z := Z.max (- 2 ^ 15) (Z.min (2 ^ 15 - 1) v).

(** [src[y][x]] for indices inside the array. *)
Definition pixel_at (src : image) (x y : nat) : option pixel :=
  match (src : list (list pixel)) !! y with
  | Some r => r !! x
  | None => None
  end.

(** The source pixel at column [x], row [y], or the border value. *)
Definition pixel_or_border (src : image) (x y : Z) : pixel :=
  let '(rows, cols, dim) := shape src in
  if (0 <=? x) && (x <? Z.of_nat cols) && (0 <=? y) && (y <? Z.of_nat rows)
  then default (replicate dim 0) (pixel_at src (Z.to_nat x) (Z.to_nat y))
  else replicate dim 0.

(** Linear interpolation at the fixed-point position [(X/32, Y/32)]:
    weights in 1/1024, scaled to 15 bits, rounded to nearest. *)
Definition remap_linear (src : image) (X Y : Z) : pixel :=
  let sx := saturate_short (Z.shiftr X 5) in
  let sy := saturate_short (Z.shiftr Y 5) in
  let a := Z.land X 31 in
  let b := Z.land Y 31 in
  let w00 := (32 - a) * (32 - b) * 32 in
  let w01 := a * (32 - b) * 32 in
  let w10 := (32 - a) * b * 32 in
  let w11 := a * b * 32 in
  let mix p00 p01 p10 p11 :=
    saturate_u8 (Z.shiftr (w00 * p00 + w01 * p01 + w10 * p10 + w11 * p11 + 2 ^ 14) 15) in
  zip_with (fun f p11 => f p11)
    (zip_with (fun f p10 => f p10)
       (zip_with mix (pixel_or_border src sx sy) (pixel_or_border src (sx + 1) sy))
       (pixel_or_border src sx (sy + 1)))
    (pixel_or_border src (sx + 1) (sy + 1)).

Definition is_empty (img : image) : bool :=
  let '(rows, cols, dim) := shape img in
  (rows =? 0)%nat || (cols =? 0)%nat.

(** The source position, in 1/32 pixel, that destination [(x, y)] reads
    under the (already inverted) perspective matrix. *)
Definition perspective_coords (mi : mat3) (x y : Z) : Z * Z :=
  let '((m0, m1, m2), (m3, m4, m5), (m6, m7, m8)) := mi in
  let xq := inject_Z x in
  let yq := inject_Z y in
  let w0 := (m6 * xq + m7 * yq + m8)%Q in
  let w := if Qeq_bool w0 0 then 0%Q else (32 / w0)%Q in
  (saturate_int (cvRound ((m0 * xq + m1 * yq + m2) * w)),
   saturate_int (cvRound ((m3 * xq + m4 * yq + m5) * w))).

(** [cv2.warpPerspective(src, M, (width, height))] *)
Definition warpPerspective (src : image) (m : mat3) (dsize : nat * nat) : result image :=
  let '(width, height) := dsize in
  if is_empty src then Raise CvError
  else
    let mi := invert3 m in
    Ok (map (fun y =>
               map (fun x => let '(X, Y) := perspective_coords mi x y in remap_linear src X Y)
                   (seqZ 0 (Z.of_nat width)))
            (seqZ 0 (Z.of_nat height))).

(** The inverse of a 2x3 affine map, as [cv::warpAffine] computes it. *)
Definition invert_affine (m : mat23) : mat23 :=
  let '((m0, m1, m2), (m3, m4, m5)) := m in
  let d0 := (m0 * m4 - m1 * m3)%Q in
  let d := if Qeq_bool d0 0 then 0%Q else (1 / d0)%Q in
  let a11 := (m4 * d)%Q in
  let a22 := (m0 * d)%Q in
  let n1 := (m1 * - d)%Q in
  let n3 := (m3 * - d)%Q in
  ((a11, n1, (- a11 * m2 - n1 * m5)), (n3, a22, (- n3 * m2 - a22 * m5)))%Q.

(** Source position in 1/32 pixel under the inverted affine map; the
    library works with 10 fractional bits and rounds to 5. *)
Definition affine_coords (mi : mat23) (x y : Z) : Z * Z :=
  let '((m0, m1, m2), (m3, m4, m5)) := mi in
  let xq := inject_Z x in
  let yq := inject_Z y in
  let adelta := saturate_int (cvRound (m0 * xq * 1024)) in
  let bdelta := saturate_int (cvRound (m3 * xq * 1024)) in
  let X0 := saturate_int (cvRound ((m1 * yq + m2) * 1024)) + 16 in
  let Y0 := saturate_int (cvRound ((m4 * yq + m5) * 1024)) + 16 in
  (Z.shiftr (X0 + adelta) 5, Z.shiftr (Y0 + bdelta) 5).

(** [cv2.warpAffine(src, M, (width, height))] *)
Definition warpAffine (src : image) (m : mat23) (dsize : nat * nat) : result image :=
  let '(width, height) := dsize in
  if is_empty src then Raise CvError
  else
    let mi := invert_affine m in
    Ok (map (fun y =>
               map (fun x => let '(X, Y) := affine_coords mi x y in remap_linear src X Y)
                   (seqZ 0 (Z.of_nat width)))
            (seqZ 0 (Z.of_nat height))).

(** The fixed window [img[50:150, 50:150]] kept after a warp. *)
Definition fixed_window (img : image) : image := slice2 50 150 50 150 img.

(** ** [Augmentation.flip] *)

Definition flip_matrix (rows cols : nat) (axis : Z) : mat3 :=
  if axis =? 0
  then ((-1, 0, inject_Z (Z.of_nat cols)), (0, 1, 0), (0, 0, 1))%Q
  else ((1, 0, 0), (0, -1, inject_Z (Z.of_nat rows)), (0, 0, 1))%Q.

Definition flip (img : image) (axis : Z) : result image :=
  let '(rows, cols, dim) := shape img in
  warpPerspective img (flip_matrix rows cols axis) (cols, rows).

(** ** The numerical kernels of NumPy and OpenCV that stay abstract

    What the following functions return depends on floating-point
    rounding, floating-point trigonometry, a floating-point linear solve,
    or the resampling filter; the code's control flow and the shape of its
    results do not. *)

Class CvKernels : Type := {
  (** the double [np.random.uniform(low, high)] returns when the fraction
      it draws is [r / 2^53]: [low + (high - low) * r / 2^53] as the
      platform rounds it, which can be [high] itself *)
  uniform_double : Q -> Q -> Z -> Q;
  (** the single-precision number [np.float32] stores for a double *)
  to_float32 : Q -> Q;
  (** the floats [cos] and [sin] of an angle given in degrees *)
  cos_deg : Z -> Q;
  sin_deg : Z -> Q;
  (** [cv2.getPerspectiveTransform(src, dst)] on four point pairs *)
  getPerspectiveTransform : list (Q * Q) -> list (Q * Q) -> mat3;
  (** the sample [cv2.resize(src, dsize)] puts at column [x], row [y] *)
  resize_sample : image -> nat * nat -> Z -> Z -> pixel
}.

Section Transforms.
Context `{CvKernels}.

(** [cv2.getRotationMatrix2D(center, angle, scale)] *)
Definition getRotationMatrix2D (center : Q * Q) (angle : Z) (scale : Q) : mat23 :=
  let '(cx, cy) := center in
  let alpha := (scale * cos_deg angle)%Q in
  let beta := (scale * sin_deg angle)%Q in
  ((alpha, beta, (1 - alpha) * cx - beta * cy),
   (- beta, alpha, beta * cx + (1 - alpha) * cy))%Q.

(** [cv2.getAffineTransform(src, dst)]: the affine map sending three
    source points to three destination points, the zero matrix when the
    source points are collinear. *)
Definition getAffineTransform (src dst : list (Q * Q)) : mat23 :=
  match src, dst with
  | [(x0, y0); (x1, y1); (x2, y2)], [(u0, v0); (u1, v1); (u2, v2)] =>
      let '((a, b, c), (d, e, f), (g, h, i)) :=
        invert3 ((x0, x1, x2), (y0, y1, y2), (1, 1, 1))%Q in
      ((u0 * a + u1 * d + u2 * g, u0 * b + u1 * e + u2 * h, u0 * c + u1 * f + u2 * i),
       (v0 * a + v1 * d + v2 * g, v0 * b + v1 * e + v2 * h, v0 * c + v1 * f + v2 * i))%Q
  | _, _ => ((0, 0, 0), (0, 0, 0))%Q
  end.

(** [cv2.resize(src, (width, height))] *)
Definition cv_resize (src : image) (dsize : nat * nat) : result image :=
  let '(width, height) := dsize in
  if is_empty src then Raise CvError
  else Ok (map (fun y => map (fun x => resize_sample src dsize x y)
                             (seqZ 0 (Z.of_nat width)))
               (seqZ 0 (Z.of_nat height))).

(** ** [Augmentation.translation] *)

Definition translation_matrix : Rand mat3 :=
  tx <- randint (-100) 100 ;;
  ty <- randint (-100) 100 ;;
  ret ((1, 0, inject_Z tx), (0, 1, inject_Z ty), (0, 0, 1))%Q.

Definition translation (img : image) : Rand image :=
  let '(rows, cols, dim) := shape img in
  m <- translation_matrix ;;
  translated_img <- lift_result (warpPerspective img m (cols, rows)) ;;
  ret (fixed_window translated_img).

(** ** [Augmentation.shear] *)

(** [np.random.uniform(low, high)]: one draw, of which 53 bits make the
    fraction. *)
Definition uniform (low high : Q) : Rand Q :=
  r <- next_raw ;; ret (uniform_double low high (r mod 2 ^ 53)).

(** The factor is drawn as a double and stored in an [np.float32] matrix. *)
Definition shear_matrix (axis : Z) : Rand mat3 :=
  if axis =? 0
  then s <- uniform (1 # 10) (2 # 10) ;;
       ret ((1, to_float32 s, 0), (0, 1, 0), (0, 0, 1))%Q
  else s <- uniform (1 # 10) (2 # 10) ;;
       ret ((1, 0, 0), (to_float32 s, 1, 0), (0, 0, 1))%Q.

Definition shear (img : image) (axis : Z) : Rand image :=
  let '(rows, cols, dim) := shape img in
  m <- shear_matrix axis ;;
  sheared_img <- lift_result (warpPerspective img m (cols, rows)) ;;
  ret (fixed_window sheared_img).

(** ** [Augmentation.rotate] *)

Definition rotate (img : image) : Rand image :=
  let '(rows, cols, dim) := shape img in
  angle <- randint (-180) 180 ;;
  let m := getRotationMatrix2D (Z.of_nat cols # 2, Z.of_nat rows # 2) angle 1 in
  rotated_img <- lift_result (warpAffine img m (cols, rows)) ;;
  ret (fixed_window rotated_img).

(** ** [Augmentation.skew] *)

Definition skew (img : image) : Rand image :=
  let '(rows, cols, dim) := shape img in
  let c := Z.of_nat cols in
  let r := Z.of_nat rows in
  let pts1 := [(0, 0); (inject_Z (c - 1), 0); (0, inject_Z (r - 1))]%Q in
  a0 <- randint 0 30 ;; b0 <- randint 0 30 ;;
  a1 <- randint 0 30 ;; b1 <- randint 0 30 ;;
  a2 <- randint 0 30 ;; b2 <- randint 0 30 ;;
  let pts2 := [(inject_Z a0, inject_Z b0);
               (inject_Z (c - a1), inject_Z b1);
               (inject_Z a2, inject_Z (r - b2))] in
  let m := getAffineTransform pts1 pts2 in
  skewed_img <- lift_result (warpAffine img m (cols, rows)) ;;
  ret (fixed_window skewed_img).

(** ** [Augmentation.distortion] *)

Definition distortion (img : image) : Rand image :=
  let '(rows, cols, dim) := shape img in
  let c := Z.of_nat cols in
  let r := Z.of_nat rows in
  let pts1 := [(0, 0); (inject_Z (c - 1), 0); (0, inject_Z (r - 1));
               (inject_Z (c - 1), inject_Z (r - 1))]%Q in
  a0 <- randint 0 30 ;; b0 <- randint 0 30 ;;
  a1 <- randint 0 30 ;; b1 <- randint 0 30 ;;
  a2 <- randint 0 30 ;; b2 <- randint 0 30 ;;
  a3 <- randint 0 30 ;; b3 <- randint 0 30 ;;
  let pts2 := [(inject_Z a0, inject_Z b0);
               (inject_Z (c - a1), inject_Z b1);
               (inject_Z a2, inject_Z (r - b2));
               (inject_Z (c - a3), inject_Z (r - b3))] in
  let m := getPerspectiveTransform pts1 pts2 in
  distorted_img <- lift_result (warpPerspective img m (cols, rows)) ;;
  ret (fixed_window distorted_img).

End Transforms.

(** ** [Augmentation.blur] *)

(** [cv::borderInterpolate] for the default border ([BORDER_REFLECT_101]):
    the index mirrored about the first and the last sample. *)
Definition reflect101 (len p : Z) : Z :=
  if len <=? 1 then 0
  else
    let period := 2 * (len - 1) in
    let q := p mod period in
    if q <? len then q else period - q.

Definition sample_at (src : image) (x y : Z) (c : nat) : Z :=
  match pixel_at src (Z.to_nat x) (Z.to_nat y) with
  | Some p => default 0 ((p : list Z) !! c)
  | None => 0
  end.

(** One output sample of the normalised 5x5 box filter: the mean of the 25
    neighbours, rounded to nearest (25 being odd, no mean is a tie). *)
Definition box5_sample (src : image) (rows cols : Z) (x y : Z) (c : nat) : Z :=
  let taps := seqZ (-2) 5 in
  let total :=
    foldr Z.add 0
      (flat_map (fun dy =>
                   map (fun dx => sample_at src (reflect101 cols (x + dx))
                                                (reflect101 rows (y + dy)) c)
                       taps)
                taps) in
  saturate_u8 ((2 * total + 25) / 50).

(** [cv2.blur(img, (5, 5), 0)] *)
Definition blur (img : image) : result image :=
  let '(rows, cols, dim) := shape img in
  if is_empty img then Raise CvError
  else
    Ok (map (fun y =>
               map (fun x => map (box5_sample img (Z.of_nat rows) (Z.of_nat cols) x y)
                                 (seq 0 dim))
                   (seqZ 0 (Z.of_nat cols)))
            (seqZ 0 (Z.of_nat rows))).

(** ** Strings and paths, as Python reads them

    A Python string is held as the bytes of its UTF-8 encoding.  The
    characters the two scripts look for (the dot of a suffix, the space
    and the parentheses of the sort key, the literal characters of the
    glob patterns) are ASCII, and no byte of a multi-byte character is an
    ASCII byte: [rfind], [split], [strip] and [fnmatch] find on the bytes
    what they find on the characters.  [int()] is the exception, see
    [py_int]. *)

Local Open Scope string_scope.

(** Every character of the string passes the test. *)
Fixpoint string_forall (P : ascii -> bool) (s : string) : bool :=
  match s with
  | EmptyString => true
  | String c s' => P c && string_forall P s'
  end.

(** The string holds ASCII characters only. *)
Definition is_ascii_string (s : string) : bool :=
  string_forall (fun c => (Ascii.nat_of_ascii c <? 128)%nat) s.

Definition is_lower (c : ascii) : bool :=
  let n := Ascii.nat_of_ascii c in (97 <=? n)%nat && (n <=? 122)%nat.
Definition is_upper (c : ascii) : bool :=
  let n := Ascii.nat_of_ascii c in (65 <=? n)%nat && (n <=? 90)%nat.
Definition to_upper (c : ascii) : ascii :=
  if is_lower c then Ascii.ascii_of_nat (Ascii.nat_of_ascii c - 32) else c.
Definition to_lower (c : ascii) : ascii :=
  if is_upper c then Ascii.ascii_of_nat (Ascii.nat_of_ascii c + 32) else c.

(** [str.title()]: a letter that follows a letter is lowered, any other
    letter is raised. *)
Fixpoint title_from (after_letter : bool) (s : string) : string :=
  match s with
  | "" => ""
  | String c s' =>
      let letter := is_lower c || is_upper c in
      String (if letter then (if after_letter then to_lower c else to_upper c) else c)
             (title_from letter s')
  end.
Definition py_title (s : string) : string := title_from false s.

(** [str.rfind('.')], counting positions from [i]. *)
Fixpoint rfind_dot (s : string) (i : nat) (found : option nat) : option nat :=
  match s with
  | "" => found
  | String c s' => rfind_dot s' (S i) (if Ascii.eqb c "." then Some i else found)
  end.

(** [PurePath.stem] of a final path component: the name without its last
    suffix, a leading or a trailing dot starting no suffix. *)
Definition py_stem (name : string) : string :=
  match rfind_dot name 0 None with
  | Some i =>
      if (0 <? i)%nat && (i <? String.length name - 1)%nat
      then String.substring 0 i name
      else name
  | None => name
  end.

(** [fnmatch] for patterns made of literal characters and [*], matching
    case as a POSIX file system does. *)
Fixpoint fnmatch (pat : string) : string -> bool :=
  match pat with
  | "" => fun s => match s with "" => true | _ => false end
  | String p pat' =>
      if Ascii.eqb p "*"
      then fix star (s : string) : bool :=
             fnmatch pat' s || match s with "" => false | String _ s' => star s' end
      else fun s => match s with
                    | "" => false
                    | String c s' => Ascii.eqb p c && fnmatch pat' s'
                    end
  end.

(** [s.split(" ")]: the fields between single spaces, empty ones kept. *)
Fixpoint split_space (s : string) : list string :=
  match s with
  | "" => [""]
  | String c s' =>
      if Ascii.eqb c " " then "" :: split_space s'
      else match split_space s' with
           | w :: ws => String c w :: ws
           | [] => [String c ""]
           end
  end.

Definition is_paren (c : ascii) : bool := Ascii.eqb c "(" || Ascii.eqb c ")".

Fixpoint lstrip (drop_it : ascii -> bool) (s : string) : string :=
  match s with
  | "" => ""
  | String c s' => if drop_it c then lstrip drop_it s' else s
  end.
Definition rstrip (drop_it : ascii -> bool) (s : string) : string :=
  String.rev (lstrip drop_it (String.rev s)).
(** [s.strip(chars)] *)
Definition strip (drop_it : ascii -> bool) (s : string) : string :=
  rstrip drop_it (lstrip drop_it s).

(** White space as [int()] skips it in an ASCII string: tab, line feed,
    vertical tab, form feed, carriage return and space.  (The separators
    28 to 31 are white space for [str.isspace], not for [int()] here.) *)
Definition is_py_space (c : ascii) : bool :=
  let n := Ascii.nat_of_ascii c in
  ((9 <=? n)%nat && (n <=? 13)%nat) || (n =? 32)%nat.

Definition digit_of (c : ascii) : option Z :=
  let n := Ascii.nat_of_ascii c in
  if (48 <=? n)%nat && (n <=? 57)%nat then Some (Z.of_nat (n - 48)) else None.

(** Decimal digits, single underscores allowed between two digits.
    [after_digit] says whether the previous character was a digit. *)
Fixpoint digits_value (s : string) (acc : Z) (after_digit : bool) : option Z :=
  match s with
  | "" => if after_digit then Some acc else None
  | String c s' =>
      match digit_of c with
      | Some d => digits_value s' (10 * acc + d)%Z true
      | None =>
          if Ascii.eqb c "_" && after_digit
          then match s' with
               | "" => None
               | String c' _ =>
                   match digit_of c' with
                   | Some _ => digits_value s' acc false
                   | None => None
                   end
               end
          else None
      end
  end.

(** [int()] also reads the decimal digits and skips the white space of
    every other script.  Which characters those are is the business of
    the interpreter's Unicode database: what [int()] returns for a string
    that holds a character outside ASCII stays abstract.  It is an
    integer or a [ValueError]. *)
Class PyText : Type := {
  int_unicode : string -> result Z;
  int_unicode_raises : forall s e, int_unicode s = Raise e -> e = ValueError
}.

(** [int(s)] on an ASCII string: surrounding white space, an optional
    sign, decimal digits.  Anything else raises [ValueError]. *)
Definition int_ascii (s : string) : result Z :=
  match strip is_py_space s with
  | String "-" body => match digits_value body 0 false with
                       | Some v => Ok (- v)%Z
                       | None => Raise ValueError
                       end
  | String "+" body => match digits_value body 0 false with
                       | Some v => Ok v
                       | None => Raise ValueError
                       end
  | body => match digits_value body 0 false with
            | Some v => Ok v
            | None => Raise ValueError
            end
  end.

(** [int(s)] *)
Definition py_int {text : PyText} (s : string) : result Z :=
  if is_ascii_string s then int_ascii s else int_unicode s.

(** ** The balancing driver ([augment] and the [__main__] block)

    [data/images/augmented_directory] is a map from the name of a class
    directory to the set of its entries: the driver only ever counts a
    directory's entries and adds files to it.  The source tree given on
    the command line is read, never written, and its [.JPG] files are
    taken to decode. *)

Inductive aug_type : Type :=
  | Translation | Shear | Flip | Rotate | Crop | Skew | Distortion | Blur | Contrast.

(** The method names [getattr] looks up. *)
Definition method_name (t : aug_type) : string :=
  match t with
  | Translation => "translation" | Shear => "shear" | Flip => "flip"
  | Rotate => "rotate" | Crop => "crop" | Skew => "skew"
  | Distortion => "distortion" | Blur => "blur" | Contrast => "contrast"
  end.

Record src_file : Type := {
  f_dir : string;      (* name of the directory that holds the file *)
  f_name : string;     (* name of the file *)
  f_pixels : image     (* what [cv2.imread] decodes it to *)
}.

(** An entry of the directory given on the command line: a file, a
    directory, or a symbolic link to a directory, the last two with every
    file found below them without passing through a symbolic link. *)
Inductive entry : Type :=
  | TopFile (f : src_file)
  | SubDir (files : list src_file)
  | LinkDir (files : list src_file).

Inductive write_kind : Type :=
  | Copied                     (* the copy loop before the target is computed *)
  | Resaved                    (* the original saved again in the balancing loop *)
  | Augmented (t : aug_type).  (* a file written by [augment] *)

Record write_event : Type := {
  ev_kind : write_kind;
  ev_dir : string;
  ev_name : string;
  ev_before : gmap string (gset string);
  ev_after : gmap string (gset string)
}.

Record world : Type := {
  w_rng : rng;
  w_store : gmap string (gset string);  (* augmented_directory *)
  w_cwd : gset string;                  (* files saved in the working directory *)
  w_log : list exn;                     (* what [logger.error] was given *)
  w_trace : list write_event            (* writes into augmented_directory, oldest first *)
}.

Definition Drv (A : Type) : Type := M world A.

Definition lift_rand {A} (m : Rand A) : Drv A :=
  fun w => let '(r, g) := m (w_rng w) in
           (r, {| w_rng := g; w_store := w_store w; w_cwd := w_cwd w;
                  w_log := w_log w; w_trace := w_trace w |}).

(** [os.makedirs(save_path, exist_ok=True)] *)
Definition makedirs (d : string) : Drv unit :=
  fun w => match w_store w !! d with
           | Some _ => (Ok tt, w)
           | None => (Ok tt, {| w_rng := w_rng w; w_store := <[d := ∅]> (w_store w);
                               w_cwd := w_cwd w; w_log := w_log w; w_trace := w_trace w |})
           end.

(** [plt.imsave(Path(save_path, name), img)] into augmented_directory. *)
Definition imsave (k : write_kind) (d name : string) : Drv unit :=
  fun w => match w_store w !! d with
           | Some files =>
               let st := <[d := {[name]} ∪ files]> (w_store w) in
               (Ok tt, {| w_rng := w_rng w; w_store := st; w_cwd := w_cwd w;
                          w_log := w_log w;
                          w_trace := w_trace w ++
                            [{| ev_kind := k; ev_dir := d; ev_name := name;
                                ev_before := w_store w; ev_after := st |}] |})
           | None => (Raise FileNotFoundError, w)
           end.

(** [len(list(save_path.iterdir()))] *)
Definition count_entries (d : string) : Drv nat :=
  fun w => match w_store w !! d with
           | Some files => (Ok (size files), w)
           | None => (Raise FileNotFoundError, w)
           end.

(** The [for] loops. *)
Fixpoint for_each {S A} (l : list A) (body : A -> M S unit) : M S unit :=
  match l with
  | [] => ret tt
  | x :: l' => body x ;;; for_each l' body
  end.

(** [dir.glob('**/*.JPG')] over the files below a directory. *)
Definition glob_jpg (files : list src_file) : list src_file :=
  filter (fun f => Is_true (fnmatch "*.JPG" (f_name f))) files.

(** [Path(args.path).glob('**/*.JPG')]: the pattern [**] descends into
    directories, not into symbolic links to directories. *)
Definition glob_all (tree : list entry) : list src_file :=
  flat_map (fun e => match e with
                     | TopFile f => glob_jpg [f]
                     | SubDir files => glob_jpg files
                     | LinkDir _ => []
                     end) tree.

(** [image.glob('**/*.JPG')] for an entry [image] of the directory: the
    files below a directory, also when the entry is a symbolic link to
    it, and nothing for an entry that is a file. *)
Definition glob_entry (e : entry) : list src_file :=
  match e with
  | TopFile _ => []
  | SubDir files => glob_jpg files
  | LinkDir files => glob_jpg files
  end.

(** [max(augmented_directory.iterdir(), key=...)] and the length of the
    winner: the largest entry count.  With no directory to choose from,
    [max] raises [ValueError].  (An augmented_directory that does not
    exist is the empty map too; there [iterdir] raises
    [FileNotFoundError] instead, an exception nobody catches either.) *)
Definition largest_count : Drv nat :=
  fun w => match map_to_list (w_store w) with
           | [] => (Raise ValueError, w)
           | dirs => (Ok (max_list (map (fun d => size (snd d)) dirs)), w)
           end.

Section Driver.
Context `{CvKernels}.

(** [getattr(aug, augmentation_type)(img)]: the method with its default
    arguments. *)
Definition call_method (t : aug_type) (img : image) : Rand image :=
  match t with
  | Translation => translation img
  | Shear => shear img 0
  | Flip => lift_result (flip img 0)
  | Rotate => rotate img
  | Crop => crop img
  | Skew => skew img
  | Distortion => distortion img
  | Blur => lift_result (blur img)
  | Contrast => ret (contrast img)
  end.

(** The two [logger.debug] calls print nothing at the level the script
    sets, but their f-strings are built all the same: the first counts
    the entries of [save_path], which raises [FileNotFoundError] when the
    directory is missing. *)
Definition augment (image : src_file) (save_path : string)
    (len_largest_directory : nat) (augmentation_type : aug_type) : Drv unit :=
  count_entries save_path ;;;
  aug_img <- lift_rand (call_method augmentation_type (f_pixels image)) ;;
  aug_img <- lift_result (cv_resize aug_img (256%nat, 256%nat)) ;;
  imsave (Augmented augmentation_type) save_path
    (py_stem (f_name image) +:+ "_" +:+ py_title (method_name augmentation_type) +:+ ".JPG").

(** One [if len(list(save_path.iterdir())) < len_largest_directory] block. *)
Definition guarded_augment (image : src_file) (save_path : string)
    (len_largest_directory : nat) (t : aug_type) : Drv unit :=
  n <- count_entries save_path ;;
  if (n <? len_largest_directory)%nat
  then augment image save_path len_largest_directory t
  else ret tt.

(** The body of the inner balancing loop, for one source image. *)
Definition balance_image (len_largest_directory : nat) (image : src_file) : Drv unit :=
  let save_path := py_stem (f_dir image) in
  makedirs save_path ;;;
  imsave Resaved save_path (f_name image) ;;;
  guarded_augment image save_path len_largest_directory Flip ;;;
  guarded_augment image save_path len_largest_directory Rotate ;;;
  guarded_augment image save_path len_largest_directory Blur ;;;
  guarded_augment image save_path len_largest_directory Crop ;;;
  guarded_augment image save_path len_largest_directory Distortion ;;;
  guarded_augment image save_path len_largest_directory Shear ;;;
  guarded_augment image save_path len_largest_directory Skew ;;;
  guarded_augment image save_path len_largest_directory Contrast.

Definition copy_image (image : src_file) : Drv unit :=
  let save_path := py_stem (f_dir image) in
  makedirs save_path ;;;
  imsave Copied save_path (f_name image).

Definition copy_phase (tree : list entry) : Drv unit :=
  for_each (glob_all tree) copy_image.

Definition balance_phase (tree : list entry) (len_largest_directory : nat) : Drv unit :=
  for_each tree (fun image =>
    for_each (glob_entry image) (balance_image len_largest_directory)).

(** The [if os.path.isdir(args.path)] branch. *)
Definition directory_mode (tree : list entry) : Drv unit :=
  copy_phase tree ;;;
  len_largest_directory <- largest_count ;;
  balance_phase tree len_largest_directory.

End Driver.

(** ** The entry point *)

(** What [args.path] names, as [os.path.isdir] and [os.path.isfile] see
    it (both follow symbolic links): a directory, a regular file, or
    neither, which is a path that does not exist but also a FIFO, a
    socket or a device. *)
Inductive path_arg : Type :=
  | NeitherFileNorDir
  | ImageFile (name : string) (decoded : option image)  (* [None]: not decodable *)
  | Directory (tree : list entry).

Definition isdir (p : path_arg) : bool :=
  match p with Directory _ => true | _ => false end.
Definition isfile (p : path_arg) : bool :=
  match p with ImageFile _ _ => true | _ => false end.

Definition logger_error (e : exn) : Drv unit :=
  fun w => (Ok tt, {| w_rng := w_rng w; w_store := w_store w; w_cwd := w_cwd w;
                      w_log := w_log w ++ [e]; w_trace := w_trace w |}).

(** [try: body except Exception as e: handler(e)]; [SystemExit] is no
    [Exception]. *)
Definition try_except {A} (body : Drv A) (handler : exn -> Drv A) : Drv A :=
  fun w => match body w with
           | (Raise (SystemExit c), w') => (Raise (SystemExit c), w')
           | (Raise e, w') => handler e w'
           | ok => ok
           end.

Definition check_path (p : path_arg) : Drv unit :=
  try_except
    (if negb (isdir p) && negb (isfile p) then raise FileNotFoundError else ret tt)
    (fun e => logger_error e ;;; raise (SystemExit 1)).

(** [plt.imsave(name, img)] into the working directory. *)
Definition imsave_cwd (name : string) : Drv unit :=
  fun w => (Ok tt, {| w_rng := w_rng w; w_store := w_store w;
                      w_cwd := {[name]} ∪ w_cwd w;
                      w_log := w_log w; w_trace := w_trace w |}).

Section Main.
Context `{CvKernels}.

(** The [else] branch: one image, six transforms, and the comparison plot
    (which changes nothing that is modelled). *)
Definition single_mode (name : string) (decoded : option image) : Drv unit :=
  match decoded with
  | None => raise AttributeError
  | Some img =>
      let img_name := py_stem name in
      translated_img <- lift_rand (translation img) ;;
      imsave_cwd (img_name +:+ "_Translation.JPG") ;;;
      axis <- lift_rand (randint 0 2) ;;
      flipped_img <- lift_result (flip img axis) ;;
      imsave_cwd (img_name +:+ "_Flip.JPG") ;;;
      rotated_img <- lift_rand (rotate img) ;;
      imsave_cwd (img_name +:+ "_Rotate.JPG") ;;;
      blurred_img <- lift_result (blur img) ;;
      imsave_cwd (img_name +:+ "_Blur.JPG") ;;;
      cropped_img <- lift_rand (crop img) ;;
      imsave_cwd (img_name +:+ "_Crop.JPG") ;;;
      let contrast_img := contrast img in
      imsave_cwd (img_name +:+ "_Contrast.JPG")
  end.

(** What runs once the path check has passed. *)
Definition process (p : path_arg) : Drv unit :=
  match p with
  | Directory tree => directory_mode tree
  | ImageFile name decoded => single_mode name decoded
  | NeitherFileNorDir => single_mode "" None
  end.

Definition main (p : path_arg) : Drv unit :=
  check_path p ;;; process p.

End Main.

(** The status the interpreter exits with: 0 at the end of the script, the
    argument of [sys.exit], and 1 for an exception nobody caught. *)
Definition exit_status {A} (r : result A) : Z :=
  match r with
  | Ok _ => 0
  | Raise (SystemExit c) => c
  | Raise _ => 1
  end.

(** A run starts with nothing logged and nothing traced. *)
Definition start (g : rng) (store : gmap string (gset string)) (cwd : gset string) : world :=
  {| w_rng := g; w_store := store; w_cwd := cwd; w_log := []; w_trace := [] |}.

(** ** [split_dataset.py]

    The three roots [images], [training] and [validation] live in one file
    system: a map from (root, class directory) to the directory's listing,
    the files with their contents in the order the system lists them. *)

Definition listing : Type := list (string * string).
Definition dir_key : Type := (string * string)%type.
Definition file_path : Type := (string * string * string)%type.

Record split_world : Type := {
  s_fs : gmap dir_key listing;
  s_copies : list (file_path * file_path)   (* the [shutil.copy] calls, oldest first *)
}.

Definition Sp (A : Type) : Type := M split_world A.

Definition input_dir : string := "images".
Definition output_train_dir : string := "training".
Definition output_valid_dir : string := "validation".

Fixpoint read_file (name : string) (l : listing) : option string :=
  match l with
  | [] => None
  | (n, c) :: l' => if String.eqb n name then Some c else read_file name l'
  end.

(** Writing a file replaces the one of that name, or adds a new one. *)
Fixpoint write_file (name content : string) (l : listing) : listing :=
  match l with
  | [] => [(name, content)]
  | (n, c) :: l' =>
      if String.eqb n name then (name, content) :: l'
      else (n, c) :: write_file name content l'
  end.

(** [dir.mkdir(parents=True, exist_ok=True)] *)
Definition mkdir (d : dir_key) : Sp unit :=
  fun w => match s_fs w !! d with
           | Some _ => (Ok tt, w)
           | None => (Ok tt, {| s_fs := <[d := []]> (s_fs w); s_copies := s_copies w |})
           end.

(** [shutil.copy(src, dst)]: the source is read and stays as it is. *)
Definition shutil_copy (src dst : file_path) : Sp unit :=
  fun w =>
    let '(sroot, sdir, sname) := src in
    let '(droot, ddir, dname) := dst in
    match s_fs w !! (sroot, sdir) ≫= read_file sname, s_fs w !! (droot, ddir) with
    | Some content, Some files =>
        (Ok tt, {| s_fs := <[(droot, ddir) := write_file dname content files]> (s_fs w);
                   s_copies := s_copies w ++ [(src, dst)] |})
    | _, _ => (Raise FileNotFoundError, w)
    end.

(** [subdir.glob("image (*).JPG")]: the names, in listing order. *)
Definition glob_images (files : listing) : list string :=
  filter (fun n => Is_true (fnmatch "image (*).JPG" n)) (map fst files).

(** The sort key [int(x.stem.split(" ")[1].strip("()"))]. *)
Definition sort_key {text : PyText} (name : string) : result Z :=
  match split_space (py_stem name) with
  | _ :: field :: _ => py_int (strip is_paren field)
  | _ => Raise IndexError
  end.

(** The keys of all names, the first failing one raising. *)
Fixpoint with_keys {text : PyText} (names : list string) : result (list (Z * string)) :=
  match names with
  | [] => Ok []
  | n :: names' =>
      match sort_key n with
      | Raise e => Raise e
      | Ok k => match with_keys names' with
                | Raise e => Raise e
                | Ok l => Ok ((k, n) :: l)
                end
      end
  end.

Fixpoint insert_by_key (x : Z * string) (l : list (Z * string)) : list (Z * string) :=
  match l with
  | [] => [x]
  | y :: l' => if (fst x <=? fst y)%Z then x :: y :: l' else y :: insert_by_key x l'
  end.

(** [sorted(names, key=...)]: ascending keys, equal keys in their
    original order. *)
Definition sorted_by_key {text : PyText} (names : list string) : result (list string) :=
  match with_keys names with
  | Raise e => Raise e
  | Ok l => Ok (map snd (foldr insert_by_key [] l))
  end.

Definition copy_all (subdir : string) (dst_root : string) (names : list string) : Sp unit :=
  for_each names (fun img =>
    shutil_copy (input_dir, subdir, img) (dst_root, subdir, img)).

(** The body of the loop over [input_dir.iterdir()], for the entry [name];
    an entry that is no directory is skipped. *)
Definition split_subdir {text : PyText} (name : string) : Sp unit :=
  fun w =>
    match s_fs w !! (input_dir, name) with
    | None => (Ok tt, w)
    | Some files =>
        (mkdir (output_train_dir, name) ;;;
         mkdir (output_valid_dir, name) ;;;
         images <- lift_result (sorted_by_key (glob_images files)) ;;
         let validation_images := take 25 images in
         let training_images := drop 25 images in
         copy_all name output_train_dir training_images ;;;
         copy_all name output_valid_dir validation_images) w
    end.

(** The script, over the entries of [images/] in the order listed.  The
    two output roots need no entry of their own: directories are keyed by
    root and class. *)
Definition split_dataset {text : PyText} (entries : list string) : Sp unit :=
  for_each entries split_subdir.

(** ** Vocabulary of the statements *)

(** [img[y][x][c]], where the indices are inside the array. *)
Definition sample (img : image) (y x c : nat) : option Z :=
  match pixel_at img x y with
  | Some p => (p : list Z) !! c
  | None => None
  end.

(** Every sample is a [uint8] value. *)
Definition all_u8 (img : image) : Prop :=
  Forall (Forall (Forall (fun v => 0 <= v <= 255)%Z)) img.

(** The translation matrix with the shifts [tx] and [ty]. *)
Definition shift_matrix (tx ty : Z) : mat3 :=
  ((1, 0, inject_Z tx), (0, 1, inject_Z ty), (0, 0, 1))%Q.

(** [flip(flip(img, axis), axis)] *)
Definition flip_twice (img : image) (axis : Z) : result image :=
  match flip img axis with
  | Ok flipped => flip flipped axis
  | Raise e => Raise e
  end.

(** The array is rectangular with this shape, as a proposition. *)
Definition shaped (rows cols dim : nat) (img : image) : Prop :=
  length img = rows
  /\ Forall (fun row : list pixel =>
               length row = cols /\ Forall (fun p : pixel => length p = dim) row) img.

(** [warped] is what one of the two warps returns for [img] and the
    destination size [(cols, rows)]. *)
Definition is_warp_of (img : image) (rows cols : nat) (warped : image) : Prop :=
  (exists m, warpPerspective img m (cols, rows) = Ok warped)
  \/ (exists m, warpAffine img m (cols, rows) = Ok warped).

(** Whatever is drawn, the transform returns the window [[50:150, 50:150]]
    of a warp of [img], and that window is 100 x 100 x 3. *)
Definition windowed (img : image) (rows cols : nat) (transform : Rand image) : Prop :=
  forall g, exists warped out g',
    transform g = (Ok out, g')
    /\ is_warp_of img rows cols warped
    /\ out = slice2 50 150 50 150 warped
    /\ has_shape 100 100 3 out = true.

(** A constant image of a given shape, for closed examples. *)
Definition blank (rows cols : nat) : image :=
  replicate rows (replicate cols [0; 0; 0]%Z).

(** The generator whose raw supply is constantly 0. *)
Definition rng0 : rng := {| entropy := (fun _ => 0%Z); cursor := 0 |}.

(** Numerical kernels for closed examples; the statements hold for all. *)
Definition example_kernels : CvKernels :=
  {| uniform_double := (fun low high r => low + (high - low) * (r # 2 ^ 53))%Q;
     to_float32 := (fun q => q);
     cos_deg := (fun _ => 1%Q);
     sin_deg := (fun _ => 0%Q);
     getPerspectiveTransform := (fun _ dst => ((1, 0, 0), (0, 1, 0), (0, 0, 1))%Q);
     resize_sample := (fun src _ x y => pixel_or_border src x y) |}.

(** An [int()] for closed examples, which reads no digit outside ASCII;
    the statements hold for all. *)
Definition example_text : PyText :=
  {| int_unicode := (fun _ => Raise ValueError);
     int_unicode_raises :=
       (fun _ e (Heq : @Raise Z ValueError = Raise e) =>
          match Heq in (_ = r)
                return (match r with Raise e' => e' = ValueError | Ok _ => True end)
          with eq_refl => eq_refl end) |}.

(** The integer keys of [a] and [b] are in ascending order. *)
Definition key_le {text : PyText} (a b : string) : Prop :=
  match sort_key a, sort_key b with
  | Ok x, Ok y => (x <= y)%Z
  | _, _ => False
  end.

(** The [shutil.copy] calls that copy [names] from [images/subdir] into
    [root/subdir]. *)
Definition copies_into (root subdir : string) (names : list string)
    : list (file_path * file_path) :=
  map (fun n => ((input_dir, subdir, n), (root, subdir, n))) names.

(** The name is [image (N).JPG] for an integer [N] as [int()] reads it. *)
Definition is_indexed_name {text : PyText} (name : string) : Prop :=
  exists mid n, name = "image (" +:+ mid +:+ ").JPG" /\ py_int mid = Ok n.

(** The sort key of the name is an integer. *)
Definition has_key {text : PyText} (name : string) : bool :=
  match sort_key name with Ok _ => true | Raise _ => false end.

(** The names of the files a list of [shutil.copy] calls creates. *)
Definition copied_names (log : list (file_path * file_path)) : list string :=
  map (fun c => snd (snd c)) log.

(** The decimal numeral of a natural number, and the file name
    [image (n).JPG]. *)
Definition image_name (n : nat) : string :=
  "image (" +:+ NilZero.string_of_uint (Nat.to_uint n) +:+ ").JPG".





(** The name [augment] gives the flipped [image (n).JPG], and a file
    system whose only directory is [images/Apple], holding the flipped
    images 1 to [n]. *)
Definition flipped_name (n : nat) : string :=
  "image (" +:+ NilZero.string_of_uint (Nat.to_uint n) +:+ ")_Flip.JPG".

Definition flipped_world (n : nat) : split_world :=
  {| s_fs := {[ (input_dir, "Apple") :=
                  map (fun i => (flipped_name i, "jpeg")) (seq 1 n) ]};
     s_copies := [] |}.

(** A file system whose only directory is [images/Apple], holding
    [image (1).JPG] to [image (n).JPG] in descending order. *)
Definition apple_world (n : nat) : split_world :=
  {| s_fs := {[ (input_dir, "Apple") :=
                  map (fun i => (image_name i, "jpeg")) (reverse (seq 1 n)) ]};
     s_copies := [] |}.

(** The number of entries of a class directory of augmented_directory. *)
Definition count_in (store : gmap string (gset string)) (d : string) : nat :=
  match store !! d with Some files => size files | None => 0%nat end.

(** No class directory holds more than [target] entries. *)
Definition dirs_within (target : nat) (store : gmap string (gset string)) : Prop :=
  forall d, (count_in store d <= target)%nat.

(** What a write of the balancing loop must satisfy: after it no class
    directory exceeds the target, and a write of [augment] happens only in
    a directory that was strictly below the target. *)
Definition write_ok (target : nat) (ev : write_event) : Prop :=
  match ev_kind ev with
  | Copied => True
  | Resaved => dirs_within target (ev_after ev)
  | Augmented _ =>
      (count_in (ev_before ev) (ev_dir ev) < target)%nat
      /\ dirs_within target (ev_after ev)
  end.

Definition is_copy (ev : write_event) : Prop := ev_kind ev = Copied.

(** A file of the source tree is in its class directory of
    augmented_directory. *)
Definition present (store : gmap string (gset string)) (f : src_file) : Prop :=
  exists files, store !! py_stem (f_dir f) = Some files /\ f_name f ∈ files.

(** A command keeps an invariant of the world, whether it returns or
    raises. *)
Definition keeps {A} (I : world -> Prop) (m : Drv A) : Prop :=
  forall w r w', I w -> m w = (r, w') -> I w'.

(** The invariant of the balancing loop: no directory above the target,
    every source file already copied, every write so far in order. *)
Definition balanced (target : nat) (srcs : list src_file) (w : world) : Prop :=
  dirs_within target (w_store w)
  /\ Forall (present (w_store w)) srcs
  /\ Forall (write_ok target) (w_trace w).

(** The order in which the balancing loop tries the transforms. *)
Definition augment_order : list aug_type :=
  [Flip; Rotate; Blur; Crop; Distortion; Shear; Skew; Contrast].

(** The result is no [SystemExit]. *)
Definition ordinary {A} (r : result A) : Prop :=
  forall c, r <> Raise (SystemExit c).

(** The command never raises [SystemExit]. *)
Definition no_exit {S A} (m : M S A) : Prop :=
  forall s, ordinary (fst (m s)).

(** The command returns, in every state. *)
Definition succeeds {S A} (m : M S A) : Prop :=
  forall s, exists a s', m s = (Ok a, s').

(** Every sample of the pixel is a [uint8] value. *)
Definition u8_pixel (p : pixel) : Prop := Forall (fun v => 0 <= v <= 255)%Z p.

(** Whatever is drawn, the transform returns, and what it returns has the
    shape of the window [[50:150, 50:150]] clipped to a [rows] x [cols]
    array. *)
Definition clipped (rows cols dim : nat) (transform : Rand image) : Prop :=
  forall g, exists out g',
    transform g = (Ok out, g')
    /\ shaped (Nat.min rows 150 - 50) (Nat.min cols 150 - 50) dim out.

(** Every entry of [before] is still in its directory in [after]. *)
Definition store_grows (before after : gmap string (gset string)) : Prop :=
  forall d files, before !! d = Some files ->
    exists files', after !! d = Some files' /\ files ⊆ files'.

(** Directory mode in progress: augmented_directory has only grown, and
    neither the working directory nor the log was touched. *)
Definition only_adds (w0 w : world) : Prop :=
  store_grows (w_store w0) (w_store w)
  /\ w_cwd w = w_cwd w0 /\ w_log w = w_log w0.

(** The six files single-image mode saves for the image [name]. *)
Definition single_mode_files (name : string) : list string :=
  map (fun suffix => py_stem name +:+ suffix)
      ["_Translation.JPG"; "_Flip.JPG"; "_Rotate.JPG"; "_Blur.JPG"; "_Crop.JPG";
       "_Contrast.JPG"]%string.

(** Single-image mode in progress: augmented_directory is as it was, and
    the working directory holds what it held plus the first [k] of the six
    files. *)
Definition saved_first (name : string) (w0 : world) (k : nat) (w : world) : Prop :=
  w_store w = w_store w0 /\ w_trace w = w_trace w0 /\ w_log w = w_log w0
  /\ w_cwd w = list_to_set (take k (single_mode_files name)) ∪ w_cwd w0.

(** The character is a decimal digit. *)
Definition is_digit (c : ascii) : bool :=
  match digit_of c with Some _ => true | None => false end.

(** The integer key of a name, 0 where there is none. *)
Definition key_of {text : PyText} (name : string) : Z :=
  match sort_key name with Ok k => k | Raise _ => 0 end.

(** A command of the split keeps an invariant of the file system, whether
    it returns or raises. *)
Definition sp_keeps {A} (I : split_world -> Prop) (m : Sp A) : Prop :=
  forall w r w', I w -> m w = (r, w') -> I w'.

(** The directory [d] holds a file named [n]. *)
Definition holds_file (w : split_world) (d : dir_key) (n : string) : Prop :=
  exists l, s_fs w !! d = Some l /\ is_Some (read_file n l).

(** The [shutil.copy] calls the loop body makes for the entry [name]:
    none for an entry that is no directory. *)
Definition class_copies {text : PyText} (w : split_world) (name : string) : list (file_path * file_path) :=
  match s_fs w !! (input_dir, name) with
  | None => []
  | Some files =>
      match sorted_by_key (glob_images files) with
      | Ok images => copies_into output_train_dir name (drop 25 images)
                     ++ copies_into output_valid_dir name (take 25 images)
      | Raise _ => []
      end
  end.

(** Every class directory among [entries] has an integer key for each
    file the glob selects. *)
Definition all_keyed {text : PyText} (entries : list string) (w : split_world) : Prop :=
  forall name files,
    name ∈ entries -> s_fs w !! (input_dir, name) = Some files ->
    forallb has_key (glob_images files) = true.

(** A file system with the classes [Apple] (two images, listed in
    descending order) and [Grape] (one image) under [images/]. *)
Definition two_class_world : split_world :=
  {| s_fs := {[ (input_dir, "Apple"%string) :=
                  [("image (2).JPG", "a2"); ("image (1).JPG", "a1")]%string;
                (input_dir, "Grape"%string) := [("image (1).JPG", "g1")]%string ]};
     s_copies := [] |}.

(** The same, with a class [Cherry] whose only file is named by a word. *)
Definition bad_key_world : split_world :=
  {| s_fs := <[ (input_dir, "Cherry"%string) := [("image (one).JPG", "c1")]%string ]>
               (s_fs two_class_world);
     s_copies := [] |}.

(** The name [augment] saves the variant [t] of an image under. *)
Definition aug_name (image : src_file) (t : aug_type) : string :=
  (py_stem (f_name image) +:+ "_" +:+ py_title (method_name t) +:+ ".JPG")%string.

(** The balancing loop is done with the image: its class directory holds
    at least [target] entries, or it holds all eight variants of the
    image. *)
Definition served (target : nat) (store : gmap string (gset string)) (image : src_file)
    : Prop :=
  exists files,
    store !! py_stem (f_dir image) = Some files
    /\ ((target <= size files)%nat
        \/ forall t, t ∈ augment_order -> aug_name image t ∈ files).

(** A source tree with two images in [Apple] and one in [Grape]. *)
Definition two_class_tree : list entry :=
  [SubDir [{| f_dir := "Apple"; f_name := "a1.JPG"; f_pixels := blank 1 1 |};
           {| f_dir := "Apple"; f_name := "a2.JPG"; f_pixels := blank 1 1 |}];
   SubDir [{| f_dir := "Grape"; f_name := "g1.JPG"; f_pixels := blank 1 1 |}]]%string.




(** A source tree with one image in the directory [Apple], and [Grape] a
    symbolic link to a directory of two images. *)
Definition linked_class_tree : list entry :=
  [SubDir [{| f_dir := "Apple"; f_name := "a1.JPG"; f_pixels := blank 1 1 |}];
   LinkDir [{| f_dir := "Grape"; f_name := "g1.JPG"; f_pixels := blank 1 1 |};
            {| f_dir := "Grape"; f_name := "g2.JPG"; f_pixels := blank 1 1 |}]]%string.

(** A three-channel image with height and width above 100. *)
Definition above_100 (img : image) : Prop :=
  exists rows cols,
    has_shape rows cols 3 img = true /\ (100 < rows)%nat /\ (100 < cols)%nat.

(** The class directory exists in augmented_directory. *)
Definition has_dir (d : string) (w : world) : Prop := is_Some (w_store w !! d).

(** From a state where [P] holds the command returns, in a state where
    [P] holds again. *)
Definition completes {A} (P : world -> Prop) (m : Drv A) : Prop :=
  forall w, P w -> exists a w', m w = (Ok a, w') /\ P w'.

(** A directory with one class of two 101 x 101 images. *)
Definition large_tree : list entry :=
  [SubDir [{| f_dir := "Apple"; f_name := "a1.JPG"; f_pixels := blank 101 101 |};
           {| f_dir := "Apple"; f_name := "a2.JPG"; f_pixels := blank 101 101 |}]]%string.

(** * Properties *)

Local Close Scope string_scope.
Local Open Scope Z_scope.

(** ** The monad *)

Lemma bind_ok {S A B} (m : M S A) (k : A -> M S B) s a s' :
  m s = (Ok a, s') -> bind m k s = k a s'.
Proof. intros Hm. unfold bind. by rewrite Hm. Qed.

Lemma bind_raise {S A B} (m : M S A) (k : A -> M S B) s e s' :
  m s = (Raise e, s') -> bind m k s = (Raise e, s').
Proof. intros Hm. unfold bind. by rewrite Hm. Qed.

(** ** Random draws *)

Lemma randint_ok low high g :
  low < high ->
  exists v g', randint low high g = (Ok v, g') /\ low <= v < high.
Proof.
  intros Hlt. unfold randint.
  apply Z.ltb_lt in Hlt as Hb. rewrite Hb.
  eexists _, _. split; [reflexivity|].
  pose proof (Z.mod_pos_bound (entropy g (cursor g)) (high - low)). lia.
Qed.

Lemma randint_empty low high g :
  high <= low -> randint low high g = (Raise ValueError, g).
Proof.
  intros Hle. unfold randint.
  destruct (low <? high) eqn:Hb; [apply Z.ltb_lt in Hb; lia | reflexivity].
Qed.

Lemma randint_range low high g v g' :
  randint low high g = (Ok v, g') -> low <= v < high.
Proof.
  unfold randint. destruct (low <? high) eqn:Hb; [|discriminate].
  apply Z.ltb_lt in Hb. cbv [bind next_raw ret]. intros [= <- _].
  pose proof (Z.mod_pos_bound (entropy g (cursor g)) (high - low)). lia.
Qed.

(** Every value of the range is drawn from some state of the generator. *)
Lemma randint_onto low high v k :
  low <= v < high ->
  randint low high {| entropy := (fun _ => v - low); cursor := k |}
  = (Ok v, {| entropy := (fun _ => v - low); cursor := S k |}).
Proof.
  intros Hv. unfold randint.
  assert ((low <? high) = true) as -> by (apply Z.ltb_lt; lia).
  cbv [bind next_raw ret]. simpl.
  rewrite Z.mod_small by lia. do 2 f_equal. lia.
Qed.

(** ** Contrast *)

Lemma contrast_map (img : image) :
  contrast img = map (map (map (fun v => saturate_u8 (2 * v - 50)))) img.
Proof.
  unfold contrast, addWeighted, zeros_like.
  induction img as [|row img IH]; [done|]. cbn [map zip_with]. f_equal; [|exact IH].
  clear IH. induction row as [|p row IH]; [done|]. cbn [map zip_with]. f_equal; [|exact IH].
  clear IH. induction p as [|v p IH]; [done|]. cbn [map zip_with]. f_equal; [|exact IH].
  f_equal. lia.
Qed.

(** C3. For every image and every sample position, the contrast transform
    puts [2 * input - 50] clamped to the range 0..255 there (so a value
    above 255 becomes 255 and one below 0 becomes 0: nothing wraps modulo
    256), the array keeps its shape, and every output sample lies in
    0..255. *)
Theorem contrast_clamps (img : image) :
  (forall y x c,
     sample (contrast img) y x c
     = (fun v => Z.max 0 (Z.min 255 (2 * v - 50))) <$> sample img y x c)
  /\ all_u8 (contrast img).
Proof.
  rewrite contrast_map. split.
  - intros y x c. unfold sample, pixel_at.
    rewrite list_lookup_fmap.
    destruct (_ !! y) as [row|]; [|done]. cbn.
    rewrite list_lookup_fmap.
    destruct (_ !! x) as [p|]; [|done]. cbn.
    by rewrite list_lookup_fmap.
  - unfold all_u8.
    apply Forall_fmap, Forall_true. intros row.
    apply Forall_fmap, Forall_true. intros p.
    apply Forall_fmap, Forall_true. intros v.
    unfold saturate_u8. cbn. lia.
Qed.

(** ** Translation: the range of the shifts *)

Lemma shift_matrix_inj tx ty tx' ty' :
  shift_matrix tx ty = shift_matrix tx' ty' -> tx = tx' /\ ty = ty'.
Proof. unfold shift_matrix, inject_Z. intros [= -> ->]. done. Qed.

Lemma translation_matrix_draws g :
  exists tx ty g',
    translation_matrix g = (Ok (shift_matrix tx ty), g')
    /\ -100 <= tx <= 99 /\ -100 <= ty <= 99.
Proof.
  destruct (randint_ok (-100) 100 g) as (tx & g1 & Hx & Hrx); [lia|].
  destruct (randint_ok (-100) 100 g1) as (ty & g2 & Hy & Hry); [lia|].
  exists tx, ty, g2. split; [|lia].
  unfold translation_matrix.
  rewrite (bind_ok _ _ _ _ _ Hx), (bind_ok _ _ _ _ _ Hy). reflexivity.
Qed.

(** C7 (amended). Every call of the translation transform draws two
    shifts, each in the interval [-100, 99]: the upper bound 100 that
    [np.random.randint(-100, 100)] is given is excluded.  Conversely every
    pair of values of [-100, 99] is drawn from some state of the
    generator. *)
Theorem translation_shift_range :
  (forall g, exists tx ty g',
      translation_matrix g = (Ok (shift_matrix tx ty), g')
      /\ -100 <= tx <= 99 /\ -100 <= ty <= 99)
  /\ (forall tx ty,
        (exists g g', translation_matrix g = (Ok (shift_matrix tx ty), g'))
        <-> (-100 <= tx <= 99 /\ -100 <= ty <= 99)).
Proof.
  split; [exact translation_matrix_draws|].
  intros tx ty. split.
  - intros (g & g' & Hrun).
    destruct (translation_matrix_draws g) as (tx' & ty' & g'' & Hrun' & Hx & Hy).
    assert (shift_matrix tx ty = shift_matrix tx' ty') as Hm by congruence.
    apply shift_matrix_inj in Hm as [-> ->]. done.
  - intros [Hx Hy].
    set (e := fun n : nat => match n with O => tx + 100 | _ => ty + 100 end).
    exists {| entropy := e; cursor := 0 |}, {| entropy := e; cursor := 2 |}.
    unfold translation_matrix, randint. cbn.
    cbv [bind next_raw ret]. cbn.
    rewrite !Z.mod_small by lia.
    unfold shift_matrix. repeat f_equal; lia.
Qed.

(** C7 (as stated, refuted). The shift 100, the upper end of the closed
    interval [-100, 100], is never drawn. *)
Lemma translation_shift_100_never_drawn :
  ~ exists g g' ty, translation_matrix g = (Ok (shift_matrix 100 ty), g').
Proof.
  intros (g & g' & ty & Hrun).
  destruct (translation_matrix_draws g) as (tx' & ty' & g'' & Hrun' & Hx & Hy).
  assert (shift_matrix 100 ty = shift_matrix tx' ty') as Hm by congruence.
  apply shift_matrix_inj in Hm as [<- _]. lia.
Qed.

(** ** Blur and contrast draw nothing *)

(** C9. Blur and contrast are deterministic: called through the method
    table on the same image, in any two states of the random generator
    (and whatever the numerical kernels are), they return the same result,
    and they leave the generator where it was. *)
Theorem blur_contrast_deterministic
    (K1 K2 : CvKernels) (img : image) (g1 g2 : rng) :
  fst (@call_method K1 Blur img g1) = fst (@call_method K2 Blur img g2)
  /\ snd (@call_method K1 Blur img g1) = g1
  /\ fst (@call_method K1 Contrast img g1) = fst (@call_method K2 Contrast img g2)
  /\ snd (@call_method K1 Contrast img g1) = g1
  /\ fst (@call_method K1 Contrast img g1) = Ok (contrast img).
Proof. repeat split. Qed.

(** ** Flip *)

(** C2 (the code at a failing input). On the one-row image of two pixels
    [a; b] the flip along axis 0 reads column [cols - x] instead of
    [cols - 1 - x]: the first output column is the black border and pixel
    [a] is lost, so flipping twice does not give the image back.  The same
    happens to the first row for the other axis. *)
Example flip_twice_is_not_identity :
  let img : image := [[[10; 20; 30]; [40; 50; 60]]] in
  let col : image := [[[10; 20; 30]]; [[40; 50; 60]]] in
  flip img 0 = Ok [[[0; 0; 0]; [40; 50; 60]]]
  /\ flip_twice img 0 = Ok [[[0; 0; 0]; [40; 50; 60]]]
  /\ flip_twice img 0 <> Ok img
  /\ flip col 1 = Ok [[[0; 0; 0]]; [[40; 50; 60]]]
  /\ flip_twice col 1 <> Ok col.
Proof. vm_compute. repeat split; discriminate. Qed.

(** ** Shapes *)

Lemma has_shape_shaped rows cols dim img :
  has_shape rows cols dim img = true <-> shaped rows cols dim img.
Proof.
  unfold has_shape, shaped.
  rewrite andb_true_iff, Nat.eqb_eq.
  apply and_iff_compat_l.
  induction img as [|row img IH]; cbn [forallb].
  - split; [constructor | done].
  - rewrite !andb_true_iff, Nat.eqb_eq, Forall_cons, IH.
    apply and_iff_compat_r, and_iff_compat_l.
    clear. induction row as [|p row IH]; cbn [forallb].
    + split; [constructor | done].
    + by rewrite andb_true_iff, Nat.eqb_eq, Forall_cons, IH.
Qed.

Lemma shaped_shape rows cols dim img :
  shaped rows cols dim img -> (0 < rows)%nat -> (0 < cols)%nat ->
  shape img = (rows, cols, dim).
Proof.
  intros [Hlen Hrows] Hr Hc. unfold shape.
  destruct img as [|row img]; cbn in *; [lia|].
  apply Forall_cons in Hrows as [[Hrow Hpx] _].
  destruct row as [|p row]; cbn in *; [lia|].
  apply Forall_cons in Hpx as [Hp _]. by rewrite Hlen, Hrow, Hp.
Qed.

Lemma shaped_not_empty rows cols dim img :
  shaped rows cols dim img -> (0 < rows)%nat -> (0 < cols)%nat ->
  is_empty img = false.
Proof.
  intros Hs Hr Hc. unfold is_empty. rewrite (shaped_shape _ _ _ _ Hs Hr Hc).
  apply orb_false_iff. split; apply Nat.eqb_neq; lia.
Qed.

Lemma py_slice_inside {A} (a b : Z) (l : list A) :
  0 <= a <= b -> b <= Z.of_nat (length l) ->
  py_slice a b l = take (Z.to_nat (b - a)) (drop (Z.to_nat a) l).
Proof.
  intros Hab Hb. unfold py_slice, slice_index.
  assert ((a <? 0) = false) as -> by (apply Z.ltb_ge; lia).
  assert ((b <? 0) = false) as -> by (apply Z.ltb_ge; lia).
  repeat f_equal; lia.
Qed.

Lemma py_slice_length {A} (a b : Z) (l : list A) :
  0 <= a <= b -> b <= Z.of_nat (length l) ->
  length (py_slice a b l) = Z.to_nat (b - a).
Proof.
  intros Hab Hb. rewrite py_slice_inside by done.
  rewrite length_take, length_drop. lia.
Qed.

Lemma py_slice_Forall {A} (P : A -> Prop) (a b : Z) (l : list A) :
  Forall P l -> Forall P (py_slice a b l).
Proof. intros Hl. unfold py_slice. by apply Forall_take, Forall_drop. Qed.

Lemma shaped_slice2 rows cols dim img y0 y1 x0 x1 :
  shaped rows cols dim img ->
  0 <= y0 <= y1 -> y1 <= Z.of_nat rows ->
  0 <= x0 <= x1 -> x1 <= Z.of_nat cols ->
  shaped (Z.to_nat (y1 - y0)) (Z.to_nat (x1 - x0)) dim (slice2 y0 y1 x0 x1 img).
Proof.
  intros [Hlen Hrows] Hy0 Hy1 Hx0 Hx1. unfold slice2. split.
  - rewrite length_map, py_slice_length; [done | done | lia].
  - apply Forall_fmap. eapply Forall_impl; [by apply py_slice_Forall|].
    intros row [Hrow Hpx]. cbn. split.
    + rewrite py_slice_length; [done | done | lia].
    + by apply py_slice_Forall.
Qed.

(** An array built sample by sample has the shape it is built with. *)
Lemma shaped_grid (f : Z -> Z -> pixel) (width height dim : nat) :
  (forall x y, length (f x y) = dim) ->
  shaped height width dim
    (map (fun y => map (fun x => f x y) (seqZ 0 (Z.of_nat width)))
         (seqZ 0 (Z.of_nat height))).
Proof.
  intros Hf. split.
  - rewrite length_map, length_seqZ. lia.
  - apply Forall_fmap, Forall_true. intros y. cbn. split.
    + rewrite length_map, length_seqZ. lia.
    + apply Forall_fmap, Forall_true. intros x. apply Hf.
Qed.

Lemma shaped_pixel_at rows cols dim img x y p :
  shaped rows cols dim img -> pixel_at img x y = Some p -> length p = dim.
Proof.
  intros [_ Hrows]. unfold pixel_at.
  destruct (_ !! y) as [row|] eqn:Hrow; [|done].
  intros Hp.
  pose proof (Forall_lookup_1 _ _ _ _ Hrows Hrow) as [_ Hpx].
  exact (Forall_lookup_1 _ _ _ _ Hpx Hp).
Qed.

Lemma pixel_or_border_length rows cols dim img x y :
  shaped rows cols dim img -> (0 < rows)%nat -> (0 < cols)%nat ->
  length (pixel_or_border img x y) = dim.
Proof.
  intros Hs Hr Hc. unfold pixel_or_border.
  rewrite (shaped_shape _ _ _ _ Hs Hr Hc).
  destruct (_ && _); [|by rewrite length_replicate].
  destruct (pixel_at img _ _) as [p|] eqn:Hp; cbn.
  - by eapply shaped_pixel_at.
  - by rewrite length_replicate.
Qed.

Lemma remap_linear_length rows cols dim img X Y :
  shaped rows cols dim img -> (0 < rows)%nat -> (0 < cols)%nat ->
  length (remap_linear img X Y) = dim.
Proof.
  intros Hs Hr Hc. unfold remap_linear.
  rewrite !length_zip_with, !(pixel_or_border_length rows cols dim) by done. lia.
Qed.

Lemma warpPerspective_shaped rows cols dim img m width height :
  shaped rows cols dim img -> (0 < rows)%nat -> (0 < cols)%nat ->
  exists out, warpPerspective img m (width, height) = Ok out
              /\ shaped height width dim out.
Proof.
  intros Hs Hr Hc. unfold warpPerspective.
  rewrite (shaped_not_empty _ _ _ _ Hs Hr Hc).
  eexists. split; [reflexivity|].
  apply (shaped_grid (fun x y => let '(X, Y) := perspective_coords (invert3 m) x y in
                                 remap_linear img X Y)).
  intros x y. destruct (perspective_coords _ x y). by eapply remap_linear_length.
Qed.

Lemma warpAffine_shaped rows cols dim img m width height :
  shaped rows cols dim img -> (0 < rows)%nat -> (0 < cols)%nat ->
  exists out, warpAffine img m (width, height) = Ok out
              /\ shaped height width dim out.
Proof.
  intros Hs Hr Hc. unfold warpAffine.
  rewrite (shaped_not_empty _ _ _ _ Hs Hr Hc).
  eexists. split; [reflexivity|].
  apply (shaped_grid (fun x y => let '(X, Y) := affine_coords (invert_affine m) x y in
                                 remap_linear img X Y)).
  intros x y. destruct (affine_coords _ x y). by eapply remap_linear_length.
Qed.

(** ** Flip on every image

    The matrix of [flip] has integer entries and is its own inverse, so
    the warp reads the source on the pixel grid, where linear
    interpolation returns the sample itself. *)

Lemma cvRound_inject (q : Q) (z : Z) : (q == inject_Z z)%Q -> cvRound q = z.
Proof.
  intros Hq. unfold cvRound.
  assert (Qfloor q = z) as -> by (rewrite Hq; apply Qfloor_Z).
  assert ((q - inject_Z z == 0)%Q) as Hd by (rewrite Hq; ring).
  rewrite Hd. reflexivity.
Qed.

Lemma Qeq_bool_false (q : Q) : ~ (q == 0)%Q -> Qeq_bool q 0 = false.
Proof.
  intros Hq. destruct (Qeq_bool q 0) eqn:Hz; [|done].
  by apply Qeq_bool_eq in Hz.
Qed.

Lemma flip0_coords (rows cols : nat) (x y : Z) :
  perspective_coords (invert3 (flip_matrix rows cols 0)) x y
  = (saturate_int (32 * (Z.of_nat cols - x)), saturate_int (32 * y)).
Proof.
  unfold flip_matrix. cbn [Z.eqb]. unfold invert3.
  set (c := inject_Z (Z.of_nat cols)).
  set (dt := det3 _).
  assert (dt == -1)%Q as Hdet by (unfold dt, det3; ring).
  assert (~ dt == 0)%Q as Hnz by (rewrite Hdet; discriminate).
  rewrite (Qeq_bool_false dt Hnz).
  unfold perspective_coords.
  match goal with |- context [Qeq_bool ?w 0] =>
    assert (w == 1)%Q as Hw by (rewrite Hdet; field);
    rewrite (Qeq_bool_false w) by (rewrite Hw; discriminate)
  end.
  f_equal; f_equal; apply cvRound_inject.
  - unfold c. unfold Z.sub. rewrite inject_Z_mult, inject_Z_plus, inject_Z_opp. rewrite !Hdet. field.
  - rewrite inject_Z_mult. rewrite !Hdet. field.
Qed.

Lemma mix_grid (P00 P01 P10 P11 : list Z) :
  length P01 = length P00 -> length P10 = length P00 -> length P11 = length P00 ->
  u8_pixel P00 ->
  zip_with (fun f p11 => f p11)
    (zip_with (fun f p10 => f p10)
       (zip_with (fun p00 p01 p10 p11 =>
                    saturate_u8 (Z.shiftr (32768 * p00 + 0 * p01 + 0 * p10 + 0 * p11 + 2 ^ 14) 15))
                 P00 P01) P10) P11
  = P00.
Proof.
  revert P01 P10 P11.
  induction P00 as [|p P00 IH]; intros [|p01 P01] [|p10 P10] [|p11 P11] H1 H2 H3 Hu;
    simplify_eq/=; [done|].
  apply Forall_cons in Hu as [Hp Hu].
  f_equal; [|by apply IH].
  rewrite Z.shiftr_div_pow2 by lia.
  replace (32768 * p + 0 * p01 + 0 * p10 + 0 * p11 + 2 ^ 14)
    with (p * 2 ^ 15 + 2 ^ 14) by lia.
  rewrite Z.div_add_l by lia.
  change (2 ^ 14 / 2 ^ 15) with 0. unfold saturate_u8. lia.
Qed.

Lemma remap_linear_grid rows cols dim img sx sy :
  shaped rows cols dim img -> (0 < rows)%nat -> (0 < cols)%nat ->
  - 2 ^ 15 <= sx <= 2 ^ 15 - 1 -> - 2 ^ 15 <= sy <= 2 ^ 15 - 1 ->
  u8_pixel (pixel_or_border img sx sy) ->
  remap_linear img (32 * sx) (32 * sy) = pixel_or_border img sx sy.
Proof.
  intros Hs Hr Hc Hx Hy Hu. unfold remap_linear.
  assert (forall v, Z.shiftr (32 * v) 5 = v) as Hshift.
  { intros v. rewrite Z.shiftr_div_pow2 by lia. rewrite Z.mul_comm. by apply Z.div_mul. }
  assert (forall v, Z.land (32 * v) 31 = 0) as Hland.
  { intros v. change 31 with (Z.ones 5). rewrite Z.land_ones by lia.
    rewrite Z.mul_comm. by apply Z.mod_mul. }
  rewrite !Hshift, !Hland.
  assert (saturate_short sx = sx) as -> by (unfold saturate_short; lia).
  assert (saturate_short sy = sy) as -> by (unfold saturate_short; lia).
  change ((32 - 0) * (32 - 0) * 32) with 32768.
  change (0 * (32 - 0) * 32) with 0. change ((32 - 0) * 0 * 32) with 0.
  change (0 * 0 * 32) with 0.
  apply mix_grid; [| | |done];
    by rewrite !(pixel_or_border_length rows cols dim).
Qed.

Lemma flip1_coords (rows cols : nat) (axis x y : Z) :
  axis <> 0 ->
  perspective_coords (invert3 (flip_matrix rows cols axis)) x y
  = (saturate_int (32 * x), saturate_int (32 * (Z.of_nat rows - y))).
Proof.
  intros Ha. unfold flip_matrix.
  assert ((axis =? 0) = false) as -> by (by apply Z.eqb_neq).
  unfold invert3.
  set (r := inject_Z (Z.of_nat rows)).
  set (dt := det3 _).
  assert (dt == -1)%Q as Hdet by (unfold dt, det3; ring).
  assert (~ dt == 0)%Q as Hnz by (rewrite Hdet; discriminate).
  rewrite (Qeq_bool_false dt Hnz).
  unfold perspective_coords.
  match goal with |- context [Qeq_bool ?w 0] =>
    assert (w == 1)%Q as Hw by (rewrite Hdet; field);
    rewrite (Qeq_bool_false w) by (rewrite Hw; discriminate)
  end.
  f_equal; f_equal; apply cvRound_inject.
  - rewrite inject_Z_mult. rewrite !Hdet. field.
  - unfold r, Z.sub. rewrite inject_Z_mult, inject_Z_plus, inject_Z_opp. rewrite !Hdet. field.
Qed.

Lemma pixel_or_border_u8 img x y : all_u8 img -> u8_pixel (pixel_or_border img x y).
Proof.
  intros Hu. unfold pixel_or_border. destruct (shape img) as [[rows cols] dim].
  assert (u8_pixel (replicate dim 0)) as Hblack.
  { apply Forall_replicate. lia. }
  destruct (_ && _); [|done].
  unfold pixel_at. destruct (_ !! Z.to_nat y) as [row|] eqn:Hrow; [|done].
  destruct (row !! Z.to_nat x) as [p|] eqn:Hp; [|done]. cbn.
  exact (Forall_lookup_1 _ _ _ _ (Forall_lookup_1 _ _ _ _ Hu Hrow) Hp).
Qed.

Lemma pixel_at_grid (f : Z -> Z -> pixel) (width height x y : nat) :
  (x < width)%nat -> (y < height)%nat ->
  pixel_at (map (fun y => map (fun x => f x y) (seqZ 0 (Z.of_nat width)))
                (seqZ 0 (Z.of_nat height))) x y
  = Some (f (Z.of_nat x) (Z.of_nat y)).
Proof.
  intros Hx Hy. unfold pixel_at.
  rewrite list_lookup_fmap, lookup_seqZ_lt by lia. cbn.
  rewrite list_lookup_fmap, lookup_seqZ_lt by lia. done.
Qed.

Lemma all_u8_grid (f : Z -> Z -> pixel) (width height : nat) :
  (forall x y, u8_pixel (f x y)) ->
  all_u8 (map (fun y => map (fun x => f x y) (seqZ 0 (Z.of_nat width)))
              (seqZ 0 (Z.of_nat height))).
Proof.
  intros Hf. unfold all_u8.
  apply Forall_fmap, Forall_true. intros y.
  apply Forall_fmap, Forall_true. intros x. apply Hf.
Qed.

Lemma remap_linear_u8 img X Y : u8_pixel (remap_linear img X Y).
Proof.
  unfold remap_linear, u8_pixel.
  apply Forall_lookup. intros i v Hv.
  apply lookup_zip_with_Some in Hv as (f3 & p11 & -> & Hf3 & _).
  apply lookup_zip_with_Some in Hf3 as (f2 & p10 & -> & Hf2 & _).
  apply lookup_zip_with_Some in Hf2 as (p00 & p01 & -> & _ & _).
  unfold saturate_u8. lia.
Qed.

(** A warp whose inverse map sends the pixel grid to the pixel grid copies
    pixels. *)
Lemma warp_grid_pixels rows cols dim img m (fx fy : Z -> Z -> Z) :
  shaped rows cols dim img -> (0 < rows)%nat -> (0 < cols)%nat ->
  all_u8 img ->
  (forall x y, perspective_coords (invert3 m) x y
               = (saturate_int (32 * fx x y), saturate_int (32 * fy x y))) ->
  (forall x y, 0 <= x < Z.of_nat cols -> 0 <= y < Z.of_nat rows ->
               - 2 ^ 15 <= fx x y <= 2 ^ 15 - 1 /\ - 2 ^ 15 <= fy x y <= 2 ^ 15 - 1) ->
  exists out,
    warpPerspective img m (cols, rows) = Ok out
    /\ shaped rows cols dim out
    /\ all_u8 out
    /\ (forall x y : nat, (x < cols)%nat -> (y < rows)%nat ->
          pixel_at out x y
          = Some (pixel_or_border img (fx (Z.of_nat x) (Z.of_nat y))
                                      (fy (Z.of_nat x) (Z.of_nat y)))).
Proof.
  intros Hs Hr Hc Hu Hcoords Hrange.
  destruct (warpPerspective_shaped rows cols dim img m cols rows Hs Hr Hc) as (out & Hout & Hso).
  exists out. split; [done|]. split; [done|].
  revert Hout. unfold warpPerspective. rewrite (shaped_not_empty _ _ _ _ Hs Hr Hc).
  intros [= <-]. split.
  - apply (all_u8_grid (fun x y => let '(X, Y) := perspective_coords (invert3 m) x y in
                                   remap_linear img X Y)).
    intros x y. destruct (perspective_coords _ x y). apply remap_linear_u8.
  - intros x y Hx Hy.
    rewrite (pixel_at_grid (fun x y => let '(X, Y) := perspective_coords (invert3 m) x y in
                                       remap_linear img X Y)) by done.
    f_equal. rewrite Hcoords.
    destruct (Hrange (Z.of_nat x) (Z.of_nat y)) as [Hfx Hfy]; [lia..|].
    assert (forall v, - 2 ^ 15 <= v <= 2 ^ 15 - 1 -> saturate_int (32 * v) = 32 * v) as Hsat
      by (intros v Hv; unfold saturate_int; lia).
    rewrite !Hsat by done.
    apply (remap_linear_grid rows cols dim); try done.
    by apply pixel_or_border_u8.
Qed.

Lemma pixel_or_border_inside rows cols dim img (x y : Z) :
  shaped rows cols dim img ->
  0 <= x < Z.of_nat cols -> 0 <= y < Z.of_nat rows ->
  pixel_at img (Z.to_nat x) (Z.to_nat y) = Some (pixel_or_border img x y).
Proof.
  intros Hs Hx Hy. unfold pixel_or_border.
  rewrite (shaped_shape _ _ _ _ Hs) by lia.
  assert ((0 <=? x) && (x <? Z.of_nat cols) && (0 <=? y) && (y <? Z.of_nat rows) = true) as ->.
  { rewrite !andb_true_iff, !Z.leb_le, !Z.ltb_lt. lia. }
  destruct Hs as [Hlen Hrows]. unfold pixel_at.
  destruct (lookup_lt_is_Some_2 img (Z.to_nat y)) as [row Hrow]; [lia|].
  rewrite Hrow.
  destruct (Forall_lookup_1 _ _ _ _ Hrows Hrow) as [Hrowlen _].
  destruct (lookup_lt_is_Some_2 row (Z.to_nat x)) as [p Hp]; [lia|].
  by rewrite Hp.
Qed.

Lemma pixel_or_border_outside rows cols dim img (x y : Z) :
  shaped rows cols dim img -> (0 < rows)%nat -> (0 < cols)%nat ->
  ~ (0 <= x < Z.of_nat cols /\ 0 <= y < Z.of_nat rows) ->
  pixel_or_border img x y = replicate dim 0.
Proof.
  intros Hs Hr Hc Hout. unfold pixel_or_border.
  rewrite (shaped_shape _ _ _ _ Hs) by lia.
  destruct (_ && _) eqn:Hin; [|done].
  rewrite !andb_true_iff, !Z.leb_le, !Z.ltb_lt in Hin. lia.
Qed.

(** What [flip] computes: output column [x] is source column [cols - x]
    (axis 0), output row [y] is source row [rows - y] (any other axis);
    the position one past the image reads the black border. *)
Lemma flip_pixels rows cols dim img axis :
  shaped rows cols dim img ->
  (0 < rows < 2 ^ 15)%nat -> (0 < cols < 2 ^ 15)%nat ->
  all_u8 img ->
  exists out,
    flip img axis = Ok out
    /\ shaped rows cols dim out
    /\ all_u8 out
    /\ (forall x y : nat, (x < cols)%nat -> (y < rows)%nat ->
          pixel_at out x y
          = Some (if axis =? 0
                  then pixel_or_border img (Z.of_nat cols - Z.of_nat x) (Z.of_nat y)
                  else pixel_or_border img (Z.of_nat x) (Z.of_nat rows - Z.of_nat y))).
Proof.
  intros Hs Hr Hc Hu. unfold flip. rewrite (shaped_shape _ _ _ _ Hs) by lia.
  assert (Z.of_nat rows < 2 ^ 15 /\ Z.of_nat cols < 2 ^ 15) as [Hr' Hc'].
  { change (2 ^ 15) with (Z.of_nat (2 ^ 15)). lia. }
  destruct (axis =? 0) eqn:Ha.
  - apply Z.eqb_eq in Ha as ->.
    apply (warp_grid_pixels rows cols dim img _ (fun x y => Z.of_nat cols - x) (fun x y => y));
      [done | lia | lia | done | apply flip0_coords | lia].
  - apply Z.eqb_neq in Ha.
    apply (warp_grid_pixels rows cols dim img _ (fun x y => x) (fun x y => Z.of_nat rows - y));
      [done | lia | lia | done | intros x y; by apply flip1_coords | lia].
Qed.

(** The second flip reads the first one back, except at the border. *)
Lemma flip_twice_blackens rows cols dim img axis :
  shaped rows cols dim img ->
  (0 < rows < 2 ^ 15)%nat -> (0 < cols < 2 ^ 15)%nat ->
  all_u8 img ->
  exists out,
    flip_twice img axis = Ok out
    /\ shaped rows cols dim out
    /\ (forall x y : nat, (x < cols)%nat -> (y < rows)%nat ->
          pixel_at out x y
          = if (if axis =? 0 then (x =? 0)%nat else (y =? 0)%nat)
            then Some (replicate dim 0)
            else pixel_at img x y).
Proof.
  intros Hs Hr Hc Hu.
  destruct (flip_pixels rows cols dim img axis Hs Hr Hc Hu) as (out1 & Hrun1 & Hs1 & Hu1 & Hpx1).
  destruct (flip_pixels rows cols dim out1 axis Hs1 Hr Hc Hu1) as (out2 & Hrun2 & Hs2 & _ & Hpx2).
  exists out2. split; [by unfold flip_twice; rewrite Hrun1|]. split; [done|].
  intros x y Hx Hy. rewrite Hpx2 by done.
  destruct (axis =? 0) eqn:Ha.
  - destruct (x =? 0)%nat eqn:Hx0.
    + apply Nat.eqb_eq in Hx0 as ->. f_equal.
      apply (pixel_or_border_outside rows cols dim); [done | lia | lia | lia].
    + apply Nat.eqb_neq in Hx0.
      rewrite <- (pixel_or_border_inside rows cols dim out1) by (done || lia).
      replace (Z.to_nat (Z.of_nat cols - Z.of_nat x)) with (cols - x)%nat by lia.
      rewrite Nat2Z.id, Hpx1 by lia.
      replace (Z.of_nat cols - Z.of_nat (cols - x)) with (Z.of_nat x) by lia.
      rewrite <- (pixel_or_border_inside rows cols dim img) by (done || lia).
      by rewrite !Nat2Z.id.
  - destruct (y =? 0)%nat eqn:Hy0.
    + apply Nat.eqb_eq in Hy0 as ->. f_equal.
      apply (pixel_or_border_outside rows cols dim); [done | lia | lia | lia].
    + apply Nat.eqb_neq in Hy0.
      rewrite <- (pixel_or_border_inside rows cols dim out1) by (done || lia).
      replace (Z.to_nat (Z.of_nat rows - Z.of_nat y)) with (rows - y)%nat by lia.
      rewrite Nat2Z.id, Hpx1 by lia.
      replace (Z.of_nat rows - Z.of_nat (rows - y)) with (Z.of_nat y) by lia.
      rewrite <- (pixel_or_border_inside rows cols dim img) by (done || lia).
      by rewrite !Nat2Z.id.
Qed.

(** Flipping twice gives the image back except for its first column (axis
    0) or first row (any other axis), which has become black. *)
Theorem flip_twice_pixels rows cols dim img axis :
  shaped rows cols dim img ->
  (0 < rows < 2 ^ 15)%nat -> (0 < cols < 2 ^ 15)%nat ->
  all_u8 img ->
  exists out,
    flip_twice img axis = Ok out
    /\ shaped rows cols dim out
    /\ (forall x y : nat, (x < cols)%nat -> (y < rows)%nat ->
          pixel_at out x y
          = if (if axis =? 0 then (x =? 0)%nat else (y =? 0)%nat)
            then Some (replicate dim 0)
            else pixel_at img x y).
Proof. exact (flip_twice_blackens rows cols dim img axis). Qed.

(** [flip] is no involution on any image whose first column holds a pixel
    that is not black. *)
Lemma flip_twice_differs rows cols dim img (y : nat) (p : pixel) :
  shaped rows cols dim img ->
  (0 < rows < 2 ^ 15)%nat -> (0 < cols < 2 ^ 15)%nat ->
  all_u8 img ->
  pixel_at img 0 y = Some p -> p <> replicate dim 0 ->
  flip_twice img 0 <> Ok img.
Proof.
  intros Hs Hr Hc Hu Hp Hblack Hflip.
  destruct (flip_twice_blackens rows cols dim img 0 Hs Hr Hc Hu) as (out & Hrun & _ & Hpx).
  assert (out = img) as -> by congruence.
  assert (y < rows)%nat as Hy.
  { destruct Hs as [<- _]. unfold pixel_at in Hp.
    destruct (_ !! y) eqn:Hrow; [|done]. by eapply lookup_lt_Some. }
  specialize (Hpx 0%nat y ltac:(lia) Hy). cbn in Hpx. congruence.
Qed.

Lemma flip_twice_pixels_witness :
  exists out,
    flip_twice [[[10; 20; 30]; [40; 50; 60]]] 0 = Ok out
    /\ shaped 1 2 3 out
    /\ (forall x y : nat, (x < 2)%nat -> (y < 1)%nat ->
          pixel_at out x y
          = if (if 0 =? 0 then (x =? 0)%nat else (y =? 0)%nat)
            then Some (replicate 3 0)
            else pixel_at [[[10; 20; 30]; [40; 50; 60]]] x y).
Proof.
  apply (flip_twice_pixels 1 2 3 [[[10; 20; 30]; [40; 50; 60]]] 0).
  - apply has_shape_shaped. reflexivity.
  - split; [lia | apply Nat.ltb_lt; vm_compute; reflexivity].
  - split; [lia | apply Nat.ltb_lt; vm_compute; reflexivity].
  - repeat constructor; lia.
Defined.

(** ** Crop *)

Ltac step_randint :=
  match goal with
  | |- context [bind (randint ?lo ?hi) ?k ?g] =>
      let v := fresh "v" in
      let g' := fresh "g" in
      let Hrun := fresh "Hrun" in
      let Hv := fresh "Hv" in
      destruct (randint_ok lo hi g) as (v & g' & Hrun & Hv); [lia|];
      rewrite (bind_ok _ _ _ _ _ Hrun)
  end.

(** Above 100 x 100 the crop returns a 100 x 100 window, whatever is
    drawn. *)
Lemma crop_draws (img : image) (rows cols : nat) :
  has_shape rows cols 3 img = true ->
  (101 <= rows)%nat -> (101 <= cols)%nat ->
  forall g, exists x y out g',
    crop img g = (Ok out, g')
    /\ 0 <= x < Z.of_nat cols - 100 /\ 0 <= y < Z.of_nat rows - 100
    /\ out = slice2 y (y + 100) x (x + 100) img
    /\ has_shape 100 100 3 out = true.
Proof.
  intros Hs%has_shape_shaped Hr Hc g.
  unfold crop. rewrite (shaped_shape _ _ _ _ Hs) by lia.
  do 2 step_randint.
  exists v, v0. eexists _, _. split; [reflexivity|].
  repeat split; try lia.
  apply has_shape_shaped.
  replace 100%nat with (Z.to_nat (v0 + 100 - v0)) at 1 by lia.
  replace 100%nat with (Z.to_nat (v + 100 - v)) at 1 by lia.
  eapply shaped_slice2; [exact Hs | lia..].
Qed.

(** C4 (amended). For every input image with height >= 101 and width >=
    101, the crop transform succeeds for every possible random choice of
    origin and returns an image of shape exactly 100 x 100 x 3: the window
    of the input that starts at the drawn origin [(x, y)], with
    [0 <= x < width - 100] and [0 <= y < height - 100]. *)
Theorem crop_shape (img : image) (rows cols : nat) :
  has_shape rows cols 3 img = true ->
  (101 <= rows)%nat -> (101 <= cols)%nat ->
  forall g, exists x y out g',
    crop img g = (Ok out, g')
    /\ 0 <= x < Z.of_nat cols - 100 /\ 0 <= y < Z.of_nat rows - 100
    /\ out = slice2 y (y + 100) x (x + 100) img
    /\ has_shape 100 100 3 out = true.
Proof. exact (crop_draws img rows cols). Qed.

Lemma crop_shape_witness :
  exists x y out g',
    crop (blank 101 101) rng0 = (Ok out, g')
    /\ 0 <= x < Z.of_nat 101 - 100 /\ 0 <= y < Z.of_nat 101 - 100
    /\ out = slice2 y (y + 100) x (x + 100) (blank 101 101)
    /\ has_shape 100 100 3 out = true.
Proof.
  apply (crop_shape (blank 101 101) 101 101); [vm_compute; reflexivity | lia | lia].
Defined.

(** C4 (as stated, refuted). On a 100 x 100 x 3 image the crop transform
    raises for every state of the generator: the origin is drawn by
    [np.random.randint(0, 0)], whose range is empty. *)
Lemma crop_100x100_raises :
  has_shape 100 100 3 (blank 100 100) = true
  /\ forall g, crop (blank 100 100) g = (Raise ValueError, g).
Proof.
  split; [vm_compute; reflexivity|].
  intros g. unfold crop.
  replace (shape (blank 100 100)) with (100%nat, 100%nat, 3%nat) by (vm_compute; reflexivity).
  assert (randint 0 (Z.of_nat 100 - 100) g = (Raise ValueError, g)) as Hdraw
    by (apply randint_empty; lia).
  rewrite (bind_raise _ _ _ _ _ Hdraw). reflexivity.
Qed.

(** ** The five warps *)

Lemma fixed_window_shaped rows cols warped :
  shaped rows cols 3 warped -> (150 <= rows)%nat -> (150 <= cols)%nat ->
  has_shape 100 100 3 (slice2 50 150 50 150 warped) = true.
Proof.
  intros Hs Hr Hc. apply has_shape_shaped.
  change 100%nat with (Z.to_nat (150 - 50)).
  eapply shaped_slice2; [exact Hs | lia..].
Qed.

Lemma windowed_perspective img rows cols (draw : Rand mat3) :
  shaped rows cols 3 img -> (150 <= rows)%nat -> (150 <= cols)%nat ->
  (forall g, exists m g', draw g = (Ok m, g')) ->
  windowed img rows cols
    (m <- draw ;;
     warped <- lift_result (warpPerspective img m (cols, rows)) ;;
     ret (fixed_window warped)).
Proof.
  intros Hs Hr Hc Hdraw g.
  destruct (Hdraw g) as (m & g' & Hm).
  destruct (warpPerspective_shaped rows cols 3 img m cols rows Hs) as (warped & Hw & Hsw);
    [lia | lia |].
  exists warped. eexists _, g'. split; [|split; [|split]].
  - rewrite (bind_ok _ _ _ _ _ Hm). unfold lift_result, bind, ret. rewrite Hw. reflexivity.
  - left. by exists m.
  - reflexivity.
  - by apply (fixed_window_shaped rows cols).
Qed.

Lemma windowed_affine img rows cols (draw : Rand mat23) :
  shaped rows cols 3 img -> (150 <= rows)%nat -> (150 <= cols)%nat ->
  (forall g, exists m g', draw g = (Ok m, g')) ->
  windowed img rows cols
    (m <- draw ;;
     warped <- lift_result (warpAffine img m (cols, rows)) ;;
     ret (fixed_window warped)).
Proof.
  intros Hs Hr Hc Hdraw g.
  destruct (Hdraw g) as (m & g' & Hm).
  destruct (warpAffine_shaped rows cols 3 img m cols rows Hs) as (warped & Hw & Hsw);
    [lia | lia |].
  exists warped. eexists _, g'. split; [|split; [|split]].
  - rewrite (bind_ok _ _ _ _ _ Hm). unfold lift_result, bind, ret. rewrite Hw. reflexivity.
  - right. by exists m.
  - reflexivity.
  - by apply (fixed_window_shaped rows cols).
Qed.

Lemma ret_draws {A} (a : A) : forall g : rng, exists m g', ret a g = (Ok m, g').
Proof. intros g. by exists a, g. Qed.

Lemma shear_matrix_draws `{CvKernels} axis g :
  exists m g', shear_matrix axis g = (Ok m, g').
Proof.
  unfold shear_matrix. destruct (axis =? 0); cbv [uniform bind next_raw ret]; eauto.
Qed.

Ltac finish_affine Hs Hr Hc :=
  match goal with
  | |- context [warpAffine ?img ?m (?cols, ?rows)] =>
      match goal with
      | |- context [bind _ _ ?g] =>
          let Hw := fresh "Hw" in
          pose proof (windowed_affine img rows cols (ret m) Hs Hr Hc (ret_draws m) g) as Hw;
          cbv [bind ret] in Hw |- *; exact Hw
      end
  end.

Ltac finish_perspective Hs Hr Hc :=
  match goal with
  | |- context [warpPerspective ?img ?m (?cols, ?rows)] =>
      match goal with
      | |- context [bind _ _ ?g] =>
          let Hw := fresh "Hw" in
          pose proof (windowed_perspective img rows cols (ret m) Hs Hr Hc (ret_draws m) g) as Hw;
          cbv [bind ret] in Hw |- *; exact Hw
      end
  end.

(** C5. For every input image with height >= 150 and width >= 150, each of
    the rotate, translation, shear (along either axis), skew and
    distortion transforms returns, for every possible random draw, an
    image of shape exactly 100 x 100 x 3: the fixed window [50:150,
    50:150] of the geometric warp of the input. *)
Theorem warps_return_100x100x3 `{CvKernels} (img : image) (rows cols : nat) :
  has_shape rows cols 3 img = true ->
  (150 <= rows)%nat -> (150 <= cols)%nat ->
  windowed img rows cols (rotate img)
  /\ windowed img rows cols (translation img)
  /\ (forall axis, windowed img rows cols (shear img axis))
  /\ windowed img rows cols (skew img)
  /\ windowed img rows cols (distortion img).
Proof.
  intros Hs%has_shape_shaped Hr Hc.
  assert (shape img = (rows, cols, 3%nat)) as Hshape by (apply shaped_shape; [done | lia..]).
  repeat split.
  - intros g. unfold rotate. rewrite Hshape.
    step_randint. finish_affine Hs Hr Hc.
  - unfold translation. rewrite Hshape.
    apply windowed_perspective; [done..|].
    intros g. destruct (translation_matrix_draws g) as (tx & ty & g' & Hm & _). eauto.
  - intros axis. unfold shear. rewrite Hshape.
    apply windowed_perspective; [done..|]. apply shear_matrix_draws.
  - intros g. unfold skew. rewrite Hshape. cbv zeta.
    do 6 step_randint. finish_affine Hs Hr Hc.
  - intros g. unfold distortion. rewrite Hshape. cbv zeta.
    do 8 step_randint. finish_perspective Hs Hr Hc.
Qed.

Lemma warps_return_100x100x3_witness :
  windowed (blank 150 150) 150 150 (@rotate example_kernels (blank 150 150))
  /\ windowed (blank 150 150) 150 150 (translation (blank 150 150))
  /\ (forall axis, windowed (blank 150 150) 150 150
                      (@shear example_kernels (blank 150 150) axis))
  /\ windowed (blank 150 150) 150 150 (skew (blank 150 150))
  /\ windowed (blank 150 150) 150 150 (@distortion example_kernels (blank 150 150)).
Proof.
  apply (@warps_return_100x100x3 example_kernels (blank 150 150) 150 150);
    [vm_compute; reflexivity | lia | lia].
Defined.

(** ** Sorting by the integer key *)

Lemma with_keys_ok `{PyText} names :
  Forall (fun n => exists k, sort_key n = Ok k) names ->
  exists l, with_keys names = Ok l.
Proof.
  induction 1 as [|n names [k Hk] _ [l IH]]; cbn; [by eexists|].
  rewrite Hk, IH. by eexists.
Qed.

Lemma with_keys_spec `{PyText} names l :
  with_keys names = Ok l ->
  map snd l = names /\ Forall (fun kn => sort_key (snd kn) = Ok (fst kn)) l.
Proof.
  revert l. induction names as [|n names IH]; intros l; cbn.
  - intros [= <-]. by split.
  - destruct (sort_key n) as [k|] eqn:Hk; [|done].
    destruct (with_keys names) as [l'|]; [|done].
    intros [= <-]. destruct (IH l' eq_refl) as [Hsnd Hall].
    split; cbn; [by rewrite Hsnd | by constructor].
Qed.

Lemma with_keys_raises `{PyText} names e :
  with_keys names = Raise e ->
  exists n, n ∈ names /\ sort_key n = Raise e.
Proof.
  induction names as [|n names IH]; cbn; [done|].
  destruct (sort_key n) as [k|e'] eqn:Hk.
  - destruct (with_keys names) as [l'|e']; [done|].
    intros [= <-]. destruct (IH eq_refl) as (n' & Hin & Hn').
    exists n'. split; [by right | done].
  - intros [= <-]. exists n. split; [by left | done].
Qed.

Lemma insert_by_key_perm x l : insert_by_key x l ≡ₚ x :: l.
Proof.
  induction l as [|y l IH]; cbn; [done|].
  destruct (fst x <=? fst y); [done|].
  rewrite IH. apply Permutation_swap.
Qed.

Lemma insert_by_key_sorted x l :
  StronglySorted (fun a b : Z * string => fst a <= fst b) l ->
  StronglySorted (fun a b : Z * string => fst a <= fst b) (insert_by_key x l).
Proof.
  induction l as [|y l IH]; cbn; intros Hl.
  - repeat constructor.
  - apply StronglySorted_cons in Hl as [Hy Hl].
    destruct (fst x <=? fst y) eqn:Hxy.
    + apply Z.leb_le in Hxy. apply StronglySorted_cons. split.
      * constructor; [done|]. eapply Forall_impl; [exact Hy|]. cbn. lia.
      * by apply StronglySorted_cons.
    + apply Z.leb_gt in Hxy. apply StronglySorted_cons. split; [|by apply IH].
      rewrite insert_by_key_perm. constructor; [lia | done].
Qed.

Lemma foldr_insert_perm l : foldr insert_by_key [] l ≡ₚ l.
Proof.
  induction l as [|x l IH]; cbn; [done|]. by rewrite insert_by_key_perm, IH.
Qed.

Lemma foldr_insert_sorted l :
  StronglySorted (fun a b : Z * string => fst a <= fst b) (foldr insert_by_key [] l).
Proof.
  induction l as [|x l IH]; cbn; [constructor | by apply insert_by_key_sorted].
Qed.

Lemma sorted_keys_names `{PyText} (l : list (Z * string)) :
  Forall (fun kn => sort_key (snd kn) = Ok (fst kn)) l ->
  StronglySorted (fun a b : Z * string => fst a <= fst b) l ->
  StronglySorted key_le (map snd l).
Proof.
  induction l as [|a l IH]; cbn; intros Hk Hs; [constructor|].
  apply Forall_cons in Hk as [Ha Hk].
  apply StronglySorted_cons in Hs as [Hal Hs].
  apply StronglySorted_cons. split; [|by apply IH].
  apply Forall_fmap, Forall_forall. intros b Hb. cbn.
  unfold key_le. rewrite Ha, (proj1 (Forall_forall _ _) Hk b Hb).
  exact (proj1 (Forall_forall _ _) Hal b Hb).
Qed.

(** [sorted] succeeds when every key is an integer; its result is the
    input rearranged so that the keys ascend. *)
Lemma sorted_by_key_spec `{PyText} names :
  Forall (fun n => exists k, sort_key n = Ok k) names ->
  exists images,
    sorted_by_key names = Ok images
    /\ images ≡ₚ names
    /\ StronglySorted key_le images.
Proof.
  intros Hkeys. destruct (with_keys_ok names Hkeys) as [l Hl].
  destruct (with_keys_spec names l Hl) as [Hsnd Hall].
  exists (map snd (foldr insert_by_key [] l)).
  unfold sorted_by_key. rewrite Hl. split; [done|]. split.
  - rewrite <- Hsnd. apply fmap_Permutation, foldr_insert_perm.
  - apply sorted_keys_names; [|apply foldr_insert_sorted].
    rewrite foldr_insert_perm. exact Hall.
Qed.

(** ** The file system of the split *)

Lemma read_file_some name (files : listing) :
  name ∈ map fst files -> is_Some (read_file name files).
Proof.
  induction files as [|[n c] files IH]; cbn; [by intros ?%elem_of_nil|].
  intros Hin. destruct (String.eqb n name) eqn:Hn; [by eexists|].
  apply elem_of_cons in Hin as [->|Hin]; [|by apply IH].
  by rewrite String.eqb_refl in Hn.
Qed.

Lemma read_write_file name content (files : listing) n :
  read_file n (write_file name content files)
  = if decide (n = name) then Some content else read_file n files.
Proof.
  induction files as [|[m c] files IH]; cbn.
  - destruct (String.eqb name n) eqn:Hn.
    + apply String.eqb_eq in Hn as ->. by rewrite decide_True.
    + apply String.eqb_neq in Hn. by rewrite decide_False.
  - destruct (String.eqb m name) eqn:Hm; cbn.
    + apply String.eqb_eq in Hm as ->.
      destruct (String.eqb name n) eqn:Hn.
      * apply String.eqb_eq in Hn as ->. by rewrite decide_True.
      * apply String.eqb_neq in Hn. by rewrite decide_False.
    + apply String.eqb_neq in Hm.
      destruct (String.eqb m n) eqn:Hn.
      * apply String.eqb_eq in Hn as ->. by rewrite decide_False.
      * exact IH.
Qed.

Lemma mkdir_run d w :
  exists w', mkdir d w = (Ok tt, w')
    /\ s_copies w' = s_copies w
    /\ is_Some (s_fs w' !! d)
    /\ (forall k, k <> d -> s_fs w' !! k = s_fs w !! k).
Proof.
  unfold mkdir. destruct (s_fs w !! d) as [files|] eqn:Hd.
  - exists w. by rewrite Hd.
  - eexists. split; [reflexivity|]. cbn. split; [done|]. split.
    + rewrite lookup_insert_eq. by eexists.
    + intros k Hk. by rewrite lookup_insert_ne.
Qed.

Lemma copy_all_run sub root names (files old : listing) w :
  root <> input_dir ->
  s_fs w !! (input_dir, sub) = Some files ->
  s_fs w !! (root, sub) = Some old ->
  Forall (fun n => n ∈ map fst files) names ->
  exists w' new,
    copy_all sub root names w = (Ok tt, w')
    /\ s_copies w' = s_copies w ++ copies_into root sub names
    /\ s_fs w' !! (root, sub) = Some new
    /\ (forall k, k <> (root, sub) -> s_fs w' !! k = s_fs w !! k)
    /\ (forall n, read_file n new
                  = if decide (n ∈ names) then read_file n files else read_file n old).
Proof.
  intros Hroot. unfold copy_all.
  revert w old. induction names as [|n names IH]; intros w old Hsrc Hdst Hnames.
  - exists w, old. cbn. rewrite app_nil_r. repeat split; done.
  - apply Forall_cons in Hnames as [Hn Hnames].
    destruct (read_file_some _ _ Hn) as [content Hcontent].
    set (w1 := {| s_fs := <[(root, sub) := write_file n content old]> (s_fs w);
                  s_copies := s_copies w ++ [((input_dir, sub, n), (root, sub, n))] |}).
    assert (shutil_copy (input_dir, sub, n) (root, sub, n) w = (Ok tt, w1)) as Hcopy.
    { unfold shutil_copy. rewrite Hsrc, Hdst. cbn. by rewrite Hcontent. }
    assert ((root, sub) <> (input_dir, sub)) as Hne by congruence.
    destruct (IH w1 (write_file n content old)) as (w' & new & Hrun & Hlog & Hnew & Hframe & Hread).
    { cbn. by rewrite lookup_insert_ne. }
    { cbn. by rewrite lookup_insert_eq. }
    { done. }
    exists w', new. split; [|split; [|split; [|split]]].
    + cbn [for_each]. rewrite (bind_ok _ _ _ _ _ Hcopy). exact Hrun.
    + rewrite Hlog. cbn. by rewrite <- app_assoc.
    + done.
    + intros k Hk. rewrite Hframe by done. cbn. by rewrite lookup_insert_ne.
    + intros m. rewrite Hread, read_write_file.
      destruct (decide (m ∈ names)) as [Hm|Hm].
      * rewrite decide_True; [done | by right].
      * destruct (decide (m = n)) as [->|Hmn].
        -- rewrite decide_True; [done | by left].
        -- rewrite decide_False; [done|]. by intros [?|?]%elem_of_cons.
Qed.


(** What the loop body does for a class directory whose matched files all
    carry an integer key. *)
Lemma split_subdir_run `{PyText} (w : split_world) (name : string) (files : listing) :
  s_fs w !! (input_dir, name) = Some files ->
  Forall (fun n => exists k, sort_key n = Ok k) (glob_images files) ->
  exists images w' valid train,
    split_subdir name w = (Ok tt, w')
    /\ sorted_by_key (glob_images files) = Ok images
    /\ images ≡ₚ glob_images files
    /\ StronglySorted key_le images
    /\ s_copies w' = s_copies w
                     ++ copies_into output_train_dir name (drop 25 images)
                     ++ copies_into output_valid_dir name (take 25 images)
    /\ s_fs w' !! (output_valid_dir, name) = Some valid
    /\ s_fs w' !! (output_train_dir, name) = Some train
    /\ (forall n, n ∈ take 25 images ->
                  is_Some (read_file n files) /\ read_file n valid = read_file n files)
    /\ (forall n, n ∈ drop 25 images ->
                  is_Some (read_file n files) /\ read_file n train = read_file n files)
    /\ (forall c, s_fs w' !! (input_dir, c) = s_fs w !! (input_dir, c)).
Proof.
  intros Hsrc Hkeys.
  destruct (sorted_by_key_spec _ Hkeys) as (images & Hsorted & Hperm & Hord).
  assert (Forall (fun n => n ∈ map fst files) images) as Hin.
  { apply Forall_forall. intros n Hn. rewrite Hperm in Hn.
    unfold glob_images in Hn. by apply list_elem_of_filter in Hn as [_ Hn]. }
  destruct (mkdir_run (output_train_dir, name) w) as (w1 & Hrun1 & Hlog1 & [t0 Ht0] & Hfr1).
  destruct (mkdir_run (output_valid_dir, name) w1) as (w2 & Hrun2 & Hlog2 & [v0 Hv0] & Hfr2).
  assert (s_fs w2 !! (input_dir, name) = Some files) as Hsrc2.
  { rewrite Hfr2, Hfr1 by (unfold input_dir, output_train_dir, output_valid_dir; congruence).
    done. }
  assert (s_fs w2 !! (output_train_dir, name) = Some t0) as Ht2.
  { rewrite Hfr2 by (unfold output_train_dir, output_valid_dir; congruence). done. }
  destruct (copy_all_run name output_train_dir (drop 25 images) files t0 w2)
    as (w3 & train & Hrun3 & Hlog3 & Htrain & Hfr3 & Hread3);
    [done | done | done | by apply Forall_drop |].
  assert (s_fs w3 !! (output_valid_dir, name) = Some v0) as Hv3.
  { rewrite Hfr3 by (unfold output_train_dir, output_valid_dir; congruence). done. }
  destruct (copy_all_run name output_valid_dir (take 25 images) files v0 w3)
    as (w4 & valid & Hrun4 & Hlog4 & Hvalid & Hfr4 & Hread4);
    [done | by rewrite Hfr3 by (unfold input_dir, output_train_dir; congruence)
     | done | by apply Forall_take |].
  exists images, w4, valid, train.
  split; [|split; [done|split; [done|split; [done|split; [|split; [done|split; [|split; [|split]]]]]]]].
  - unfold split_subdir. rewrite Hsrc.
    rewrite (bind_ok _ _ _ _ _ Hrun1), (bind_ok _ _ _ _ _ Hrun2).
    unfold lift_result at 1. unfold bind at 1. rewrite Hsorted.
    rewrite (bind_ok _ _ _ _ _ Hrun3). exact Hrun4.
  - rewrite Hlog4, Hlog3, Hlog2, Hlog1. by rewrite <- app_assoc.
  - rewrite Hfr4 by (unfold output_train_dir, output_valid_dir; congruence). done.
  - intros n Hn. rewrite Hread4, decide_True by done. split; [|done].
    apply read_file_some. apply (proj1 (Forall_forall _ _) Hin).
    by eapply subseteq_take.
  - intros n Hn.
    assert (read_file n train = read_file n files) as Hr
      by (rewrite Hread3, decide_True; done).
    split; [|done].
    apply read_file_some. apply (proj1 (Forall_forall _ _) Hin).
    by eapply subseteq_drop.
  - intros c.
    rewrite Hfr4, Hfr3, Hfr2, Hfr1
      by (unfold input_dir, output_train_dir, output_valid_dir; congruence).
    done.
Qed.

(** ** The glob pattern *)

Lemma fnmatch_star_eq pat s :
  fnmatch (String "*" pat) s
  = fnmatch pat s
    || match s with
       | EmptyString => false
       | String _ s' => fnmatch (String "*" pat) s'
       end.
Proof. destruct s; reflexivity. Qed.

Lemma string_app_nil s : EmptyString +:+ s = s.
Proof. reflexivity. Qed.

Lemma string_app_cons a s t : String a s +:+ t = String a (s +:+ t).
Proof. reflexivity. Qed.

Lemma fnmatch_star pat s :
  fnmatch (String "*" pat) s = true
  <-> exists mid rest, s = mid +:+ rest /\ fnmatch pat rest = true.
Proof.
  induction s as [|a s IH]; rewrite fnmatch_star_eq.
  - rewrite orb_false_r. split.
    + intros Hm. by exists EmptyString, EmptyString.
    + intros (mid & rest & Heq & Hm). destruct mid.
      * rewrite string_app_nil in Heq. by subst.
      * rewrite string_app_cons in Heq. discriminate.
  - rewrite orb_true_iff, IH. split.
    + intros [Hm | (mid & rest & -> & Hm)].
      * by exists EmptyString, (String a s).
      * by exists (String a mid), rest.
    + intros (mid & rest & Heq & Hm). destruct mid as [|b mid].
      * left. rewrite string_app_nil in Heq. by subst.
      * right. rewrite string_app_cons in Heq. injection Heq as -> ->. by exists mid, rest.
Qed.

Lemma fnmatch_char c pat s :
  Ascii.eqb c "*" = false ->
  fnmatch (String c pat) s = true
  <-> exists s', s = String c s' /\ fnmatch pat s' = true.
Proof.
  intros Hc. cbn [fnmatch]. rewrite Hc. destruct s as [|d s].
  - split; [done | by intros (? & ? & _)].
  - rewrite andb_true_iff, Ascii.eqb_eq. split.
    + intros [-> Hm]. by exists s.
    + intros (s' & [= -> ->] & Hm). done.
Qed.

Lemma fnmatch_end s : fnmatch EmptyString s = true <-> s = EmptyString.
Proof. destruct s; cbn; split; done. Qed.

(** The names the pattern "image (*).JPG" matches. *)
Lemma fnmatch_image name :
  fnmatch "image (*).JPG" name = true
  <-> exists mid, name = "image (" +:+ mid +:+ ").JPG".
Proof.
  split.
  - intros Hm.
    do 7 (apply fnmatch_char in Hm as (? & -> & Hm); [|reflexivity]).
    apply fnmatch_star in Hm as (mid & rest & -> & Hm).
    do 5 (apply fnmatch_char in Hm as (? & -> & Hm); [|reflexivity]).
    apply fnmatch_end in Hm as ->. by exists mid.
  - intros [mid ->]. rewrite !string_app_cons, string_app_nil.
    do 7 (apply fnmatch_char; [reflexivity|]; eexists; split; [reflexivity|]).
    apply fnmatch_star. exists mid, ").JPG". done.
Qed.

Lemma glob_images_spec (files : listing) n :
  n ∈ glob_images files
  <-> n ∈ map fst files /\ exists mid, n = "image (" +:+ mid +:+ ").JPG".
Proof.
  unfold glob_images. rewrite list_elem_of_filter, Is_true_true, fnmatch_image. tauto.
Qed.

Lemma has_key_all `{PyText} names :
  forallb has_key names = true ->
  Forall (fun n => exists k, sort_key n = Ok k) names.
Proof.
  induction names as [|n names IH]; cbn; [constructor|].
  intros [Hn Hrest]%andb_true_iff. constructor; [|by apply IH].
  unfold has_key in Hn. destruct (sort_key n) as [k|]; [by exists k | done].
Qed.

(** ** The split *)







(** C6 (as stated, refuted). A class directory that holds 26 images, the
    flipped images "image (1)_Flip.JPG" to "image (26)_Flip.JPG" as the
    augmentation names them: the script creates the two output
    directories and copies none of the 26, neither to validation nor to
    training. *)
Lemma split_copies_no_augmented_image :
  length (map (fun i => (flipped_name i, "jpeg")) (seq 1 26)) = 26%nat
  /\ fst (split_subdir (text := example_text) "Apple" (flipped_world 26)) = Ok tt
  /\ s_copies (snd (split_subdir (text := example_text) "Apple" (flipped_world 26))) = []
  /\ s_fs (snd (split_subdir (text := example_text) "Apple" (flipped_world 26)))
       !! (output_valid_dir, "Apple") = Some []
  /\ s_fs (snd (split_subdir (text := example_text) "Apple" (flipped_world 26)))
       !! (output_train_dir, "Apple") = Some [].
Proof. vm_compute. done. Qed.

(** The boundary sizes, run: 0, 24, 25 and 26 images give 0, 24, 25 and
    25 validation copies and 0, 0, 0 and 1 training copies. *)
Example split_boundary_sizes :
  map (fun n =>
         let log := s_copies (snd (split_subdir (text := example_text) "Apple"
                                     (apple_world n))) in
         (length (filter (fun c => fst (fst (snd c)) = output_valid_dir) log),
          length (filter (fun c => fst (fst (snd c)) = output_train_dir) log)))
      [0; 24; 25; 26]%nat
  = [(0, 0); (24, 0); (25, 0); (25, 1)]%nat.
Proof. vm_compute. reflexivity. Qed.

Lemma copied_names_into root sub names : copied_names (copies_into root sub names) = names.
Proof.
  unfold copied_names, copies_into. rewrite <- list_fmap_compose.
  induction names as [|n names IH]; cbn; [done | by rewrite IH].
Qed.

Lemma split_subdir_bad_key `{PyText} (w : split_world) (name : string) (files : listing) :
  s_fs w !! (input_dir, name) = Some files ->
  forallb has_key (glob_images files) = false ->
  exists e w', split_subdir name w = (Raise e, w') /\ s_copies w' = s_copies w.
Proof.
  intros Hsrc Hbad.
  destruct (with_keys (glob_images files)) as [l|e] eqn:Hkeys.
  { apply with_keys_spec in Hkeys as [Hsnd Hall].
    assert (forallb has_key (glob_images files) = true) as Hgood; [|congruence].
    rewrite <- Hsnd. clear -Hall. induction Hall as [|[k n] l Hk _ IH]; cbn; [done|].
    cbn in Hk. unfold has_key at 1. by rewrite Hk. }
  destruct (mkdir_run (output_train_dir, name) w) as (w1 & Hrun1 & Hlog1 & _ & _).
  destruct (mkdir_run (output_valid_dir, name) w1) as (w2 & Hrun2 & Hlog2 & _ & _).
  exists e, w2. split; [|congruence].
  unfold split_subdir. rewrite Hsrc.
  rewrite (bind_ok _ _ _ _ _ Hrun1), (bind_ok _ _ _ _ _ Hrun2).
  unfold lift_result, bind, sorted_by_key. by rewrite Hkeys.
Qed.

(** C10 (amended). For a class directory, the split script selects
    exactly the files whose names match the glob "image (*).JPG": the name
    starts with "image (" and ends with ").JPG", whatever stands between.
    When the sort key of every selected file is an integer, the selected
    files are ordered by that key numerically and each is copied to
    exactly one output, the first 25 to validation and the rest to
    training; no other file of the directory is copied to either output.
    When some selected file has no integer key, sorting raises and
    nothing is copied for the class. *)
Theorem split_selects_glob_matches `{PyText}
    (w : split_world) (name : string) (files : listing) :
  s_fs w !! (input_dir, name) = Some files ->
  if forallb has_key (glob_images files)
  then
    exists images w',
      split_subdir name w = (Ok tt, w')
      /\ (forall n, n ∈ images
                    <-> n ∈ map fst files
                        /\ exists mid, n = "image (" +:+ mid +:+ ").JPG")
      /\ StronglySorted key_le images
      /\ s_copies w' = s_copies w
                       ++ copies_into output_train_dir name (drop 25 images)
                       ++ copies_into output_valid_dir name (take 25 images)
      /\ (forall n, n ∈ copied_names (s_copies w')
                    <-> n ∈ copied_names (s_copies w) \/ n ∈ images)
  else
    exists e w', split_subdir name w = (Raise e, w') /\ s_copies w' = s_copies w.
Proof.
  intros Hsrc. destruct (forallb has_key (glob_images files)) eqn:Hkeys;
    [|by apply (split_subdir_bad_key w name files)].
  destruct (split_subdir_run w name files Hsrc (has_key_all _ Hkeys))
    as (images & w' & valid & train & Hrun & _ & Hperm & Hord & Hlog & _).
  exists images, w'. split; [done|]. split; [|split; [done|split; [done|]]].
  - intros n. by rewrite Hperm, glob_images_spec.
  - intros n. rewrite Hlog. unfold copied_names at 1.
    rewrite !fmap_app, !elem_of_app.
    change (n ∈ copied_names (s_copies w)
            \/ n ∈ copied_names (copies_into output_train_dir name (drop 25 images))
            \/ n ∈ copied_names (copies_into output_valid_dir name (take 25 images))
            <-> n ∈ copied_names (s_copies w) \/ n ∈ images).
    rewrite !copied_names_into.
    rewrite <- (take_drop 25 images) at 3. rewrite elem_of_app. tauto.
Qed.

Lemma split_selects_glob_matches_witness :
  exists images w',
    split_subdir (text := example_text) "Apple" (apple_world 3) = (Ok tt, w')
    /\ (forall n, n ∈ images
                  <-> n ∈ map fst (map (fun i => (image_name i, "jpeg")) (reverse (seq 1 3)))
                      /\ exists mid, n = "image (" +:+ mid +:+ ").JPG")
    /\ StronglySorted (key_le (text := example_text)) images
    /\ s_copies w' = s_copies (apple_world 3)
                     ++ copies_into output_train_dir "Apple" (drop 25 images)
                     ++ copies_into output_valid_dir "Apple" (take 25 images)
    /\ (forall n, n ∈ copied_names (s_copies w')
                  <-> n ∈ copied_names (s_copies (apple_world 3)) \/ n ∈ images).
Proof.
  apply (split_selects_glob_matches (H := example_text) (apple_world 3) "Apple"
           (map (fun i => (image_name i, "jpeg")) (reverse (seq 1 3)))).
  vm_compute. reflexivity.
Defined.

(** C10 (as stated, refuted). The file "image (7 x).JPG" is not of the
    form [image (N).JPG] with an integer [N], yet the script selects it,
    with key 7, and copies it to validation. *)
Lemma split_copies_unindexed_name :
  ~ is_indexed_name (text := example_text) "image (7 x).JPG"
  /\ sort_key (text := example_text) "image (7 x).JPG" = Ok 7
  /\ s_copies (snd (split_subdir (text := example_text) "Apple"
                      {| s_fs := {[ (input_dir, "Apple") := [("image (7 x).JPG", "jpeg")] ]};
                         s_copies := [] |}))
     = [((input_dir, "Apple", "image (7 x).JPG"),
         (output_valid_dir, "Apple", "image (7 x).JPG"))].
Proof.
  split; [|split; vm_compute; reflexivity].
  intros (mid & n & Hname & Hint).
  rewrite !string_app_cons, string_app_nil in Hname.
  injection Hname as Hname.
  assert (mid = "7 x") as ->.
  { repeat (destruct mid as [|? mid];
            [rewrite ?string_app_nil in Hname; try discriminate; try reflexivity
            | rewrite string_app_cons in Hname; try discriminate;
              injection Hname as <- Hname]). }
  vm_compute in Hint. discriminate.
Qed.

(** The order is numeric: [image (10).JPG] sorts after [image (2).JPG],
    which the order of the names as strings would put last. *)
Example sorted_by_key_is_numeric :
  sorted_by_key (text := example_text) ["image (10).JPG"; "image (2).JPG"] = Ok ["image (2).JPG"; "image (10).JPG"]
  /\ String.leb "image (10).JPG" "image (2).JPG" = true.
Proof. vm_compute. done. Qed.

(** ** The balancing driver *)

Lemma keeps_bind {A B} (I : world -> Prop) (m : Drv A) (k : A -> Drv B) :
  keeps I m -> (forall a, keeps I (k a)) -> keeps I (bind m k).
Proof.
  intros Hm Hk w r w' HI. unfold bind.
  destruct (m w) as [[a|e] w1] eqn:Hrun.
  - intros Hrun'. exact (Hk a w1 r w' (Hm _ _ _ HI Hrun) Hrun').
  - intros [= <- <-]. exact (Hm _ _ _ HI Hrun).
Qed.

Lemma keeps_ret {A} (I : world -> Prop) (a : A) : keeps I (ret a).
Proof. intros w r w' HI [= <- <-]. done. Qed.

Lemma keeps_for_each {A} (I : world -> Prop) (l : list A) (body : A -> Drv unit) :
  (forall x, x ∈ l -> keeps I (body x)) -> keeps I (for_each l body).
Proof.
  induction l as [|x l IH]; intros Hbody; cbn [for_each].
  - apply keeps_ret.
  - apply keeps_bind; [apply Hbody; by left|].
    intros _. apply IH. intros y Hy. apply Hbody. by right.
Qed.




Lemma present_insert store d name files f :
  store !! d = Some files ->
  present store f -> present (<[d := {[name]} ∪ files]> store) f.
Proof.
  intros Hd (fs & Hfs & Hin). unfold present.
  destruct (decide (d = py_stem (f_dir f))) as [->|Hne].
  - rewrite lookup_insert_eq. eexists. split; [done|].
    rewrite Hd in Hfs. injection Hfs as ->. by apply elem_of_union_r.
  - rewrite lookup_insert_ne by done. by exists fs.
Qed.

Lemma present_makedirs store d f :
  store !! d = None -> present store f -> present (<[d := ∅]> store) f.
Proof.
  intros Hd (fs & Hfs & Hin). unfold present.
  rewrite lookup_insert_ne; [by exists fs | congruence].
Qed.

(** [augment] in a directory that exists: the count of the debug message
    passes and the transform runs. *)
Lemma augment_counts `{CvKernels} image d target t w files :
  w_store w !! d = Some files ->
  augment image d target t w
  = (aug_img <- lift_rand (call_method t (f_pixels image)) ;;
     aug_img <- lift_result (cv_resize aug_img (256%nat, 256%nat)) ;;
     imsave (Augmented t) d
       (py_stem (f_name image) +:+ "_" +:+ py_title (method_name t) +:+ ".JPG")%string) w.
Proof. intros Hd. unfold augment, bind at 1, count_entries. by rewrite Hd. Qed.

Section Balancing.
Context `{CvKernels}.
Variable target : nat.
Variable srcs : list src_file.


Lemma keeps_lift_result {A} (x : result A) : keeps (balanced target srcs) (lift_result x).
Proof. intros w r w' HI [= <- <-]. exact HI. Qed.






End Balancing.

(** The copy loop never raises; it leaves every file it saw in its class
    directory and writes nothing but copies. *)
Lemma copy_image_run f w :
  exists w', copy_image f w = (Ok tt, w')
    /\ present (w_store w') f
    /\ (forall f', present (w_store w) f' -> present (w_store w') f')
    /\ (Forall is_copy (w_trace w) -> Forall is_copy (w_trace w')).
Proof.
  unfold copy_image, bind, makedirs, imsave.
  destruct (w_store w !! py_stem (f_dir f)) as [files|] eqn:Hd; cbn.
  - rewrite Hd. eexists. split; [reflexivity|]. cbn. split; [|split].
    + unfold present. rewrite lookup_insert_eq. eexists. split; [done|].
      apply elem_of_union_l, elem_of_singleton. done.
    + intros f'. by apply present_insert.
    + intros Ht. apply Forall_app. split; [done|]. by repeat constructor.
  - rewrite lookup_insert_eq. eexists. split; [reflexivity|]. cbn. split; [|split].
    + unfold present. rewrite lookup_insert_eq. eexists. split; [done|].
      apply elem_of_union_l, elem_of_singleton. done.
    + intros f' Hf'. apply present_insert; [by rewrite lookup_insert_eq|].
      by apply present_makedirs.
    + intros Ht. apply Forall_app. split; [done|]. by repeat constructor.
Qed.

Lemma copy_loop_run (l : list src_file) w :
  exists w', for_each l copy_image w = (Ok tt, w')
    /\ Forall (present (w_store w')) l
    /\ (forall f', present (w_store w) f' -> present (w_store w') f')
    /\ (Forall is_copy (w_trace w) -> Forall is_copy (w_trace w')).
Proof.
  revert w. induction l as [|f l IH]; intros w; cbn [for_each].
  - exists w. repeat split; [constructor | done..].
  - destruct (copy_image_run f w) as (w1 & Hrun1 & Hf & Hmono1 & Htr1).
    destruct (IH w1) as (w2 & Hrun2 & Hl & Hmono2 & Htr2).
    exists w2. split; [|split; [|split]].
    + by rewrite (bind_ok _ _ _ _ _ Hrun1).
    + constructor; [by apply Hmono2 | done].
    + intros f' Hf'. by apply Hmono2, Hmono1.
    + intros Ht. by apply Htr2, Htr1.
Qed.



Section Guarded.
Context `{CvKernels}.
Variable target : nat.





End Guarded.



(** C1 (as stated, refuted). [Grape] is a symbolic link to a directory of
    two images and [Apple] a directory of one.  The copy loop does not
    descend into the link, so the target is 1, the size of [Apple]; the
    balancing loop does walk the link and saves both images of [Grape]
    again, which leaves [Grape] with 2 entries, one more than the
    target. *)
Lemma symlinked_class_exceeds_target :
  fst (largest_count (snd (copy_phase linked_class_tree (start rng0 ∅ ∅)))) = Ok 1%nat
  /\ fst (@directory_mode example_kernels linked_class_tree (start rng0 ∅ ∅)) = Ok tt
  /\ count_in (w_store (snd (@directory_mode example_kernels linked_class_tree
                               (start rng0 ∅ ∅)))) "Grape" = 2%nat.
Proof. vm_compute. done. Qed.

(** ** The order of the augmentation steps *)

Lemma bind_ext {S A B} (m : M S A) (k k' : A -> M S B) s :
  (forall a s', k a s' = k' a s') -> bind m k s = bind m k' s.
Proof. intros Hk. unfold bind. destruct (m s) as [[a|e] s1]; [apply Hk | done]. Qed.

Lemma bind_ret_tt {S} (m : M S unit) s : bind m (fun _ => ret tt) s = m s.
Proof. unfold bind, ret. by destruct (m s) as [[[]|e] s1]. Qed.

Section Order.
Context `{CvKernels}.
Variables (target : nat) (image : src_file) (d : string).

(** One guarded block either writes one file, by [augment], or leaves
    augmented_directory as it is; it is passed over only when the
    directory has reached the target. *)
Lemma guarded_augment_step t w :
  (exists ev w',
      guarded_augment image d target t w = (Ok tt, w')
      /\ w_trace w' = w_trace w ++ [ev] /\ ev_kind ev = Augmented t)
  \/ (exists e w', guarded_augment image d target t w = (Raise e, w')
                   /\ w_trace w' = w_trace w)
  \/ (guarded_augment image d target t w = (Ok tt, w)
      /\ exists files, w_store w !! d = Some files /\ (target <= size files)%nat).
Proof.
  destruct (guarded_augment image d target t w) as [r w'] eqn:Hrun.
  revert Hrun. unfold guarded_augment, bind at 1, count_entries.
  destruct (w_store w !! d) as [files|] eqn:Hd; [|intros [= <- <-]; right; left; eauto].
  destruct (size files <? target)%nat eqn:Hlt.
  2:{ apply Nat.ltb_ge in Hlt. intros [= <- <-]. right. right. eauto. }
  rewrite (augment_counts _ _ _ _ _ _ Hd). unfold bind at 1.
  destruct (lift_rand _ w) as [[aug_img|e] w1] eqn:Hdraw.
  2:{ intros [= <- <-]. right. left. exists e, w1. split; [done|].
      revert Hdraw. unfold lift_rand. destruct (call_method _ _ _). by intros [= _ <-]. }
  assert (w_store w1 = w_store w /\ w_trace w1 = w_trace w) as [Hstore Htrace].
  { revert Hdraw. unfold lift_rand. destruct (call_method _ _ _). by intros [= _ <-]. }
  unfold bind at 1, lift_result.
  destruct (cv_resize aug_img _) as [resized|e].
  2:{ intros [= <- <-]. right. left. eauto. }
  unfold imsave. rewrite Hstore, Hd. intros [= <- <-]. left.
  eexists _, _. split; [reflexivity|]. cbn. by rewrite Htrace.
Qed.

Lemma guarded_augment_skips l w files :
  w_store w !! d = Some files -> (target <= size files)%nat ->
  for_each l (guarded_augment image d target) w = (Ok tt, w).
Proof.
  intros Hd Hfull. induction l as [|t l IH]; [done|]. cbn [for_each].
  assert (guarded_augment image d target t w = (Ok tt, w)) as Hskip.
  { unfold guarded_augment, bind, count_entries. rewrite Hd.
    by assert ((size files <? target)%nat = false) as -> by (by apply Nat.ltb_ge). }
  by rewrite (bind_ok _ _ _ _ _ Hskip).
Qed.

Lemma guarded_augments_prefix l w :
  exists k,
    map ev_kind (w_trace (snd (for_each l (guarded_augment image d target) w)))
    = map ev_kind (w_trace w) ++ map Augmented (take k l).
Proof.
  revert w. induction l as [|t l IH]; intros w.
  - exists 0%nat. cbn. by rewrite app_nil_r.
  - cbn [for_each].
    destruct (guarded_augment_step t w)
      as [(ev & w1 & Hrun & Htr & Hk) | [(e & w1 & Hrun & Htr) | (Hrun & files & Hd & Hfull)]].
    + rewrite (bind_ok _ _ _ _ _ Hrun). destruct (IH w1) as [k Hk1].
      exists (S k). rewrite Hk1, Htr, fmap_app. cbn. rewrite Hk. by rewrite <- app_assoc.
    + rewrite (bind_raise _ _ _ _ _ Hrun). exists 0%nat. cbn. by rewrite Htr, app_nil_r.
    + rewrite (bind_ok _ _ _ _ _ Hrun), (guarded_augment_skips l w files Hd Hfull).
      exists 0%nat. cbn. by rewrite app_nil_r.
Qed.

End Order.

Lemma balance_image_for_each `{CvKernels} target image w :
  balance_image target image w
  = (makedirs (py_stem (f_dir image)) ;;;
     imsave Resaved (py_stem (f_dir image)) (f_name image) ;;;
     for_each augment_order (guarded_augment image (py_stem (f_dir image)) target)) w.
Proof.
  unfold balance_image, augment_order. cbn [for_each].
  do 9 (apply bind_ext; intros ? ?).
  symmetry. apply bind_ret_tt.
Qed.

(** For one source image the balancing loop saves the original again and
    then writes, through [augment], for an initial part of the fixed
    order. *)
Theorem balance_image_writes_in_order `{CvKernels} target image w :
  exists k,
    map ev_kind (w_trace (snd (balance_image target image w)))
    = map ev_kind (w_trace w) ++ Resaved :: map Augmented (take k augment_order).
Proof.
  rewrite balance_image_for_each.
  set (d := py_stem (f_dir image)).
  destruct (makedirs d w) as [r1 w1] eqn:Hmk.
  assert (r1 = Ok tt /\ w_trace w1 = w_trace w /\ is_Some (w_store w1 !! d)) as (-> & Htr1 & [files Hd]).
  { revert Hmk. unfold makedirs. destruct (w_store w !! d) eqn:Hd; intros [= <- <-]; cbn.
    - by rewrite Hd.
    - by rewrite lookup_insert_eq. }
  rewrite (bind_ok _ _ _ _ _ Hmk).
  destruct (imsave Resaved d (f_name image) w1) as [r2 w2] eqn:Hsave.
  assert (r2 = Ok tt /\ map ev_kind (w_trace w2) = map ev_kind (w_trace w1) ++ [Resaved])
    as [-> Htr2].
  { revert Hsave. unfold imsave. rewrite Hd. intros [= <- <-]. cbn.
    by rewrite fmap_app. }
  rewrite (bind_ok _ _ _ _ _ Hsave).
  destruct (guarded_augments_prefix target image d augment_order w2) as [k Hk].
  exists k. rewrite Hk, Htr2, Htr1. by rewrite <- app_assoc.
Qed.

(** ** The entry point *)

Lemma no_exit_bind {S A B} (m : M S A) (k : A -> M S B) :
  no_exit m -> (forall a, no_exit (k a)) -> no_exit (bind m k).
Proof.
  intros Hm Hk s c. unfold bind. specialize (Hm s c).
  destruct (m s) as [[a|e] s1]; [apply Hk|]. cbn in *.
  intros [= ->]. by apply Hm.
Qed.

Lemma no_exit_ret {S A} (a : A) : no_exit (ret a : M S A).
Proof. intros s c. done. Qed.

Lemma no_exit_lift_result {S A} (r : result A) :
  ordinary r -> no_exit (lift_result r : M S A).
Proof. intros Hr s c. apply Hr. Qed.

Lemma no_exit_lift_rand {A} (m : Rand A) : no_exit m -> no_exit (lift_rand m).
Proof.
  intros Hm w c. unfold lift_rand. specialize (Hm (w_rng w) c).
  by destruct (m (w_rng w)).
Qed.

Lemma no_exit_for_each {S A} (l : list A) (body : A -> M S unit) :
  (forall x, no_exit (body x)) -> no_exit (for_each l body).
Proof.
  intros Hbody. induction l as [|x l IH]; cbn [for_each]; [apply no_exit_ret|].
  apply no_exit_bind; [apply Hbody | by intros _].
Qed.

Lemma no_exit_randint low high : no_exit (randint low high).
Proof. intros g c. unfold randint. by destruct (low <? high). Qed.

Lemma no_exit_uniform `{CvKernels} low high : no_exit (uniform low high).
Proof. intros g c. done. Qed.

Lemma ordinary_warpPerspective img m dsize : ordinary (warpPerspective img m dsize).
Proof. intros c. unfold warpPerspective. destruct dsize. by destruct (is_empty img). Qed.

Lemma ordinary_warpAffine img m dsize : ordinary (warpAffine img m dsize).
Proof. intros c. unfold warpAffine. destruct dsize. by destruct (is_empty img). Qed.

Lemma ordinary_flip img axis : ordinary (flip img axis).
Proof. unfold flip. destruct (shape img) as [[rows cols] dim]. apply ordinary_warpPerspective. Qed.

Lemma ordinary_blur img : ordinary (blur img).
Proof.
  intros c. unfold blur. destruct (shape img) as [[rows cols] dim].
  by destruct (is_empty img).
Qed.

Lemma ordinary_cv_resize `{CvKernels} img dsize : ordinary (cv_resize img dsize).
Proof. intros c. unfold cv_resize. destruct dsize. by destruct (is_empty img). Qed.

Ltac no_exit_steps :=
  repeat first
    [ apply no_exit_ret
    | apply no_exit_randint
    | apply no_exit_uniform
    | apply no_exit_lift_result
    | apply no_exit_lift_rand
    | apply ordinary_warpPerspective
    | apply ordinary_warpAffine
    | apply ordinary_flip
    | apply ordinary_blur
    | apply ordinary_cv_resize
    | apply no_exit_bind; [|intros ?]
    | apply no_exit_for_each; intros ? ].

Lemma no_exit_call_method `{CvKernels} t img : no_exit (call_method t img).
Proof.
  destruct t; cbn [call_method];
    unfold translation, translation_matrix, shear, shear_matrix, rotate, crop,
           skew, distortion;
    destruct (shape img) as [[rows cols] dim]; cbv zeta;
    try match goal with |- context [?x =? 0] => destruct (x =? 0) end;
    no_exit_steps.
Qed.

Lemma no_exit_makedirs d : no_exit (makedirs d).
Proof. intros w c. unfold makedirs. by destruct (w_store w !! d). Qed.

Lemma no_exit_imsave k d name : no_exit (imsave k d name).
Proof. intros w c. unfold imsave. by destruct (w_store w !! d). Qed.

Lemma no_exit_count_entries d : no_exit (count_entries d).
Proof. intros w c. unfold count_entries. by destruct (w_store w !! d). Qed.

Lemma no_exit_largest_count : no_exit largest_count.
Proof. intros w c. unfold largest_count. by destruct (map_to_list (w_store w)). Qed.

Lemma no_exit_imsave_cwd name : no_exit (imsave_cwd name).
Proof. intros w c. done. Qed.

Lemma no_exit_guarded_augment `{CvKernels} image d target t :
  no_exit (guarded_augment image d target t).
Proof.
  unfold guarded_augment, augment.
  apply no_exit_bind; [apply no_exit_count_entries|]. intros n.
  destruct (n <? target)%nat; [|apply no_exit_ret].
  apply no_exit_bind; [apply no_exit_count_entries|]. intros _.
  apply no_exit_bind; [apply no_exit_lift_rand, no_exit_call_method|]. intros aug_img.
  apply no_exit_bind; [apply no_exit_lift_result, ordinary_cv_resize|]. intros resized.
  apply no_exit_imsave.
Qed.

Lemma no_exit_directory_mode `{CvKernels} tree : no_exit (directory_mode tree).
Proof.
  unfold directory_mode, copy_phase, copy_image, balance_phase.
  apply no_exit_bind.
  { apply no_exit_for_each. intros f.
    apply no_exit_bind; [apply no_exit_makedirs | intros _; apply no_exit_imsave]. }
  intros _. apply no_exit_bind; [apply no_exit_largest_count|]. intros target.
  apply no_exit_for_each. intros e.
  apply no_exit_for_each. intros image. unfold balance_image.
  apply no_exit_bind; [apply no_exit_makedirs|]. intros _.
  apply no_exit_bind; [apply no_exit_imsave|]. intros _.
  repeat (apply no_exit_bind; [apply no_exit_guarded_augment | intros _]).
  apply no_exit_guarded_augment.
Qed.

Lemma no_exit_single_mode `{CvKernels} name decoded : no_exit (single_mode name decoded).
Proof.
  unfold single_mode. destruct decoded as [img|]; [|by intros w c].
  cbv zeta.
  repeat first
    [ apply no_exit_imsave_cwd
    | apply no_exit_lift_rand, no_exit_randint
    | apply no_exit_lift_rand, (no_exit_call_method Translation)
    | apply no_exit_lift_rand, (no_exit_call_method Rotate)
    | apply no_exit_lift_rand, (no_exit_call_method Crop)
    | apply no_exit_lift_result, ordinary_flip
    | apply no_exit_lift_result, ordinary_blur
    | apply no_exit_bind; [|intros ?] ].
Qed.

Lemma no_exit_process `{CvKernels} p : no_exit (process p).
Proof.
  destruct p; cbn [process];
    [apply no_exit_single_mode | apply no_exit_single_mode | apply no_exit_directory_mode].
Qed.

Lemma succeeds_bind {S A B} (m : M S A) (k : A -> M S B) :
  succeeds m -> (forall a, succeeds (k a)) -> succeeds (bind m k).
Proof.
  intros Hm Hk s. destruct (Hm s) as (a & s1 & Hrun).
  rewrite (bind_ok _ _ _ _ _ Hrun). apply Hk.
Qed.

Lemma succeeds_ret {S A} (a : A) : succeeds (ret a : M S A).
Proof. intros s. by exists a, s. Qed.

Lemma succeeds_lift_result {S A} (r : result A) (a : A) :
  r = Ok a -> succeeds (lift_result r : M S A).
Proof. intros -> s. by exists a, s. Qed.

Lemma succeeds_lift_rand {A} (m : Rand A) : succeeds m -> succeeds (lift_rand m).
Proof.
  intros Hm w. destruct (Hm (w_rng w)) as (a & g & Hrun).
  unfold lift_rand. rewrite Hrun. by eexists _, _.
Qed.

Lemma succeeds_randint low high : low < high -> succeeds (randint low high).
Proof. intros Hlt g. destruct (randint_ok low high g Hlt) as (v & g' & Hrun & _). eauto. Qed.

Lemma succeeds_imsave_cwd name : succeeds (imsave_cwd name).
Proof. intros w. by eexists _, _. Qed.

Section SingleImage.
Context `{CvKernels}.
Variables (img : image) (rows cols : nat).
Hypothesis Hshape : shaped rows cols 3 img.
Hypothesis Hrows : (100 < rows)%nat.
Hypothesis Hcols : (100 < cols)%nat.

Lemma shape_known : shape img = (rows, cols, 3%nat).
Proof. apply shaped_shape; [done | lia..]. Qed.

Lemma succeeds_warpPerspective m dsize :
  succeeds (lift_result (warpPerspective img m dsize) : M world image).
Proof.
  destruct dsize as [width height].
  destruct (warpPerspective_shaped rows cols 3 img m width height Hshape)
    as (out & Hout & _); [lia..|].
  by apply (succeeds_lift_result _ out).
Qed.

Lemma succeeds_translation : succeeds (translation img).
Proof.
  unfold translation, translation_matrix. rewrite shape_known.
  apply succeeds_bind.
  { apply succeeds_bind; [by apply succeeds_randint|]. intros tx.
    apply succeeds_bind; [by apply succeeds_randint|]. intros ty.
    apply succeeds_ret. }
  intros m.
  destruct (warpPerspective_shaped rows cols 3 img m cols rows Hshape)
    as (out & Hout & _); [lia..|].
  apply succeeds_bind; [by apply (succeeds_lift_result _ out)|].
  intros warped. apply succeeds_ret.
Qed.

Lemma succeeds_rotate : succeeds (rotate img).
Proof.
  unfold rotate. rewrite shape_known.
  apply succeeds_bind; [by apply succeeds_randint|]. intros angle. cbv zeta.
  destruct (warpAffine_shaped rows cols 3 img
              (getRotationMatrix2D (Z.of_nat cols # 2, Z.of_nat rows # 2) angle 1)
              cols rows Hshape) as (out & Hout & _); [lia..|].
  apply succeeds_bind; [by apply (succeeds_lift_result _ out)|].
  intros warped. apply succeeds_ret.
Qed.

Lemma succeeds_crop : succeeds (crop img).
Proof.
  intros g.
  destruct (crop_draws img rows cols) with (g := g) as (x & y & out & g' & Hrun & _);
    [by apply has_shape_shaped | lia | lia |].
  eauto.
Qed.

Lemma flip_ok axis : exists out, flip img axis = Ok out.
Proof.
  unfold flip. rewrite shape_known.
  destruct (warpPerspective_shaped rows cols 3 img (flip_matrix rows cols axis)
              cols rows Hshape) as (out & Hout & _); [lia..|].
  eauto.
Qed.

Lemma blur_ok : exists out, blur img = Ok out.
Proof.
  unfold blur. rewrite shape_known.
  rewrite (shaped_not_empty rows cols 3 img Hshape) by lia. eauto.
Qed.

(** Single-image mode completes on an image larger than 100 x 100. *)
Lemma succeeds_single_mode name : succeeds (single_mode name (Some img)).
Proof.
  unfold single_mode. cbv zeta.
  apply succeeds_bind; [apply succeeds_lift_rand, succeeds_translation|]. intros translated_img.
  apply succeeds_bind; [apply succeeds_imsave_cwd|]. intros _.
  apply succeeds_bind; [by apply succeeds_lift_rand, succeeds_randint|]. intros axis.
  destruct (flip_ok axis) as [flipped Hflip].
  apply succeeds_bind; [by apply (succeeds_lift_result _ flipped)|]. intros flipped_img.
  apply succeeds_bind; [apply succeeds_imsave_cwd|]. intros _.
  apply succeeds_bind; [apply succeeds_lift_rand, succeeds_rotate|]. intros rotated_img.
  apply succeeds_bind; [apply succeeds_imsave_cwd|]. intros _.
  destruct blur_ok as [blurred Hblur].
  apply succeeds_bind; [by apply (succeeds_lift_result _ blurred)|]. intros blurred_img.
  apply succeeds_bind; [apply succeeds_imsave_cwd|]. intros _.
  apply succeeds_bind; [apply succeeds_lift_rand, succeeds_crop|]. intros cropped_img.
  apply succeeds_bind; [apply succeeds_imsave_cwd|]. intros _.
  apply succeeds_imsave_cwd.
Qed.

End SingleImage.

Lemma check_path_missing w :
  check_path NeitherFileNorDir w
  = (Raise (SystemExit 1),
     {| w_rng := w_rng w; w_store := w_store w; w_cwd := w_cwd w;
        w_log := w_log w ++ [FileNotFoundError]; w_trace := w_trace w |}).
Proof. reflexivity. Qed.

Lemma check_path_existing p w : p <> NeitherFileNorDir -> check_path p w = (Ok tt, w).
Proof. destruct p; [done | reflexivity..]. Qed.

(** ** Crop: when it raises, and what it returns *)

(** Crop returns exactly when the image is more than 100 high and more
    than 100 wide; otherwise [np.random.randint] is given an empty range
    and raises [ValueError]. *)
Theorem crop_returns_iff (img : image) (g : rng) :
  match fst (crop img g) with
  | Ok _ => (100 < (shape img).1.1)%nat /\ (100 < (shape img).1.2)%nat
  | Raise e =>
      e = ValueError
      /\ ((shape img).1.1 <= 100 \/ (shape img).1.2 <= 100)%nat
  end.
Proof.
  unfold crop. destruct (shape img) as [[rows cols] dim]. cbn [fst snd].
  destruct (decide (100 < cols)%nat) as [Hc|Hc].
  - destruct (randint_ok 0 (Z.of_nat cols - 100) g) as (x & g1 & Hx & _); [lia|].
    rewrite (bind_ok _ _ _ _ _ Hx).
    destruct (decide (100 < rows)%nat) as [Hr|Hr].
    + destruct (randint_ok 0 (Z.of_nat rows - 100) g1) as (y & g2 & Hy & _); [lia|].
      rewrite (bind_ok _ _ _ _ _ Hy). cbn. lia.
    + rewrite (bind_raise _ _ _ _ _ (randint_empty 0 (Z.of_nat rows - 100) g1 ltac:(lia))).
      cbn. split; [done | lia].
  - rewrite (bind_raise _ _ _ _ _ (randint_empty 0 (Z.of_nat cols - 100) g ltac:(lia))).
    cbn. split; [done | lia].
Qed.

Lemma pixel_at_slice2 (img : image) (y0 y1 x0 x1 : Z) (rows cols dim i j : nat) :
  shaped rows cols dim img ->
  0 <= y0 <= y1 -> y1 <= Z.of_nat rows -> 0 <= x0 <= x1 -> x1 <= Z.of_nat cols ->
  Z.of_nat i < y1 - y0 -> Z.of_nat j < x1 - x0 ->
  pixel_at (slice2 y0 y1 x0 x1 img) j i
  = pixel_at img (Z.to_nat x0 + j) (Z.to_nat y0 + i).
Proof.
  intros [Hlen Hrows] Hy0 Hy1 Hx0 Hx1 Hi Hj. unfold pixel_at, slice2.
  rewrite list_lookup_fmap, py_slice_inside by lia.
  rewrite lookup_take_lt by lia. rewrite lookup_drop.
  destruct (_ !! (Z.to_nat y0 + i)%nat) as [row|] eqn:Hrow; [|done]. cbn.
  destruct (Forall_lookup_1 _ _ _ _ Hrows Hrow) as [Hrowlen _].
  rewrite py_slice_inside by lia.
  rewrite lookup_take_lt by lia. by rewrite lookup_drop.
Qed.

(** The crop copies a 100 x 100 window of the image, pixel for pixel.  Its
    origin is at most [cols - 101], [rows - 101]: the last column and the
    last row of the image are never part of a crop. *)
Theorem crop_copies_window (img : image) (rows cols dim : nat) (g : rng) :
  shaped rows cols dim img -> (100 < rows)%nat -> (100 < cols)%nat ->
  exists (x y : nat) out g',
    crop img g = (Ok out, g')
    /\ (x + 100 < cols)%nat /\ (y + 100 < rows)%nat
    /\ (forall i j, (i < 100)%nat -> (j < 100)%nat ->
          pixel_at out j i = pixel_at img (x + j) (y + i))
    /\ (forall i j p, pixel_at out j i = Some p ->
          (x + j < cols - 1)%nat /\ (y + i < rows - 1)%nat).
Proof.
  intros Hs Hr Hc. unfold crop. rewrite (shaped_shape _ _ _ _ Hs) by lia.
  destruct (randint_ok 0 (Z.of_nat cols - 100) g) as (x & g1 & Hx & Hxr); [lia|].
  destruct (randint_ok 0 (Z.of_nat rows - 100) g1) as (y & g2 & Hy & Hyr); [lia|].
  rewrite (bind_ok _ _ _ _ _ Hx), (bind_ok _ _ _ _ _ Hy).
  exists (Z.to_nat x), (Z.to_nat y). eexists _, _. split; [reflexivity|].
  split; [lia|]. split; [lia|].
  assert (shaped (Z.to_nat (y + 100 - y)) (Z.to_nat (x + 100 - x)) dim
            (slice2 y (y + 100) x (x + 100) img)) as Hso
    by (eapply shaped_slice2; [exact Hs | lia..]).
  split.
  - intros i j Hi Hj. by apply (pixel_at_slice2 img _ _ _ _ rows cols dim); [|lia..].
  - intros i j p Hp.
    destruct Hso as [Hlen Hrows]. unfold pixel_at in Hp.
    destruct (_ !! i) as [row|] eqn:Hrow; [|done].
    pose proof (lookup_lt_Some _ _ _ Hrow) as Hi.
    destruct (Forall_lookup_1 _ _ _ _ Hrows Hrow) as [Hrowlen _].
    pose proof (lookup_lt_Some _ _ _ Hp) as Hj. lia.
Qed.

Lemma crop_copies_window_witness :
  exists (x y : nat) out g',
    crop (blank 101 101) rng0 = (Ok out, g')
    /\ (x + 100 < 101)%nat /\ (y + 100 < 101)%nat
    /\ (forall i j, (i < 100)%nat -> (j < 100)%nat ->
          pixel_at out j i = pixel_at (blank 101 101) (x + j) (y + i))
    /\ (forall i j p, pixel_at out j i = Some p ->
          (x + j < 101 - 1)%nat /\ (y + i < 101 - 1)%nat).
Proof.
  apply (crop_copies_window (blank 101 101) 101 101 3 rng0);
    [apply has_shape_shaped; vm_compute; reflexivity | lia | lia].
Defined.

(** ** The warps on images of any size *)

Lemma py_slice_length_clip {A} (a b : Z) (l : list A) :
  0 <= a <= b ->
  length (py_slice a b l)
  = (Nat.min (Z.to_nat b) (length l) - Nat.min (Z.to_nat a) (length l))%nat.
Proof.
  intros Hab. unfold py_slice, slice_index.
  assert ((a <? 0) = false) as -> by (apply Z.ltb_ge; lia).
  assert ((b <? 0) = false) as -> by (apply Z.ltb_ge; lia).
  rewrite length_take, length_drop.
  destruct (Z.le_gt_cases a (Z.of_nat (length l))) as [Ha|Ha];
    destruct (Z.le_gt_cases b (Z.of_nat (length l))) as [Hb|Hb].
  all: repeat match goal with
         | |- context [Z.min ?x ?y] =>
             first [rewrite (Z.min_l x y) by lia | rewrite (Z.min_r x y) by lia]
         | |- context [Z.max ?x ?y] =>
             first [rewrite (Z.max_l x y) by lia | rewrite (Z.max_r x y) by lia]
         | |- context [Nat.min ?x ?y] =>
             first [rewrite (Nat.min_l x y) by lia | rewrite (Nat.min_r x y) by lia]
         end.
  all: lia.
Qed.

(** The window [[50:150, 50:150]] of an array that is too small is what is
    left of it past row and column 50: Python clips a slice, it does not
    raise. *)
Lemma fixed_window_clipped rows cols dim (img : image) :
  shaped rows cols dim img ->
  shaped (Nat.min rows 150 - 50) (Nat.min cols 150 - 50) dim (fixed_window img).
Proof.
  intros [Hlen Hrows]. unfold fixed_window, slice2. split.
  - rewrite length_map, py_slice_length_clip by lia. lia.
  - apply Forall_fmap. eapply Forall_impl; [by apply py_slice_Forall|].
    intros row [Hrow Hpx]. cbn. split.
    + rewrite py_slice_length_clip by lia. lia.
    + by apply py_slice_Forall.
Qed.


Section AnySize.
Context `{CvKernels}.
Variables (img : image) (rows cols dim : nat).
Hypothesis Hshape : shaped rows cols dim img.
Hypothesis Hrows : (0 < rows)%nat.
Hypothesis Hcols : (0 < cols)%nat.

Lemma clipped_perspective (draw : Rand mat3) :
  (forall g, exists m g', draw g = (Ok m, g')) ->
  clipped rows cols dim (m <- draw ;;
           warped <- lift_result (warpPerspective img m (cols, rows)) ;;
           ret (fixed_window warped)).
Proof.
  intros Hdraw g. destruct (Hdraw g) as (m & g' & Hm).
  destruct (warpPerspective_shaped rows cols dim img m cols rows Hshape Hrows Hcols)
    as (warped & Hw & Hsw).
  eexists _, g'. split.
  - rewrite (bind_ok _ _ _ _ _ Hm). unfold lift_result, bind, ret. rewrite Hw. reflexivity.
  - by apply fixed_window_clipped.
Qed.

Lemma clipped_affine (draw : Rand mat23) :
  (forall g, exists m g', draw g = (Ok m, g')) ->
  clipped rows cols dim (m <- draw ;;
           warped <- lift_result (warpAffine img m (cols, rows)) ;;
           ret (fixed_window warped)).
Proof.
  intros Hdraw g. destruct (Hdraw g) as (m & g' & Hm).
  destruct (warpAffine_shaped rows cols dim img m cols rows Hshape Hrows Hcols)
    as (warped & Hw & Hsw).
  eexists _, g'. split.
  - rewrite (bind_ok _ _ _ _ _ Hm). unfold lift_result, bind, ret. rewrite Hw. reflexivity.
  - by apply fixed_window_clipped.
Qed.

Lemma warps_clipped :
  clipped rows cols dim (rotate img) /\ clipped rows cols dim (translation img)
  /\ (forall axis, clipped rows cols dim (shear img axis))
  /\ clipped rows cols dim (skew img) /\ clipped rows cols dim (distortion img).
Proof.
  assert (shape img = (rows, cols, dim)) as Hs by (by apply shaped_shape).
  repeat split.
  - intros g. unfold rotate. rewrite Hs. step_randint.
    match goal with |- context [warpAffine img ?m _] =>
      pose proof (clipped_affine (ret m) (ret_draws m) g0) as Hw end.
    cbv [bind ret] in Hw |- *. exact Hw.
  - unfold translation. rewrite Hs. apply clipped_perspective.
    intros g. destruct (translation_matrix_draws g) as (tx & ty & g' & Hm & _). eauto.
  - intros axis. unfold shear. rewrite Hs. apply clipped_perspective, shear_matrix_draws.
  - intros g. unfold skew. rewrite Hs. cbv zeta. do 6 step_randint.
    match goal with |- context [warpAffine img ?m _] =>
      match goal with |- context [bind _ _ ?g6] =>
        pose proof (clipped_affine (ret m) (ret_draws m) g6) as Hw end end.
    cbv [bind ret] in Hw |- *. exact Hw.
  - intros g. unfold distortion. rewrite Hs. cbv zeta. do 8 step_randint.
    match goal with |- context [warpPerspective img ?m _] =>
      match goal with |- context [bind _ _ ?g8] =>
        pose proof (clipped_perspective (ret m) (ret_draws m) g8) as Hw end end.
    cbv [bind ret] in Hw |- *. exact Hw.
Qed.

End AnySize.

(** Each of the rotate, translation, shear, skew and distortion transforms
    returns on every image that is not empty, whatever its size and
    whatever is drawn: an image smaller than 150 x 150 is not rejected,
    the result is just smaller than 100 x 100, down to an empty array for
    an image of at most 50 rows or 50 columns. *)
Theorem warps_clip_undersized `{CvKernels} (img : image) (rows cols dim : nat) :
  shaped rows cols dim img -> (0 < rows)%nat -> (0 < cols)%nat ->
  clipped rows cols dim (rotate img)
  /\ clipped rows cols dim (translation img)
  /\ (forall axis, clipped rows cols dim (shear img axis))
  /\ clipped rows cols dim (skew img)
  /\ clipped rows cols dim (distortion img).
Proof. exact (warps_clipped img rows cols dim). Qed.

Lemma warps_clip_undersized_witness :
  clipped 40 120 3 (@rotate example_kernels (blank 40 120))
  /\ clipped 40 120 3 (translation (blank 40 120))
  /\ (forall axis, clipped 40 120 3 (@shear example_kernels (blank 40 120) axis))
  /\ clipped 40 120 3 (skew (blank 40 120))
  /\ clipped 40 120 3 (@distortion example_kernels (blank 40 120)).
Proof.
  apply (@warps_clip_undersized example_kernels (blank 40 120) 40 120 3);
    [apply has_shape_shaped; vm_compute; reflexivity | lia | lia].
Defined.

Lemma shaped_empty rows cols dim (img : image) :
  shaped rows cols dim img -> (rows = 0 \/ cols = 0)%nat -> is_empty img = true.
Proof.
  intros [Hlen Hrows] Hzero. unfold is_empty, shape.
  destruct img as [|row img]; [done|]. cbn in Hlen.
  apply Forall_cons in Hrows as [[Hrow _] _].
  destruct Hzero as [->| ->]; [done|].
  destruct row; [done | cbn in Hrow; lia].
Qed.

(** [augment] in a class directory that does not exist raises
    [FileNotFoundError] before any transform runs, and writes nothing. *)
Lemma augment_missing `{CvKernels} image d target t w :
  w_store w !! d = None -> augment image d target t w = (Raise FileNotFoundError, w).
Proof. intros Hd. unfold augment, bind at 1, count_entries. by rewrite Hd. Qed.

(** In directory mode a warp step on an image of at most 50 rows or 50
    columns raises, and nothing is written: in a class directory that
    exists the warp returns an empty window, which [cv2.resize] refuses;
    in one that does not exist the count of the debug message raises
    [FileNotFoundError] before the warp is called. *)
Theorem augment_small_image_raises `{CvKernels}
    (image : src_file) (rows cols dim : nat) (d : string) (target : nat)
    (t : aug_type) (w : world) :
  shaped rows cols dim (f_pixels image) -> (0 < rows)%nat -> (0 < cols)%nat ->
  (rows <= 50 \/ cols <= 50)%nat ->
  t ∈ [Rotate; Distortion; Shear; Skew; Translation] ->
  fst (augment image d target t w)
  = Raise (match w_store w !! d with Some _ => CvError | None => FileNotFoundError end)
  /\ w_store (snd (augment image d target t w)) = w_store w
  /\ w_trace (snd (augment image d target t w)) = w_trace w.
Proof.
  intros Hs Hr Hc Hsmall Ht.
  destruct (w_store w !! d) as [files|] eqn:Hd; [|by rewrite (augment_missing _ _ _ _ _ Hd)].
  destruct (warps_clipped (f_pixels image) rows cols dim Hs Hr Hc)
    as (Hrot & Htr & Hsh & Hsk & Hdi).
  assert (clipped rows cols dim (call_method t (f_pixels image))) as Hcall.
  { repeat (apply elem_of_cons in Ht as [->|Ht]; [done || apply Hsh|]).
    by apply elem_of_nil in Ht. }
  destruct (Hcall (w_rng w)) as (out & g' & Hrun & Hout).
  rewrite (augment_counts _ _ _ _ _ _ Hd).
  unfold bind, lift_rand, lift_result. rewrite Hrun.
  unfold cv_resize. rewrite (shaped_empty _ _ _ out Hout) by lia. done.
Qed.

Lemma augment_small_image_raises_witness :
  fst (@augment example_kernels
         {| f_dir := "Apple"; f_name := "leaf.JPG"; f_pixels := blank 40 120 |}
         "Apple" 5 Rotate (start rng0 {[ "Apple"%string := {[ "leaf.JPG"%string ]} ]} ∅))
  = Raise CvError
  /\ w_store (snd (@augment example_kernels
         {| f_dir := "Apple"; f_name := "leaf.JPG"; f_pixels := blank 40 120 |}
         "Apple" 5 Rotate (start rng0 {[ "Apple"%string := {[ "leaf.JPG"%string ]} ]} ∅)))
     = w_store (start rng0 {[ "Apple"%string := {[ "leaf.JPG"%string ]} ]} ∅)
  /\ w_trace (snd (@augment example_kernels
         {| f_dir := "Apple"; f_name := "leaf.JPG"; f_pixels := blank 40 120 |}
         "Apple" 5 Rotate (start rng0 {[ "Apple"%string := {[ "leaf.JPG"%string ]} ]} ∅)))
     = w_trace (start rng0 {[ "Apple"%string := {[ "leaf.JPG"%string ]} ]} ∅).
Proof.
  assert (shaped 40 120 3 (blank 40 120)) as Hs
    by (apply has_shape_shaped; vm_compute; reflexivity).
  assert (Rotate ∈ [Rotate; Distortion; Shear; Skew; Translation]) as Ht by set_solver.
  assert (0 < 40)%nat as Hr by lia.
  assert (0 < 120)%nat as Hc by lia.
  assert (40 <= 50)%nat as Hsmall by lia.
  exact (@augment_small_image_raises example_kernels
           {| f_dir := "Apple"; f_name := "leaf.JPG"; f_pixels := blank 40 120 |}
           40 120 3 "Apple" 5 Rotate
           (start rng0 {[ "Apple"%string := {[ "leaf.JPG"%string ]} ]} ∅)
           Hs Hr Hc (or_introl Hsmall) Ht).
Defined.

(** ** Translation, pixel by pixel *)

Lemma shift_coords (tx ty x y : Z) :
  perspective_coords (invert3 (shift_matrix tx ty)) x y
  = (saturate_int (32 * (x - tx)), saturate_int (32 * (y - ty))).
Proof.
  unfold shift_matrix, invert3.
  set (dt := det3 _).
  assert (dt == 1)%Q as Hdet by (unfold dt, det3; ring).
  assert (~ dt == 0)%Q as Hnz by (rewrite Hdet; discriminate).
  rewrite (Qeq_bool_false dt Hnz).
  unfold perspective_coords.
  match goal with |- context [Qeq_bool ?w 0] =>
    assert (w == 1)%Q as Hw by (rewrite Hdet; field);
    rewrite (Qeq_bool_false w) by (rewrite Hw; discriminate)
  end.
  f_equal; f_equal; apply cvRound_inject.
  - unfold Z.sub. rewrite inject_Z_mult, inject_Z_plus, inject_Z_opp. rewrite !Hdet. field.
  - unfold Z.sub. rewrite inject_Z_mult, inject_Z_plus, inject_Z_opp. rewrite !Hdet. field.
Qed.

(** Translation moves the image by the two shifts it draws, exactly: the
    output pixel [(j, i)] is the input pixel [(50 + j - tx, 50 + i - ty)],
    and black where that position is outside the input. *)
Theorem translation_shifts_pixels (img : image) (rows cols dim : nat) (g : rng) :
  shaped rows cols dim img -> all_u8 img ->
  (150 <= rows < 2 ^ 15 - 100)%nat -> (150 <= cols < 2 ^ 15 - 100)%nat ->
  exists tx ty out g',
    translation img g = (Ok out, g')
    /\ -100 <= tx <= 99 /\ -100 <= ty <= 99
    /\ shaped 100 100 dim out
    /\ (forall i j : nat, (i < 100)%nat -> (j < 100)%nat ->
          pixel_at out j i
          = Some (pixel_or_border img (50 + Z.of_nat j - tx) (50 + Z.of_nat i - ty))).
Proof.
  intros Hs Hu Hr Hc.
  assert (Z.of_nat rows < 2 ^ 15 - 100 /\ Z.of_nat cols < 2 ^ 15 - 100) as [Hr' Hc'].
  { change (2 ^ 15 - 100) with (Z.of_nat (2 ^ 15 - 100)). lia. }
  destruct (translation_matrix_draws g) as (tx & ty & g' & Hm & Htx & Hty).
  destruct (warp_grid_pixels rows cols dim img (shift_matrix tx ty)
              (fun x y => x - tx) (fun x y => y - ty) Hs)
    as (warped & Hw & Hsw & _ & Hpx); [lia | lia | done | apply shift_coords | lia |].
  exists tx, ty, (fixed_window warped), g'.
  split; [|split; [done|split; [done|split]]].
  - unfold translation. rewrite (shaped_shape _ _ _ _ Hs) by lia.
    rewrite (bind_ok _ _ _ _ _ Hm). unfold lift_result, bind, ret. by rewrite Hw.
  - change 100%nat with (Z.to_nat (150 - 50)).
    eapply shaped_slice2; [exact Hsw | lia..].
  - intros i j Hi Hj. unfold fixed_window.
    rewrite (pixel_at_slice2 warped 50 150 50 150 rows cols dim) by (done || lia).
    rewrite Hpx by lia. do 2 f_equal; lia.
Qed.

Lemma translation_shifts_pixels_witness :
  exists tx ty out g',
    translation (blank 150 150) rng0 = (Ok out, g')
    /\ -100 <= tx <= 99 /\ -100 <= ty <= 99
    /\ shaped 100 100 3 out
    /\ (forall i j : nat, (i < 100)%nat -> (j < 100)%nat ->
          pixel_at out j i
          = Some (pixel_or_border (blank 150 150)
                    (50 + Z.of_nat j - tx) (50 + Z.of_nat i - ty))).
Proof.
  apply (translation_shifts_pixels (blank 150 150) 150 150 3 rng0).
  - apply has_shape_shaped. vm_compute. reflexivity.
  - unfold blank. apply Forall_replicate, Forall_replicate. repeat constructor; lia.
  - split; [lia | apply Nat.ltb_lt; vm_compute; reflexivity].
  - split; [lia | apply Nat.ltb_lt; vm_compute; reflexivity].
Defined.

(** ** Flip, once *)

(** What a single [flip] returns, on every image of 8-bit samples: an
    image of the same shape whose column [x] is the source column
    [cols - x] for axis 0 (whose row [y] is the source row [rows - y] for
    any other axis), so that column 0 (row 0) is black and the source
    column 0 (row 0) appears nowhere. *)
Theorem flip_mirrors_off_by_one (img : image) (rows cols dim : nat) (axis : Z) :
  shaped rows cols dim img ->
  (0 < rows < 2 ^ 15)%nat -> (0 < cols < 2 ^ 15)%nat ->
  all_u8 img ->
  exists out,
    flip img axis = Ok out
    /\ shaped rows cols dim out
    /\ (forall x y : nat, (x < cols)%nat -> (y < rows)%nat ->
          pixel_at out x y
          = if axis =? 0
            then (if (x =? 0)%nat then Some (replicate dim 0)
                  else pixel_at img (cols - x) y)
            else (if (y =? 0)%nat then Some (replicate dim 0)
                  else pixel_at img x (rows - y))).
Proof.
  intros Hs Hr Hc Hu.
  destruct (flip_pixels rows cols dim img axis Hs Hr Hc Hu) as (out & Hrun & Hso & _ & Hpx).
  exists out. split; [done|]. split; [done|].
  intros x y Hx Hy. rewrite Hpx by done.
  destruct (axis =? 0).
  - destruct (x =? 0)%nat eqn:Hx0.
    + apply Nat.eqb_eq in Hx0 as ->. f_equal.
      apply (pixel_or_border_outside rows cols dim); [done | lia | lia | lia].
    + apply Nat.eqb_neq in Hx0.
      rewrite <- (pixel_or_border_inside rows cols dim img) by (done || lia).
      f_equal; lia.
  - destruct (y =? 0)%nat eqn:Hy0.
    + apply Nat.eqb_eq in Hy0 as ->. f_equal.
      apply (pixel_or_border_outside rows cols dim); [done | lia | lia | lia].
    + apply Nat.eqb_neq in Hy0.
      rewrite <- (pixel_or_border_inside rows cols dim img) by (done || lia).
      f_equal; lia.
Qed.

Lemma flip_mirrors_off_by_one_witness :
  exists out,
    flip [[[10; 20; 30]; [40; 50; 60]]] 0 = Ok out
    /\ shaped 1 2 3 out
    /\ (forall x y : nat, (x < 2)%nat -> (y < 1)%nat ->
          pixel_at out x y
          = if 0 =? 0
            then (if (x =? 0)%nat then Some (replicate 3 0)
                  else pixel_at [[[10; 20; 30]; [40; 50; 60]]] (2 - x) y)
            else (if (y =? 0)%nat then Some (replicate 3 0)
                  else pixel_at [[[10; 20; 30]; [40; 50; 60]]] x (1 - y))).
Proof.
  apply (flip_mirrors_off_by_one [[[10; 20; 30]; [40; 50; 60]]] 1 2 3 0).
  - apply has_shape_shaped. reflexivity.
  - split; [lia | apply Nat.ltb_lt; vm_compute; reflexivity].
  - split; [lia | apply Nat.ltb_lt; vm_compute; reflexivity].
  - repeat constructor; lia.
Defined.

(** ** Blur *)

Lemma reflect101_range (len p : Z) : 0 < len -> 0 <= reflect101 len p < len.
Proof.
  intros Hlen. unfold reflect101.
  destruct (len <=? 1) eqn:H1; [lia|]. apply Z.leb_gt in H1.
  pose proof (Z.mod_pos_bound p (2 * (len - 1)) ltac:(lia)) as Hq.
  destruct (_ <? len) eqn:H2; [apply Z.ltb_lt in H2 | apply Z.ltb_ge in H2]; lia.
Qed.

(** Inside the image the mirror is the identity. *)
Lemma reflect101_inside (len p : Z) : 0 <= p < len -> reflect101 len p = p.
Proof.
  intros Hp. unfold reflect101.
  destruct (len <=? 1) eqn:H1; [apply Z.leb_le in H1; lia|]. apply Z.leb_gt in H1.
  rewrite Z.mod_small by lia.
  by assert ((p <? len) = true) as -> by (apply Z.ltb_lt; lia).
Qed.

Lemma blur_grid (img : image) (rows cols dim : nat) :
  shaped rows cols dim img -> (0 < rows)%nat -> (0 < cols)%nat ->
  blur img
  = Ok (map (fun y =>
               map (fun x => map (box5_sample img (Z.of_nat rows) (Z.of_nat cols) x y)
                                 (seq 0 dim))
                   (seqZ 0 (Z.of_nat cols)))
            (seqZ 0 (Z.of_nat rows))).
Proof.
  intros Hs Hr Hc. unfold blur.
  by rewrite (shaped_shape _ _ _ _ Hs), (shaped_not_empty _ _ _ _ Hs) by lia.
Qed.

(** Blur raises on an empty image; on any other it returns an image of the
    same shape, every sample of which is a [uint8] value. *)
Theorem blur_keeps_shape (img : image) (rows cols dim : nat) :
  shaped rows cols dim img ->
  if ((rows =? 0) || (cols =? 0))%nat
  then blur img = Raise CvError
  else exists out, blur img = Ok out /\ shaped rows cols dim out /\ all_u8 out.
Proof.
  intros Hs. destruct ((rows =? 0) || (cols =? 0))%nat eqn:Hz.
  - unfold blur. destruct (shape img) as [[r c] d] eqn:Hshape.
    assert (is_empty img = true) as ->; [|done].
    apply (shaped_empty rows cols dim); [done|].
    apply orb_true_iff in Hz as [?%Nat.eqb_eq | ?%Nat.eqb_eq]; auto.
  - apply orb_false_iff in Hz as [Hr%Nat.eqb_neq Hc%Nat.eqb_neq].
    eexists. split; [apply (blur_grid img rows cols dim); [done | lia..]|]. split.
    + apply (shaped_grid (fun x y => map (box5_sample img (Z.of_nat rows) (Z.of_nat cols) x y)
                                         (seq 0 dim))).
      intros x y. by rewrite length_map, length_seq.
    + apply (all_u8_grid (fun x y => map (box5_sample img (Z.of_nat rows) (Z.of_nat cols) x y)
                                         (seq 0 dim))).
      intros x y. apply Forall_fmap, Forall_true. intros c. cbn.
      unfold box5_sample, saturate_u8. lia.
Qed.

Lemma blur_keeps_shape_witness :
  exists out, blur (blank 3 4) = Ok out /\ shaped 3 4 3 out /\ all_u8 out.
Proof.
  apply (blur_keeps_shape (blank 3 4) 3 4 3).
  apply has_shape_shaped. vm_compute. reflexivity.
Defined.

Lemma sample_at_uniform (rows cols : nat) (p : pixel) (x y : Z) (c : nat) :
  0 <= x < Z.of_nat cols -> 0 <= y < Z.of_nat rows ->
  sample_at (replicate rows (replicate cols p)) x y c = default 0 ((p : list Z) !! c).
Proof.
  intros Hx Hy. unfold sample_at, pixel_at.
  rewrite lookup_replicate_2 by lia. by rewrite lookup_replicate_2 by lia.
Qed.

Lemma sum_of_equal (v : Z) (l : list Z) :
  Forall (fun t => t = v) l -> foldr Z.add 0 l = Z.of_nat (length l) * v.
Proof. induction 1 as [|t l -> _ IH]; cbn [foldr length]; lia. Qed.

(** Blur leaves an image of one colour as it is: the mean of 25 equal
    samples is that sample, at the border as well, where the window is
    filled by mirroring. *)
Theorem blur_uniform_image (rows cols : nat) (p : pixel) :
  (0 < rows)%nat -> (0 < cols)%nat -> u8_pixel p ->
  blur (replicate rows (replicate cols p)) = Ok (replicate rows (replicate cols p)).
Proof.
  intros Hr Hc Hp.
  assert (shaped rows cols (length p) (replicate rows (replicate cols p))) as Hs.
  { split; [by rewrite length_replicate|].
    apply Forall_replicate. split; [by rewrite length_replicate|].
    by apply Forall_replicate. }
  rewrite (blur_grid _ rows cols (length p) Hs Hr Hc). f_equal.
  assert (forall x y c v, (p : list Z) !! c = Some v ->
            box5_sample (replicate rows (replicate cols p))
              (Z.of_nat rows) (Z.of_nat cols) x y c = v) as Hbox.
  { intros x y c v Hv. unfold box5_sample.
    assert (0 <= v <= 255) as Hu by exact (Forall_lookup_1 _ _ _ _ Hp Hv).
    assert (forall dx dy,
              sample_at (replicate rows (replicate cols p))
                (reflect101 (Z.of_nat cols) (x + dx)) (reflect101 (Z.of_nat rows) (y + dy)) c
              = v) as Htap.
    { intros dx dy. rewrite sample_at_uniform, Hv; [done | |];
        apply reflect101_range; lia. }
    set (taps := seqZ (-2) 5).
    set (samples := flat_map _ taps).
    assert (Forall (fun t => t = v) samples) as Hall.
    { apply Forall_forall. intros t Ht.
      apply list_elem_of_In, in_flat_map in Ht as (dy & _ & Ht).
      apply in_map_iff in Ht as (dx & <- & _). apply Htap. }
    assert (length samples = 25%nat) as Hlen by reflexivity.
    rewrite (sum_of_equal v samples Hall), Hlen. unfold saturate_u8.
    replace ((2 * (Z.of_nat 25 * v) + 25) / 50) with v; [lia|].
    apply Z.div_unique with (r := 25); lia. }
  apply list_eq. intros i.
  rewrite list_lookup_fmap.
  destruct (decide (i < rows)%nat) as [Hi|Hi].
  2:{ rewrite lookup_seqZ_ge by lia. symmetry. apply lookup_ge_None_2.
      rewrite length_replicate. lia. }
  rewrite lookup_seqZ_lt, lookup_replicate_2 by lia. cbn. f_equal.
  apply list_eq. intros j.
  rewrite list_lookup_fmap.
  destruct (decide (j < cols)%nat) as [Hj|Hj].
  2:{ rewrite lookup_seqZ_ge by lia. symmetry. apply lookup_ge_None_2.
      rewrite length_replicate. lia. }
  rewrite lookup_seqZ_lt, lookup_replicate_2 by lia. cbn. f_equal.
  apply list_eq. intros c.
  rewrite list_lookup_fmap.
  destruct ((p : list Z) !! c) as [v|] eqn:Hv.
  - rewrite lookup_seq_lt by (by eapply lookup_lt_Some). cbn. f_equal. by apply Hbox.
  - rewrite lookup_seq_ge; [done|]. by apply lookup_ge_None.
Qed.

Lemma blur_uniform_image_witness :
  blur (replicate 3 (replicate 4 [7; 8; 9])) = Ok (replicate 3 (replicate 4 [7; 8; 9])).
Proof.
  apply (blur_uniform_image 3 4 [7; 8; 9]); [lia | lia | repeat constructor; lia].
Defined.

(** ** What the driver leaves alone *)


Lemma store_grows_refl st : store_grows st st.
Proof. intros d files Hd. by exists files. Qed.

Lemma store_grows_trans a b c : store_grows a b -> store_grows b c -> store_grows a c.
Proof.
  intros Hab Hbc d files Hd.
  destruct (Hab d files Hd) as (files1 & Hd1 & Hsub1).
  destruct (Hbc d files1 Hd1) as (files2 & Hd2 & Hsub2).
  exists files2. split; [done | by etrans].
Qed.

Section OnlyAdds.
Context `{CvKernels}.
Variable w0 : world.

Lemma only_adds_lift_rand {A} (m : Rand A) : keeps (only_adds w0) (lift_rand m).
Proof.
  intros w r w' HI. unfold lift_rand. destruct (m (w_rng w)). by intros [= <- <-].
Qed.

Lemma only_adds_lift_result {A} (x : result A) : keeps (only_adds w0) (lift_result x).
Proof. intros w r w' HI [= <- <-]. exact HI. Qed.

Lemma only_adds_makedirs d : keeps (only_adds w0) (makedirs d).
Proof.
  intros w r w' (Hg & Hc & Hl). unfold makedirs.
  destruct (w_store w !! d) as [files|] eqn:Hd; intros [= <- <-]; [done|].
  split; [|done]. cbn. eapply store_grows_trans; [exact Hg|].
  intros d' files Hd'. exists files. split; [|done].
  rewrite lookup_insert_ne; [done | congruence].
Qed.

Lemma only_adds_imsave k d name : keeps (only_adds w0) (imsave k d name).
Proof.
  intros w r w' (Hg & Hc & Hl). unfold imsave.
  destruct (w_store w !! d) as [files|] eqn:Hd; intros [= <- <-]; [|done].
  split; [|done]. cbn. eapply store_grows_trans; [exact Hg|].
  intros d' files' Hd'. destruct (decide (d = d')) as [<-|Hne].
  - rewrite lookup_insert_eq. eexists. split; [done|].
    assert (files' = files) as -> by congruence. apply union_subseteq_r.
  - rewrite lookup_insert_ne by done. by exists files'.
Qed.

Lemma only_adds_count_entries d : keeps (only_adds w0) (count_entries d).
Proof.
  intros w r w' HI. unfold count_entries.
  by destruct (w_store w !! d); intros [= <- <-].
Qed.

Lemma only_adds_largest_count : keeps (only_adds w0) largest_count.
Proof.
  intros w r w' HI. unfold largest_count.
  by destruct (map_to_list (w_store w)); intros [= <- <-].
Qed.

Lemma only_adds_guarded_augment image d target t :
  keeps (only_adds w0) (guarded_augment image d target t).
Proof.
  unfold guarded_augment, augment.
  apply keeps_bind; [apply only_adds_count_entries|]. intros n.
  destruct (n <? target)%nat; [|apply keeps_ret].
  apply keeps_bind; [apply only_adds_count_entries|]. intros _.
  apply keeps_bind; [apply only_adds_lift_rand|]. intros aug_img.
  apply keeps_bind; [apply only_adds_lift_result|]. intros resized.
  apply only_adds_imsave.
Qed.

Lemma only_adds_directory_mode tree : keeps (only_adds w0) (directory_mode tree).
Proof.
  unfold directory_mode, copy_phase, copy_image, balance_phase.
  apply keeps_bind.
  { apply keeps_for_each. intros f _.
    apply keeps_bind; [apply only_adds_makedirs | intros _; apply only_adds_imsave]. }
  intros _. apply keeps_bind; [apply only_adds_largest_count|]. intros target.
  apply keeps_for_each. intros e _.
  apply keeps_for_each. intros image _. unfold balance_image.
  apply keeps_bind; [apply only_adds_makedirs|]. intros _.
  apply keeps_bind; [apply only_adds_imsave|]. intros _.
  repeat (apply keeps_bind; [apply only_adds_guarded_augment | intros _]).
  apply only_adds_guarded_augment.
Qed.

End OnlyAdds.

(** Directory mode only ever adds to augmented_directory: whether it
    completes or raises, every class directory that existed is still
    there with all the entries it had.  It saves nothing in the working
    directory and logs nothing. *)
Theorem directory_mode_only_adds `{CvKernels} (tree : list entry) (w : world) :
  store_grows (w_store w) (w_store (snd (directory_mode tree w)))
  /\ w_cwd (snd (directory_mode tree w)) = w_cwd w
  /\ w_log (snd (directory_mode tree w)) = w_log w.
Proof.
  destruct (directory_mode tree w) as [r w'] eqn:Hrun.
  apply (only_adds_directory_mode w tree w r w'); [|done].
  split; [apply store_grows_refl | done].
Qed.

Lemma saved_first_imsave_cwd name w0 k w suffix :
  single_mode_files name !! k = Some (py_stem name +:+ suffix) ->
  saved_first name w0 k w ->
  saved_first name w0 (S k) (snd (imsave_cwd (py_stem name +:+ suffix) w)).
Proof.
  intros Hk (Hs & Ht & Hl & Hc).
  split; [done|]. split; [done|]. split; [done|].
  change (w_cwd (snd (imsave_cwd (py_stem name +:+ suffix) w)))
    with ({[py_stem name +:+ suffix]} ∪ w_cwd w).
  rewrite Hc, (take_S_r _ _ _ Hk), list_to_set_app_L.
  apply set_eq. intros n. rewrite !elem_of_union, !elem_of_list_to_set.
  rewrite list_elem_of_singleton, elem_of_singleton. tauto.
Qed.

Lemma saved_first_lift_rand {A} name w0 k (m : Rand A) w :
  saved_first name w0 k w -> saved_first name w0 k (snd (lift_rand m w)).
Proof. intros HI. unfold lift_rand. by destruct (m (w_rng w)). Qed.

(** Single-image mode never touches augmented_directory and logs nothing.
    It saves its six files in order, into the working directory: when it
    completes all six are there, and when it raises, the first [k] of
    them, with [k] at most 4 (the last transform that can raise is the
    crop). *)
Theorem single_mode_saves_six `{CvKernels} (name : string) (img : image) (w : world) :
  exists k,
    saved_first name w k (snd (single_mode name (Some img) w))
    /\ match fst (single_mode name (Some img) w) with
       | Ok _ => k = 6%nat
       | Raise _ => (k <= 4)%nat
       end.
Proof.
  assert (saved_first name w 0 w) as H0.
  { repeat split. cbn. by rewrite union_empty_l_L. }
  unfold single_mode. cbv zeta. unfold bind.
  pose proof (saved_first_lift_rand name w 0 (translation img) w H0) as H0'.
  destruct (lift_rand (translation img) w) as [[translated|e] w1]; cbn [fst snd] in H0' |- *;
    [|exists 0%nat; split; [exact H0' | lia]].
  pose proof (saved_first_imsave_cwd name w 0 w1 "_Translation.JPG" eq_refl H0') as H1.
  set (w2 := snd (imsave_cwd _ w1)) in *.
  change (imsave_cwd (py_stem name +:+ "_Translation.JPG") w1) with (Ok tt, w2).
  cbv beta iota.
  pose proof (saved_first_lift_rand name w 1 (randint 0 2) w2 H1) as H1'.
  destruct (lift_rand (randint 0 2) w2) as [[axis|e] w3]; cbn [fst snd] in H1' |- *;
    [|exists 1%nat; split; [exact H1' | lia]].
  unfold lift_result. cbv beta.
  destruct (flip img axis) as [flipped|e]; cbn [fst snd];
    [|exists 1%nat; split; [exact H1' | lia]].
  pose proof (saved_first_imsave_cwd name w 1 w3 "_Flip.JPG" eq_refl H1') as H2.
  set (w4 := snd (imsave_cwd _ w3)) in *.
  change (imsave_cwd (py_stem name +:+ "_Flip.JPG") w3) with (Ok tt, w4).
  cbv beta iota.
  pose proof (saved_first_lift_rand name w 2 (rotate img) w4 H2) as H2'.
  destruct (lift_rand (rotate img) w4) as [[rotated|e] w5]; cbn [fst snd] in H2' |- *;
    [|exists 2%nat; split; [exact H2' | lia]].
  pose proof (saved_first_imsave_cwd name w 2 w5 "_Rotate.JPG" eq_refl H2') as H3.
  set (w6 := snd (imsave_cwd _ w5)) in *.
  change (imsave_cwd (py_stem name +:+ "_Rotate.JPG") w5) with (Ok tt, w6).
  cbv beta iota.
  unfold lift_result. cbv beta.
  destruct (blur img) as [blurred|e]; cbn [fst snd];
    [|exists 3%nat; split; [exact H3 | lia]].
  pose proof (saved_first_imsave_cwd name w 3 w6 "_Blur.JPG" eq_refl H3) as H4.
  set (w7 := snd (imsave_cwd _ w6)) in *.
  change (imsave_cwd (py_stem name +:+ "_Blur.JPG") w6) with (Ok tt, w7).
  cbv beta iota.
  pose proof (saved_first_lift_rand name w 4 (crop img) w7 H4) as H4'.
  destruct (lift_rand (crop img) w7) as [[cropped|e] w8]; cbn [fst snd] in H4' |- *;
    [|exists 4%nat; split; [exact H4' | lia]].
  pose proof (saved_first_imsave_cwd name w 4 w8 "_Crop.JPG" eq_refl H4') as H5.
  set (w9 := snd (imsave_cwd _ w8)) in *.
  change (imsave_cwd (py_stem name +:+ "_Crop.JPG") w8) with (Ok tt, w9).
  cbv beta iota.
  pose proof (saved_first_imsave_cwd name w 5 w9 "_Contrast.JPG" eq_refl H5) as H6.
  exists 6%nat. split; [exact H6 | done].
Qed.

(** ** File names and their sort keys *)


Lemma string_app_nil_r s : s +:+ EmptyString = s.
Proof. induction s as [|a s IH]; [done|]. by rewrite string_app_cons, IH. Qed.

Lemma string_app_assoc s t u : (s +:+ t) +:+ u = s +:+ (t +:+ u).
Proof. induction s as [|a s IH]; [done|]. by rewrite !string_app_cons, IH. Qed.

Lemma string_length_app s t :
  String.length (s +:+ t) = (String.length s + String.length t)%nat.
Proof. induction s as [|a s IH]; [done|]. rewrite string_app_cons. cbn. by rewrite IH. Qed.

Lemma string_forall_app P s t :
  string_forall P (s +:+ t) = string_forall P s && string_forall P t.
Proof.
  induction s as [|a s IH]; [done|].
  rewrite string_app_cons. cbn. by rewrite IH, andb_assoc.
Qed.

Lemma string_forall_impl (P Q : ascii -> bool) s :
  (forall c, P c = true -> Q c = true) ->
  string_forall P s = true -> string_forall Q s = true.
Proof.
  intros HPQ. induction s as [|a s IH]; cbn; [done|].
  intros [Ha Hs]%andb_true_iff. by rewrite (HPQ _ Ha), IH.
Qed.

Lemma rev_app_app s t u : String.rev_app (s +:+ t) u = String.rev_app t (String.rev_app s u).
Proof.
  revert u. induction s as [|a s IH]; intros u; [done|].
  rewrite string_app_cons. cbn. apply IH.
Qed.

Lemma rev_app_rev_app s t u :
  String.rev_app (String.rev_app s t) u = String.rev_app t (s +:+ u).
Proof.
  revert t u. induction s as [|a s IH]; intros t u; [done|].
  cbn. rewrite IH. by rewrite string_app_cons.
Qed.

Lemma string_rev_involutive s : String.rev (String.rev s) = s.
Proof. unfold String.rev. rewrite rev_app_rev_app. cbn. apply string_app_nil_r. Qed.

Lemma string_forall_rev_app P s t :
  string_forall P (String.rev_app s t) = string_forall P s && string_forall P t.
Proof.
  revert t. induction s as [|a s IH]; intros t; [done|].
  cbn. rewrite IH. cbn. by destruct (P a), (string_forall P s).
Qed.

(** Stripping removes nothing from a string none of whose characters is
    stripped. *)
Lemma lstrip_none f s :
  string_forall (fun c => negb (f c)) s = true -> lstrip f s = s.
Proof.
  destruct s as [|a s]; cbn; [done|].
  intros [Ha _]%andb_true_iff. by destruct (f a).
Qed.

Lemma strip_none f s :
  string_forall (fun c => negb (f c)) s = true -> strip f s = s.
Proof.
  intros Hs. unfold strip, rstrip. rewrite (lstrip_none f s Hs).
  rewrite lstrip_none; [apply string_rev_involutive|].
  unfold String.rev. by rewrite string_forall_rev_app, Hs.
Qed.

(** [("(" + s + ")").strip("()")] is [s] when [s] holds no parenthesis. *)
Lemma strip_parens s :
  string_forall (fun c => negb (is_paren c)) s = true ->
  strip is_paren ("(" +:+ s +:+ ")") = s.
Proof.
  intros Hs. unfold strip. rewrite string_app_cons, string_app_nil.
  change (lstrip is_paren (String "(" (s +:+ ")"))) with (lstrip is_paren (s +:+ ")")).
  destruct s as [|a s]; [done|].
  assert (is_paren a = false) as Ha.
  { cbn in Hs. apply andb_true_iff in Hs as [Ha _]. by destruct (is_paren a). }
  rewrite string_app_cons. cbn [lstrip]. rewrite Ha, <- string_app_cons.
  unfold rstrip, String.rev. rewrite rev_app_app.
  change (String.rev_app ")" (String.rev_app (String a s) ""))
    with (String ")" (String.rev (String a s))).
  change (lstrip is_paren (String ")" (String.rev (String a s))))
    with (lstrip is_paren (String.rev (String a s))).
  rewrite lstrip_none; [apply string_rev_involutive|].
  unfold String.rev. by rewrite string_forall_rev_app, Hs.
Qed.

(** [s.split(" ")] of a string without a space is the string alone, and
    a space after such a string starts the next field. *)
Lemma split_space_none s :
  string_forall (fun c => negb (Ascii.eqb c " ")) s = true -> split_space s = [s].
Proof.
  induction s as [|a s IH]; cbn; [done|].
  intros [Ha Hs]%andb_true_iff. destruct (Ascii.eqb a " "); [done|].
  by rewrite (IH Hs).
Qed.

Lemma split_space_app s t :
  string_forall (fun c => negb (Ascii.eqb c " ")) s = true ->
  split_space (s +:+ String " " t) = s :: split_space t.
Proof.
  induction s as [|a s IH]; [done|].
  rewrite string_app_cons. cbn.
  intros [Ha Hs]%andb_true_iff. destruct (Ascii.eqb a " "); [done|].
  by rewrite (IH Hs).
Qed.

Lemma rfind_dot_app s t i found :
  rfind_dot (s +:+ t) i found = rfind_dot t (i + String.length s) (rfind_dot s i found).
Proof.
  revert i found. induction s as [|a s IH]; intros i found.
  - cbn. by rewrite Nat.add_0_r.
  - rewrite string_app_cons. cbn. rewrite IH. f_equal. lia.
Qed.

Lemma substring_prefix s t : String.substring 0 (String.length s) (s +:+ t) = s.
Proof.
  induction s as [|a s IH]; [cbn; by destruct t|].
  rewrite string_app_cons. cbn [String.length String.substring]. by rewrite IH.
Qed.

(** [Path(s + ".JPG").stem] is [s], for a non-empty [s]. *)
Lemma py_stem_JPG s : s <> EmptyString -> py_stem (s +:+ ".JPG") = s.
Proof.
  intros Hs. unfold py_stem. rewrite rfind_dot_app.
  change (rfind_dot ".JPG" (0 + String.length s) (rfind_dot s 0 None))
    with (Some (String.length s)).
  rewrite string_length_app.
  assert (String.length s <> 0%nat) as Hlen by (by destruct s).
  assert ((0 <? String.length s)%nat
          && (String.length s <? String.length s + String.length ".JPG" - 1)%nat = true)
    as ->.
  { apply andb_true_iff. split; apply Nat.ltb_lt; cbn [String.length]; lia. }
  apply substring_prefix.
Qed.

(** Decimal numerals *)
Lemma numeral_digits d : string_forall is_digit (NilEmpty.string_of_uint d) = true.
Proof. induction d; cbn; done. Qed.

Lemma nilzero_digits d : string_forall is_digit (NilZero.string_of_uint d) = true.
Proof. destruct d; try exact (numeral_digits _). reflexivity. Qed.

Lemma digit_no_paren c : is_digit c = true -> negb (is_paren c) = true.
Proof. destruct c as [[] [] [] [] [] [] [] []]; vm_compute; done. Qed.

Lemma digit_no_space c : is_digit c = true -> negb (Ascii.eqb c " ") = true.
Proof. destruct c as [[] [] [] [] [] [] [] []]; vm_compute; done. Qed.

Lemma digit_no_py_space c : is_digit c = true -> negb (is_py_space c) = true.
Proof. destruct c as [[] [] [] [] [] [] [] []]; vm_compute; done. Qed.

Lemma digits_value_digit c s acc b v :
  digit_of c = Some v -> digits_value (String c s) acc b = digits_value s (10 * acc + v) true.
Proof. intros Hc. cbn [digits_value]. by rewrite Hc. Qed.

Lemma digits_value_numeral d acc b :
  d <> Decimal.Nil \/ b = true ->
  digits_value (NilEmpty.string_of_uint d) (Z.of_nat acc) b
  = Some (Z.of_nat (Nat.of_uint_acc d acc)).
Proof.
  revert acc b. induction d as [|d IH|d IH|d IH|d IH|d IH|d IH|d IH|d IH|d IH|d IH];
    intros acc b Hb.
  1: { destruct Hb as [?| ->]; done. }
  all: cbn [NilEmpty.string_of_uint Nat.of_uint_acc].
  all: erewrite digits_value_digit by (vm_compute; reflexivity).
  all: rewrite <- (IH _ true) by (by right); f_equal.
  all: rewrite ?Nat2Z.inj_succ, Nat.tail_mul_spec, Nat2Z.inj_mul.
  all: change (Z.of_nat 10) with 10; lia.
Qed.

Lemma digit_is_ascii c : is_digit c = true -> (Ascii.nat_of_ascii c <? 128)%nat = true.
Proof. destruct c as [[] [] [] [] [] [] [] []]; vm_compute; done. Qed.

Lemma py_int_digits `{PyText} s v :
  string_forall is_digit s = true ->
  digits_value s 0 false = Some v ->
  py_int s = Ok v.
Proof.
  intros Hs Hv. unfold py_int, is_ascii_string.
  rewrite (string_forall_impl _ _ s digit_is_ascii Hs).
  unfold int_ascii. rewrite strip_none.
  2:{ eapply string_forall_impl; [apply digit_no_py_space | exact Hs]. }
  destruct s as [|c s]; [done|].
  apply andb_true_iff in Hs as [Hc _].
  destruct c as [[] [] [] [] [] [] [] []]; try discriminate Hc; by rewrite Hv.
Qed.

Lemma digits_value_numeral0 d :
  d <> Decimal.Nil ->
  digits_value (NilEmpty.string_of_uint d) 0 false = Some (Z.of_nat (Nat.of_uint d)).
Proof. intros Hd. exact (digits_value_numeral d 0%nat false (or_introl Hd)). Qed.

(** [int()] reads the decimal numeral of a natural number back. *)
Lemma py_int_numeral `{PyText} d : py_int (NilZero.string_of_uint d) = Ok (Z.of_nat (Nat.of_uint d)).
Proof.
  apply py_int_digits; [apply nilzero_digits|].
  destruct d; [vm_compute; reflexivity|..].
  all: match goal with
       | |- digits_value (NilZero.string_of_uint ?x) _ _ = _ =>
           change (NilZero.string_of_uint x) with (NilEmpty.string_of_uint x)
       end.
  all: apply digits_value_numeral0; discriminate.
Qed.

(** The key of "image (d).JPG" for a string [d] of digits is [int(d)]. *)
Lemma sort_key_digits `{PyText} d :
  string_forall is_digit d = true ->
  sort_key ("image (" +:+ d +:+ ").JPG") = py_int d.
Proof.
  intros Hd. unfold sort_key.
  replace ("image (" +:+ d +:+ ").JPG") with (("image (" +:+ d +:+ ")") +:+ ".JPG")
    by (by rewrite !string_app_assoc).
  rewrite py_stem_JPG by done.
  change ("image (" +:+ d +:+ ")") with ("image" +:+ String " " ("(" +:+ d +:+ ")")).
  rewrite split_space_app by reflexivity.
  rewrite split_space_none.
  2:{ change ("(" +:+ d +:+ ")") with (String "(" (d +:+ ")")).
      cbn [string_forall]. rewrite string_forall_app.
      rewrite (string_forall_impl _ _ d digit_no_space Hd). reflexivity. }
  rewrite strip_parens; [done|].
  exact (string_forall_impl _ _ d digit_no_paren Hd).
Qed.

(** The sort key of "image (n).JPG" is [n]. *)
Lemma sort_key_image_name `{PyText} (n : nat) : sort_key (image_name n) = Ok (Z.of_nat n).
Proof.
  unfold image_name. rewrite sort_key_digits by apply nilzero_digits.
  by rewrite py_int_numeral, DecimalNat.Unsigned.of_to.
Qed.

Lemma image_name_inj (m n : nat) : image_name m = image_name n -> m = n.
Proof.
  intros Heq. pose proof (sort_key_image_name (H := example_text) m) as Hm.
  rewrite Heq, sort_key_image_name in Hm. injection Hm as Hm. lia.
Qed.

Lemma fnmatch_image_name (n : nat) : fnmatch "image (*).JPG" (image_name n) = true.
Proof. apply fnmatch_image. by eexists. Qed.

(** ** Sorting numbered images *)


Lemma key_of_image_name `{PyText} (k : nat) : key_of (image_name k) = Z.of_nat k.
Proof. unfold key_of. by rewrite sort_key_image_name. Qed.

Lemma seq_sorted (a n : nat) : StronglySorted le (seq a n).
Proof.
  revert a. induction n as [|n IH]; intros a; cbn; constructor; [apply IH|].
  apply Forall_forall. intros k Hk%elem_of_seq. lia.
Qed.

Lemma sorted_by_key_numbered_names `{PyText} (names : list string) (ks : list nat) :
  names ≡ₚ map image_name ks ->
  StronglySorted le ks ->
  sorted_by_key names = Ok (map image_name ks).
Proof.
  intros Hperm Hks.
  assert (Forall (fun n => exists k : nat, n = image_name k) names) as Hnames.
  { apply Forall_forall. intros n Hn. rewrite Hperm in Hn.
    apply list_elem_of_fmap in Hn as (k & -> & _). by exists k. }
  destruct (with_keys_ok names) as [l Hl].
  { eapply Forall_impl; [exact Hnames|]. intros n [k ->]. eexists.
    apply sort_key_image_name. }
  destruct (with_keys_spec names l Hl) as [Hsnd Hall].
  unfold sorted_by_key. rewrite Hl. f_equal.
  set (l' := foldr insert_by_key [] l).
  assert (l' ≡ₚ l) as Hl' by apply foldr_insert_perm.
  assert (Forall (fun kn : Z * string =>
                    fst kn = key_of (snd kn)
                    /\ snd kn = image_name (Z.to_nat (fst kn))) l') as Hpairs.
  { rewrite Hl'. apply Forall_forall. intros [k n] Hkn. cbn.
    pose proof (proj1 (Forall_forall _ _) Hall _ Hkn) as Hk. cbn in Hk.
    assert (n ∈ names) as Hn.
    { rewrite <- Hsnd. apply list_elem_of_fmap. by exists (k, n). }
    destruct (proj1 (Forall_forall _ _) Hnames _ Hn) as [i ->].
    rewrite sort_key_image_name in Hk. injection Hk as <-.
    by rewrite key_of_image_name, Nat2Z.id. }
  assert (map fst l' = map Z.of_nat ks) as Hkeys.
  { apply (StronglySorted_unique Z.le).
    - clear -l'. subst l'. generalize (foldr_insert_sorted l).
      generalize (foldr insert_by_key [] l). intros s Hs.
      induction Hs as [|a s _ IH Ha]; cbn; constructor; [done|].
      by apply Forall_fmap.
    - clear -Hks. induction Hks as [|a s _ IH Ha]; cbn; constructor; [done|].
      apply Forall_fmap. eapply Forall_impl; [exact Ha|]. cbn. lia.
    - assert (map fst l' = map key_of (map snd l')) as ->.
      { rewrite <- list_fmap_compose. apply Forall_fmap_ext_1.
        eapply Forall_impl; [exact Hpairs|]. by intros kn [Hk _]. }
      rewrite Hl', Hsnd, Hperm.
      assert (map key_of (map image_name ks) = map Z.of_nat ks) as ->; [|done].
      rewrite <- list_fmap_compose. apply list_fmap_ext. intros _ k _. cbn.
      apply key_of_image_name. }
  transitivity (map (fun z => image_name (Z.to_nat z)) (map fst l')).
  - rewrite <- list_fmap_compose. apply Forall_fmap_ext_1.
    eapply Forall_impl; [exact Hpairs|]. by intros kn [_ Hn].
  - rewrite Hkeys, <- list_fmap_compose. apply list_fmap_ext.
    intros _ k _. cbn. by rewrite Nat2Z.id.
Qed.

(** The key lambda of the split reads the index back: the sort key of
    "image (n).JPG" is [n], for every natural number [n] written in
    decimal. *)
Theorem sort_key_reads_index `{PyText} (n : nat) : sort_key (image_name n) = Ok (Z.of_nat n).
Proof. exact (sort_key_image_name n). Qed.

(** [sorted] with the key of the split puts numbered images in numeric
    order: whatever the order in which the names "image (k).JPG" arrive,
    the result lists them by ascending [k], so "image (10).JPG" comes
    after "image (2).JPG". *)
Theorem sorted_by_key_numbered `{PyText} (names : list string) (ks : list nat) :
  names ≡ₚ map image_name ks ->
  StronglySorted le ks ->
  sorted_by_key names = Ok (map image_name ks).
Proof. exact (sorted_by_key_numbered_names names ks). Qed.

Lemma sorted_by_key_numbered_witness :
  sorted_by_key (text := example_text) ["image (10).JPG"; "image (2).JPG"; "image (1).JPG"]%string
  = Ok (map image_name [1; 2; 10]%nat).
Proof.
  apply (sorted_by_key_numbered (H := example_text)
           ["image (10).JPG"; "image (2).JPG"; "image (1).JPG"]%string [1; 2; 10]%nat).
  - change (reverse (map image_name [1; 2; 10]%nat) ≡ₚ map image_name [1; 2; 10]%nat).
    apply reverse_Permutation.
  - repeat constructor; lia.
Defined.

(** A class directory whose matched files are "image (k).JPG" for the
    numbers [ks]: whatever the order of the listing and whatever other
    files the directory holds, the script copies the images with the 25
    smallest numbers to validation and the others to training, each
    group in ascending order, training first. *)
Theorem split_numbered_directory `{PyText}
    (w : split_world) (name : string) (files : listing) (ks : list nat) :
  s_fs w !! (input_dir, name) = Some files ->
  glob_images files ≡ₚ map image_name ks ->
  StronglySorted le ks ->
  exists w',
    split_subdir name w = (Ok tt, w')
    /\ s_copies w' = s_copies w
                     ++ copies_into output_train_dir name (map image_name (drop 25 ks))
                     ++ copies_into output_valid_dir name (map image_name (take 25 ks)).
Proof.
  intros Hsrc Hperm Hks.
  pose proof (sorted_by_key_numbered_names _ _ Hperm Hks) as Hsorted.
  destruct (split_subdir_run w name files Hsrc)
    as (images & w' & _ & _ & Hrun & Himages & _ & _ & Hlog & _).
  { apply Forall_forall. intros n Hn. rewrite Hperm in Hn.
    apply list_elem_of_fmap in Hn as (k & -> & _). eexists. apply sort_key_image_name. }
  rewrite Hsorted in Himages. injection Himages as <-.
  exists w'. split; [done|].
  rewrite Hlog. unfold copies_into.
  by rewrite <- !(fmap_drop image_name), <- !(fmap_take image_name).
Qed.

Lemma split_numbered_directory_witness :
  exists w',
    split_subdir (text := example_text) "Apple" (apple_world 27) = (Ok tt, w')
    /\ s_copies w' = s_copies (apple_world 27)
                     ++ copies_into output_train_dir "Apple"
                          (map image_name (drop 25 (seq 1 27)))
                     ++ copies_into output_valid_dir "Apple"
                          (map image_name (take 25 (seq 1 27))).
Proof.
  apply (split_numbered_directory (H := example_text) (apple_world 27) "Apple"
           (map (fun i => (image_name i, "jpeg"%string)) (reverse (seq 1 27))) (seq 1 27)).
  - reflexivity.
  - assert (glob_images (map (fun i => (image_name i, "jpeg"%string)) (reverse (seq 1 27)))
            = reverse (map image_name (seq 1 27))) as -> by (vm_compute; reflexivity).
    apply reverse_Permutation.
  - apply seq_sorted.
Defined.

(** ** The whole split *)


Lemma sp_keeps_bind {A B} (I : split_world -> Prop) (m : Sp A) (k : A -> Sp B) :
  sp_keeps I m -> (forall a, sp_keeps I (k a)) -> sp_keeps I (bind m k).
Proof.
  intros Hm Hk w r w' HI. unfold bind.
  destruct (m w) as [[a|e] w1] eqn:Hrun.
  - apply (Hk a). by apply (Hm w (Ok a) w1).
  - intros [= <- <-]. by apply (Hm w (Raise e) w1).
Qed.

Lemma sp_keeps_ret {A} (I : split_world -> Prop) (a : A) : sp_keeps I (ret a).
Proof. by intros w r w' HI [= <- <-]. Qed.

Lemma sp_keeps_lift_result {A} (I : split_world -> Prop) (r : result A) :
  sp_keeps I (lift_result r).
Proof. by intros w r' w' HI [= <- <-]. Qed.

Lemma sp_keeps_for_each {A} (I : split_world -> Prop) (l : list A) (body : A -> Sp unit) :
  (forall x, sp_keeps I (body x)) -> sp_keeps I (for_each l body).
Proof.
  intros Hbody. induction l as [|x l IH]; cbn [for_each]; [apply sp_keeps_ret|].
  apply sp_keeps_bind; [apply Hbody | intros _; apply IH].
Qed.

Lemma sp_keeps_split_subdir `{PyText} (I : split_world -> Prop) name :
  sp_keeps I (mkdir (output_train_dir, name)) ->
  sp_keeps I (mkdir (output_valid_dir, name)) ->
  (forall root n, root = output_train_dir \/ root = output_valid_dir ->
     sp_keeps I (shutil_copy (input_dir, name, n) (root, name, n))) ->
  sp_keeps I (split_subdir name).
Proof.
  intros Ht Hv Hc w r w' HI. unfold split_subdir.
  destruct (s_fs w !! (input_dir, name)) as [files|]; [|by intros [= <- <-]].
  revert w r w' HI.
  apply sp_keeps_bind; [done|]. intros _.
  apply sp_keeps_bind; [done|]. intros _.
  apply sp_keeps_bind; [apply sp_keeps_lift_result|]. intros images.
  apply sp_keeps_bind; [|intros _]; apply sp_keeps_for_each; intros n; apply Hc; auto.
Qed.

(** *** Nothing is removed *)

Lemma holds_file_mkdir d0 n d : sp_keeps (fun w => holds_file w d0 n) (mkdir d).
Proof.
  intros w r w' (l & Hl & Hn). unfold mkdir.
  destruct (s_fs w !! d) as [old|] eqn:Hd; intros [= <- <-]; [by exists l|].
  exists l. split; [|done]. cbn. rewrite lookup_insert_ne; [done|]. congruence.
Qed.

Lemma holds_file_shutil_copy d0 n src dst :
  sp_keeps (fun w => holds_file w d0 n) (shutil_copy src dst).
Proof.
  intros w r w' (l & Hl & Hn). unfold shutil_copy.
  destruct src as [[sroot sdir] sname], dst as [[droot ddir] dname].
  destruct (s_fs w !! (sroot, sdir) ≫= read_file sname) as [content|];
    [|intros [= <- <-]; by exists l].
  destruct (s_fs w !! (droot, ddir)) as [files|] eqn:Hdst;
    intros [= <- <-]; [|by exists l].
  unfold holds_file. cbn. destruct (decide (d0 = (droot, ddir))) as [->|Hne].
  - rewrite lookup_insert_eq. eexists. split; [done|].
    rewrite read_write_file. case_decide; [done|].
    by pose proof (eq_trans (eq_sym Hdst) Hl) as [= ->].
  - rewrite lookup_insert_ne by done. by exists l.
Qed.

Lemma holds_file_split_dataset `{PyText} d0 n entries :
  sp_keeps (fun w => holds_file w d0 n) (split_dataset entries).
Proof.
  apply sp_keeps_for_each. intros name. apply sp_keeps_split_subdir.
  - apply holds_file_mkdir.
  - apply holds_file_mkdir.
  - intros. apply holds_file_shutil_copy.
Qed.

(** The split never removes a file: whatever a directory of [images],
    [training] or [validation] holds before the script runs, it still
    holds under the same name when the script has run, to its end or to
    an exception.  So the copies of an earlier split stay where they are,
    also when the image has since moved to the other side of the
    boundary. *)
Theorem split_never_removes `{PyText} (entries : list string) (w : split_world)
    (d : dir_key) (n : string) :
  holds_file w d n -> holds_file (snd (split_dataset entries w)) d n.
Proof.
  intros Hn. destruct (split_dataset entries w) as [r w'] eqn:Hrun.
  exact (holds_file_split_dataset d n entries w r w' Hn Hrun).
Qed.

Lemma split_never_removes_witness :
  holds_file
    (snd (split_dataset (text := example_text) ["Apple"]%string
       {| s_fs := {[ (input_dir, "Apple"%string) := [("image (1).JPG", "new")]%string;
                     (output_train_dir, "Apple"%string) := [("image (9).JPG", "old")]%string ]};
          s_copies := [] |}))
    (output_train_dir, "Apple"%string) "image (9).JPG".
Proof.
  apply (split_never_removes (H := example_text)). eexists. split; [reflexivity|]. by eexists.
Defined.

(** *** What the loop body leaves alone *)

Lemma frame_mkdir k v d : k <> d -> sp_keeps (fun w => s_fs w !! k = v) (mkdir d).
Proof.
  intros Hk w r w' Hw. unfold mkdir.
  destruct (s_fs w !! d); intros [= <- <-]; [done|].
  cbn. by rewrite lookup_insert_ne.
Qed.

Lemma frame_shutil_copy k v sroot sdir sname droot ddir dname :
  k <> (droot, ddir) ->
  sp_keeps (fun w => s_fs w !! k = v)
           (shutil_copy (sroot, sdir, sname) (droot, ddir, dname)).
Proof.
  intros Hk w r w' Hw. unfold shutil_copy.
  destruct (s_fs w !! (sroot, sdir) ≫= read_file sname) as [content|];
    [|by intros [= <- <-]].
  destruct (s_fs w !! (droot, ddir)) as [files|]; intros [= <- <-]; [|done].
  cbn. by rewrite lookup_insert_ne.
Qed.

(** The loop body changes the two output directories of its class and
    nothing else. *)
Lemma split_subdir_frame `{PyText} name w k :
  k <> (output_train_dir, name) -> k <> (output_valid_dir, name) ->
  s_fs (snd (split_subdir name w)) !! k = s_fs w !! k.
Proof.
  intros Ht Hv. destruct (split_subdir name w) as [r w'] eqn:Hrun.
  refine (sp_keeps_split_subdir (fun w' => s_fs w' !! k = s_fs w !! k) name
            _ _ _ w r w' eq_refl Hrun).
  - by apply frame_mkdir.
  - by apply frame_mkdir.
  - intros root n [-> | ->]; by apply frame_shutil_copy.
Qed.

Lemma class_copies_ext `{PyText} w w' name :
  s_fs w' !! (input_dir, name) = s_fs w !! (input_dir, name) ->
  class_copies w' name = class_copies w name.
Proof. intros Heq. unfold class_copies. by rewrite Heq. Qed.

(** *** Running the loop body again *)

Lemma write_file_same n c (l : listing) : read_file n l = Some c -> write_file n c l = l.
Proof.
  induction l as [|[m c'] l IH]; cbn; [done|].
  destruct (String.eqb m n) eqn:Hm.
  - apply String.eqb_eq in Hm as ->. by intros [= ->].
  - intros Hr. by rewrite IH.
Qed.

Lemma copy_all_same sub root names (files cur : listing) w :
  s_fs w !! (input_dir, sub) = Some files ->
  s_fs w !! (root, sub) = Some cur ->
  Forall (fun n => is_Some (read_file n files) /\ read_file n cur = read_file n files) names ->
  exists w', copy_all sub root names w = (Ok tt, w') /\ s_fs w' = s_fs w.
Proof.
  intros Hsrc Hdst. unfold copy_all. revert w Hsrc Hdst.
  induction names as [|n names IH]; intros w Hsrc Hdst Hnames; [by exists w|].
  apply Forall_cons in Hnames as [[[c Hc] Hn] Hnames].
  set (w1 := {| s_fs := s_fs w;
                s_copies := s_copies w ++ [((input_dir, sub, n), (root, sub, n))] |}).
  assert (shutil_copy (input_dir, sub, n) (root, sub, n) w = (Ok tt, w1)) as Hcopy.
  { unfold shutil_copy. rewrite Hsrc, Hdst. cbn. rewrite Hc.
    rewrite write_file_same by congruence.
    by rewrite (insert_id _ _ _ Hdst). }
  destruct (IH w1 Hsrc Hdst Hnames) as (w' & Hrun & Hfs).
  exists w'. split; [|done].
  cbn [for_each]. by rewrite (bind_ok _ _ _ _ _ Hcopy).
Qed.

Lemma mkdir_existing (d : dir_key) w (l : listing) :
  s_fs w !! d = Some l -> mkdir d w = (Ok tt, w).
Proof. intros Hd. unfold mkdir. by rewrite Hd. Qed.

(** A world in which the class [name] is already split: its output
    directories exist and hold what the loop body would copy. *)
Lemma split_subdir_settled `{PyText} name w (files train valid : listing) :
  s_fs w !! (input_dir, name) = Some files ->
  s_fs w !! (output_train_dir, name) = Some train ->
  s_fs w !! (output_valid_dir, name) = Some valid ->
  match sorted_by_key (glob_images files) with
  | Raise _ => True
  | Ok images =>
      Forall (fun n => is_Some (read_file n files)
                       /\ read_file n train = read_file n files) (drop 25 images)
      /\ Forall (fun n => is_Some (read_file n files)
                          /\ read_file n valid = read_file n files) (take 25 images)
  end ->
  s_fs (snd (split_subdir name w)) = s_fs w.
Proof.
  intros Hsrc Ht Hv Hsorted. unfold split_subdir. rewrite Hsrc.
  pose proof (mkdir_existing _ _ _ Ht) as Hm1.
  pose proof (mkdir_existing _ _ _ Hv) as Hm2.
  rewrite (bind_ok _ _ _ _ _ Hm1), (bind_ok _ _ _ _ _ Hm2).
  unfold lift_result at 1. unfold bind at 1.
  destruct (sorted_by_key (glob_images files)) as [images|e]; [|done].
  destruct Hsorted as [Htrain Hvalid].
  destruct (copy_all_same name output_train_dir (drop 25 images) files train w)
    as (w1 & Hrun1 & Hfs1); [done..|].
  destruct (copy_all_same name output_valid_dir (take 25 images) files valid w1)
    as (w2 & Hrun2 & Hfs2); [by rewrite Hfs1..|done|].
  rewrite (bind_ok _ _ _ _ _ Hrun1), Hrun2. cbn. by rewrite Hfs2, Hfs1.
Qed.

(** Running the loop body for a class a second time changes no file:
    what the first run left in [training] and [validation], complete or
    cut short by an exception, is what the second run leaves. *)
Theorem split_subdir_rerun_changes_nothing `{PyText} (name : string) (w : split_world) :
  s_fs (snd (split_subdir name (snd (split_subdir name w))))
  = s_fs (snd (split_subdir name w)).
Proof.
  destruct (s_fs w !! (input_dir, name)) as [files|] eqn:Hsrc.
  2:{ unfold split_subdir at 2. rewrite Hsrc. cbn [snd].
      unfold split_subdir. by rewrite Hsrc. }
  destruct (forallb has_key (glob_images files)) eqn:Hkeys.
  - destruct (split_subdir_run w name files Hsrc (has_key_all _ Hkeys))
      as (images & w' & valid & train & Hrun & Hsorted & _ & _ & _ & Hv & Ht
          & Hrv & Hrt & Hframe).
    rewrite Hrun. cbn [snd].
    apply (split_subdir_settled name w' files train valid);
      [by rewrite Hframe | done | done |].
    rewrite Hsorted. split; apply Forall_forall; intros n Hn; [by apply Hrt | by apply Hrv].
  - destruct (mkdir_run (output_train_dir, name) w) as (w1 & Hrun1 & _ & [t0 Ht0] & Hfr1).
    destruct (mkdir_run (output_valid_dir, name) w1) as (w2 & Hrun2 & _ & [v0 Hv0] & Hfr2).
    assert (exists e, sorted_by_key (glob_images files) = Raise e) as [e He].
    { unfold sorted_by_key.
      destruct (with_keys (glob_images files)) as [l|e] eqn:Hl; [|by exists e].
      apply with_keys_spec in Hl as [Hsnd Hall].
      assert (forallb has_key (glob_images files) = true) as Hgood; [|congruence].
      rewrite <- Hsnd. clear -Hall. induction Hall as [|[k n] l Hk _ IH]; cbn; [done|].
      cbn in Hk. unfold has_key at 1. by rewrite Hk. }
    assert (split_subdir name w = (Raise e, w2)) as Hrun.
    { unfold split_subdir. rewrite Hsrc.
      rewrite (bind_ok _ _ _ _ _ Hrun1), (bind_ok _ _ _ _ _ Hrun2).
      unfold lift_result, bind. by rewrite He. }
    rewrite Hrun. cbn [snd].
    apply (split_subdir_settled name w2 files t0 v0).
    + rewrite Hfr2, Hfr1 by (unfold input_dir, output_train_dir, output_valid_dir; congruence).
      done.
    + rewrite Hfr2 by (unfold output_train_dir, output_valid_dir; congruence). done.
    + done.
    + by rewrite He.
Qed.


(** *** No image on both sides *)

(** For a class directory whose matched files all carry an integer key
    and whose listing names no file twice: no image is copied to both
    [validation] and [training], and no training image has a smaller key
    than a validation image. *)
Theorem split_sides_disjoint `{PyText} (w : split_world) (name : string) (files : listing) :
  s_fs w !! (input_dir, name) = Some files ->
  NoDup (map fst files) ->
  forallb has_key (glob_images files) = true ->
  exists images w',
    split_subdir name w = (Ok tt, w')
    /\ s_copies w' = s_copies w
                     ++ copies_into output_train_dir name (drop 25 images)
                     ++ copies_into output_valid_dir name (take 25 images)
    /\ forall v t, v ∈ take 25 images -> t ∈ drop 25 images -> v <> t /\ key_le v t.
Proof.
  intros Hsrc Hnodup Hkeys.
  destruct (split_subdir_run w name files Hsrc (has_key_all _ Hkeys))
    as (images & w' & _ & _ & Hrun & _ & Hperm & Hord & Hlog & _).
  exists images, w'. split; [done|]. split; [done|].
  intros v t Hv Ht.
  assert (NoDup (take 25 images ++ drop 25 images)) as Hnd.
  { rewrite take_drop, Hperm. unfold glob_images. by apply NoDup_filter. }
  apply NoDup_app in Hnd as (_ & Hdisj & _).
  split.
  - intros ->. by apply (Hdisj t).
  - rewrite <- (take_drop 25 images) in Hord.
    by apply (StronglySorted_app_1_elem_of _ _ _ _ _ Hord).
Qed.

Lemma split_sides_disjoint_witness :
  exists images w',
    split_subdir (text := example_text) "Apple" (apple_world 27) = (Ok tt, w')
    /\ s_copies w' = s_copies (apple_world 27)
                     ++ copies_into output_train_dir "Apple" (drop 25 images)
                     ++ copies_into output_valid_dir "Apple" (take 25 images)
    /\ forall v t, v ∈ take 25 images -> t ∈ drop 25 images ->
                     v <> t /\ key_le (text := example_text) v t.
Proof.
  apply (split_sides_disjoint (H := example_text) (apple_world 27) "Apple"
           (map (fun i => (image_name i, "jpeg"%string)) (reverse (seq 1 27)))).
  - reflexivity.
  - rewrite <- list_fmap_compose, reverse_Permutation.
    apply NoDup_fmap_2_strong; [|apply NoDup_seq].
    intros i j _ _. apply image_name_inj.
  - vm_compute. reflexivity.
Defined.

(** *** The loop over the entries of [images/] *)

Lemma for_each_app {S A} (l1 l2 : list A) (body : A -> M S unit) s :
  for_each (l1 ++ l2) body s = (for_each l1 body ;;; for_each l2 body) s.
Proof.
  revert s. induction l1 as [|x l1 IH]; intros s; cbn [for_each app]; [done|].
  unfold bind. destruct (body x s) as [[[]|e] s1]; [|done].
  by rewrite IH.
Qed.

Lemma all_keyed_step `{PyText} name entries w w' :
  all_keyed (name :: entries) w ->
  (forall c, s_fs w' !! (input_dir, c) = s_fs w !! (input_dir, c)) ->
  all_keyed entries w'.
Proof.
  intros Hkeyed Hframe c files Hc Hfiles. rewrite Hframe in Hfiles.
  apply (Hkeyed c files); [by right | done].
Qed.

(** The loop body on any entry of a keyed listing: it returns, logs the
    copies of the class, and touches no other class. *)
Lemma split_subdir_step `{PyText} name w :
  all_keyed [name] w ->
  exists w',
    split_subdir name w = (Ok tt, w')
    /\ s_copies w' = s_copies w ++ class_copies w name
    /\ (forall c, s_fs w' !! (input_dir, c) = s_fs w !! (input_dir, c))
    /\ (forall root c, c <> name -> s_fs w' !! (root, c) = s_fs w !! (root, c))
    /\ (forall files, s_fs w !! (input_dir, name) = Some files ->
        exists images valid train,
          sorted_by_key (glob_images files) = Ok images
          /\ s_fs w' !! (output_valid_dir, name) = Some valid
          /\ s_fs w' !! (output_train_dir, name) = Some train
          /\ (forall n, n ∈ take 25 images -> read_file n valid = read_file n files)
          /\ (forall n, n ∈ drop 25 images -> read_file n train = read_file n files)).
Proof.
  intros Hkeyed.
  assert (forall root c, c <> name ->
            s_fs (snd (split_subdir name w)) !! (root, c) = s_fs w !! (root, c)) as Hother.
  { intros root c Hc. apply split_subdir_frame; congruence. }
  destruct (s_fs w !! (input_dir, name)) as [files|] eqn:Hsrc.
  - assert (forallb has_key (glob_images files) = true) as Hkeys.
    { apply (Hkeyed name files); [by left | done]. }
    destruct (split_subdir_run w name files Hsrc (has_key_all _ Hkeys))
      as (images & w' & valid & train & Hrun & Hsorted & _ & _ & Hlog & Hv & Ht
          & Hrv & Hrt & Hframe).
    rewrite Hrun in Hother. exists w'.
    split; [done|]. split; [|split; [done|split; [done|]]].
    + unfold class_copies. by rewrite Hsrc, Hsorted.
    + intros ? [= <-]. exists images, valid, train.
      repeat (split; [done|]). split; intros n Hn; [by apply Hrv | by apply Hrt].
  - exists w. unfold split_subdir, class_copies. rewrite Hsrc, app_nil_r.
    repeat (split; [done|]). done.
Qed.

Lemma split_dataset_run `{PyText} entries : forall w,
  all_keyed entries w ->
  exists w',
    split_dataset entries w = (Ok tt, w')
    /\ s_copies w' = s_copies w ++ flat_map (class_copies w) entries
    /\ (forall c, s_fs w' !! (input_dir, c) = s_fs w !! (input_dir, c))
    /\ (forall root c, c ∉ entries -> s_fs w' !! (root, c) = s_fs w !! (root, c))
    /\ (NoDup entries ->
        forall name files,
          name ∈ entries -> s_fs w !! (input_dir, name) = Some files ->
          exists images valid train,
            sorted_by_key (glob_images files) = Ok images
            /\ s_fs w' !! (output_valid_dir, name) = Some valid
            /\ s_fs w' !! (output_train_dir, name) = Some train
            /\ (forall n, n ∈ take 25 images -> read_file n valid = read_file n files)
            /\ (forall n, n ∈ drop 25 images -> read_file n train = read_file n files)).
Proof.
  unfold split_dataset. induction entries as [|name entries IH]; intros w Hkeyed.
  { exists w. cbn. rewrite app_nil_r. repeat (split; [done|]).
    intros _ name files Hin. by apply elem_of_nil in Hin. }
  destruct (split_subdir_step name w) as (w1 & Hrun1 & Hlog1 & Hin1 & Hother1 & Hclass1).
  { intros c files Hc. apply Hkeyed. apply list_elem_of_singleton in Hc as ->. by left. }
  destruct (IH w1 (all_keyed_step _ _ _ _ Hkeyed Hin1))
    as (w' & Hrun & Hlog & Hin & Hother & Hclass).
  exists w'. split; [|split; [|split; [|split]]].
  - cbn [for_each]. by rewrite (bind_ok _ _ _ _ _ Hrun1).
  - rewrite Hlog, Hlog1. cbn [flat_map]. rewrite <- app_assoc. do 2 f_equal.
    apply flat_map_ext. intros c. by apply class_copies_ext.
  - intros c. by rewrite Hin, Hin1.
  - intros root c Hc. apply not_elem_of_cons in Hc as [Hne Hc].
    by rewrite Hother, Hother1.
  - intros Hnd name' files Hname' Hfiles.
    apply NoDup_cons in Hnd as [Hfresh Hnd].
    apply elem_of_cons in Hname' as [->|Hname'].
    + destruct (Hclass1 files Hfiles) as (images & valid & train & Hs & Hv & Ht & Hrv & Hrt).
      exists images, valid, train. split; [done|].
      by rewrite !Hother.
    + apply (Hclass Hnd); [done|]. by rewrite Hin1.
Qed.

(** The whole script, for a listing of [images/] that names no entry
    twice and class directories whose matched files all carry an integer
    key: it runs to its end; entries that are no directories are
    skipped; the copies are those of the classes, class after class in
    listing order; [images/] is as it was; and when the script ends every
    class still has its split, the 25 lowest keys in [validation] and the
    others in [training], each copy with the content of its source. *)
Theorem split_dataset_splits_every_class `{PyText} (entries : list string) (w : split_world) :
  NoDup entries ->
  all_keyed entries w ->
  exists w',
    split_dataset entries w = (Ok tt, w')
    /\ s_copies w' = s_copies w ++ flat_map (class_copies w) entries
    /\ (forall c, s_fs w' !! (input_dir, c) = s_fs w !! (input_dir, c))
    /\ (forall name files,
          name ∈ entries -> s_fs w !! (input_dir, name) = Some files ->
          exists images valid train,
            sorted_by_key (glob_images files) = Ok images
            /\ s_fs w' !! (output_valid_dir, name) = Some valid
            /\ s_fs w' !! (output_train_dir, name) = Some train
            /\ (forall n, n ∈ take 25 images -> read_file n valid = read_file n files)
            /\ (forall n, n ∈ drop 25 images -> read_file n train = read_file n files)).
Proof.
  intros Hnd Hkeyed.
  destruct (split_dataset_run entries w Hkeyed) as (w' & Hrun & Hlog & Hin & _ & Hclass).
  exists w'. repeat (split; [done|]). by apply Hclass.
Qed.


Lemma two_class_world_keyed :
  all_keyed (text := example_text) ["Apple"; "README.md"; "Grape"]%string two_class_world.
Proof.
  intros name files Hname Hfiles.
  repeat (apply elem_of_cons in Hname as [->|Hname];
          [vm_compute in Hfiles; try discriminate Hfiles;
           injection Hfiles as <-; vm_compute; reflexivity|]).
  by apply elem_of_nil in Hname.
Qed.

Lemma split_dataset_splits_every_class_witness :
  exists w',
    split_dataset (text := example_text) ["Apple"; "README.md"; "Grape"]%string two_class_world = (Ok tt, w')
    /\ s_copies w' = s_copies two_class_world
                     ++ flat_map (class_copies (text := example_text) two_class_world)
                          ["Apple"; "README.md"; "Grape"]%string
    /\ (forall c, s_fs w' !! (input_dir, c) = s_fs two_class_world !! (input_dir, c))
    /\ (forall name files,
          name ∈ ["Apple"; "README.md"; "Grape"]%string ->
          s_fs two_class_world !! (input_dir, name) = Some files ->
          exists images valid train,
            sorted_by_key (text := example_text) (glob_images files) = Ok images
            /\ s_fs w' !! (output_valid_dir, name) = Some valid
            /\ s_fs w' !! (output_train_dir, name) = Some train
            /\ (forall n, n ∈ take 25 images -> read_file n valid = read_file n files)
            /\ (forall n, n ∈ drop 25 images -> read_file n train = read_file n files)).
Proof.
  apply (split_dataset_splits_every_class (H := example_text)
           ["Apple"; "README.md"; "Grape"]%string two_class_world).
  - apply (bool_decide_unpack _). vm_compute. exact I.
  - exact two_class_world_keyed.
Defined.

(** *** A file name without an integer key *)

Lemma split_space_not_nil s : split_space s <> [].
Proof.
  induction s as [|a s IH]; cbn; [done|].
  destruct (Ascii.eqb a " "); [done|]. by destruct (split_space s).
Qed.

Lemma py_int_raises `{PyText} s e : py_int s = Raise e -> e = ValueError.
Proof.
  unfold py_int. destruct (is_ascii_string s); [|apply int_unicode_raises].
  unfold int_ascii. intros Hr.
  repeat case_match; congruence.
Qed.

(** The key of a name the glob selects is an integer, or [int()] raises
    [ValueError]: the name has a second field, so no [IndexError]. *)
Lemma sort_key_glob_raises `{PyText} name e :
  fnmatch "image (*).JPG" name = true -> sort_key name = Raise e -> e = ValueError.
Proof.
  intros [mid ->]%fnmatch_image. unfold sort_key.
  replace ("image (" +:+ mid +:+ ").JPG") with (("image (" +:+ mid +:+ ")") +:+ ".JPG")
    by (by rewrite !string_app_assoc).
  rewrite py_stem_JPG by done.
  change ("image (" +:+ mid +:+ ")") with ("image" +:+ String " " ("(" +:+ mid +:+ ")")).
  rewrite split_space_app by reflexivity.
  pose proof (split_space_not_nil ("(" +:+ mid +:+ ")")) as Hfields.
  destruct (split_space ("(" +:+ mid +:+ ")")) as [|field fields]; [done|].
  apply py_int_raises.
Qed.

Lemma sorted_by_key_glob_raises `{PyText} (files : listing) :
  forallb has_key (glob_images files) = false ->
  sorted_by_key (glob_images files) = Raise ValueError.
Proof.
  intros Hbad. unfold sorted_by_key.
  destruct (with_keys (glob_images files)) as [l|e] eqn:Hl.
  - apply with_keys_spec in Hl as [Hsnd Hall].
    assert (forallb has_key (glob_images files) = true) as Hgood; [|congruence].
    rewrite <- Hsnd. clear -Hall. induction Hall as [|[k n] l Hk _ IH]; cbn; [done|].
    cbn in Hk. unfold has_key at 1. by rewrite Hk.
  - apply with_keys_raises in Hl as (n & Hn & Hkey).
    unfold glob_images in Hn. apply list_elem_of_filter in Hn as [Hm%Is_true_true _].
    by rewrite (sort_key_glob_raises n e Hm Hkey).
Qed.

(** One selected file without an integer key stops the whole script with
    [ValueError]: the classes listed before that class are split, that
    class gets its two output directories and no copy, and the classes
    listed after it are never reached. *)
Theorem split_dataset_stops_at_bad_key `{PyText}
    (before after : list string) (bad : string) (files : listing) (w : split_world) :
  all_keyed before w ->
  s_fs w !! (input_dir, bad) = Some files ->
  forallb has_key (glob_images files) = false ->
  exists w',
    split_dataset (before ++ bad :: after) w = (Raise ValueError, w')
    /\ s_copies w' = s_copies w ++ flat_map (class_copies w) before
    /\ is_Some (s_fs w' !! (output_train_dir, bad))
    /\ is_Some (s_fs w' !! (output_valid_dir, bad))
    /\ (forall root c, c ∉ before -> c <> bad -> s_fs w' !! (root, c) = s_fs w !! (root, c)).
Proof.
  intros Hkeyed Hsrc Hbad.
  destruct (split_dataset_run before w Hkeyed) as (w1 & Hrun1 & Hlog1 & Hin1 & Hother1 & _).
  assert (s_fs w1 !! (input_dir, bad) = Some files) as Hsrc1 by (by rewrite Hin1).
  destruct (mkdir_run (output_train_dir, bad) w1) as (w2 & Hrun2 & Hlog2 & Ht2 & Hfr2).
  destruct (mkdir_run (output_valid_dir, bad) w2) as (w3 & Hrun3 & Hlog3 & Hv3 & Hfr3).
  assert (split_subdir bad w1 = (Raise ValueError, w3)) as Hrun.
  { unfold split_subdir. rewrite Hsrc1.
    rewrite (bind_ok _ _ _ _ _ Hrun2), (bind_ok _ _ _ _ _ Hrun3).
    unfold lift_result, bind. by rewrite (sorted_by_key_glob_raises files Hbad). }
  exists w3. split; [|split; [|split; [|split]]].
  - unfold split_dataset in *. rewrite for_each_app.
    rewrite (bind_ok _ _ _ _ _ Hrun1). cbn [for_each].
    by rewrite (bind_raise _ _ _ _ _ Hrun).
  - by rewrite Hlog3, Hlog2, Hlog1.
  - rewrite Hfr3 by (unfold output_train_dir, output_valid_dir; congruence). done.
  - done.
  - intros root c Hc Hne.
    rewrite Hfr3, Hfr2 by congruence. by apply Hother1.
Qed.


Lemma split_dataset_stops_at_bad_key_witness :
  exists w',
    split_dataset (text := example_text) (["Apple"]%string ++ "Cherry"%string :: ["Grape"]%string) bad_key_world
    = (Raise ValueError, w')
    /\ s_copies w' = s_copies bad_key_world
                     ++ flat_map (class_copies (text := example_text) bad_key_world) ["Apple"]%string
    /\ is_Some (s_fs w' !! (output_train_dir, "Cherry"%string))
    /\ is_Some (s_fs w' !! (output_valid_dir, "Cherry"%string))
    /\ (forall root c, c ∉ ["Apple"]%string -> c <> "Cherry"%string ->
          s_fs w' !! (root, c) = s_fs bad_key_world !! (root, c)).
Proof.
  apply (split_dataset_stops_at_bad_key (H := example_text) ["Apple"]%string ["Grape"]%string "Cherry"%string
           [("image (one).JPG", "c1")]%string bad_key_world).
  - intros name files' Hname Hfiles.
    apply list_elem_of_singleton in Hname as ->.
    vm_compute in Hfiles. injection Hfiles as <-. vm_compute. reflexivity.
  - reflexivity.
  - vm_compute. reflexivity.
Defined.

(** ** What directory mode copies, and what it never augments *)

Lemma present_grows before after f :
  store_grows before after -> present before f -> present after f.
Proof.
  intros Hg (files & Hd & Hf). destruct (Hg _ _ Hd) as (files' & Hd' & Hsub).
  exists files'. split; [done|]. by apply Hsub.
Qed.

Lemma only_adds_balance_phase `{CvKernels} w0 tree target :
  keeps (only_adds w0) (balance_phase tree target).
Proof.
  unfold balance_phase.
  apply keeps_for_each. intros e _.
  apply keeps_for_each. intros image _. unfold balance_image.
  apply keeps_bind; [apply only_adds_makedirs|]. intros _.
  apply keeps_bind; [apply only_adds_imsave|]. intros _.
  repeat (apply keeps_bind; [apply only_adds_guarded_augment | intros _]).
  apply only_adds_guarded_augment.
Qed.

(** Directory mode puts every [.JPG] file found below the given directory
    into augmented_directory, in the class directory named by the stem
    of the file's parent, under the file's own name; and the file is
    there when the run ends, also when the balancing loop raises. *)
Theorem directory_mode_copies_every_jpg `{CvKernels} (tree : list entry) (w : world) :
  Forall (present (w_store (snd (directory_mode tree w)))) (glob_all tree).
Proof.
  destruct (copy_loop_run (glob_all tree) w) as (w1 & Hrun1 & Hpresent & _ & _).
  unfold directory_mode, copy_phase. rewrite (bind_ok _ _ _ _ _ Hrun1).
  destruct (largest_count w1) as [[target|e] w1'] eqn:Hmax.
  - rewrite (bind_ok _ _ _ _ _ Hmax).
    assert (w1' = w1) as ->.
    { revert Hmax. unfold largest_count. by destruct (map_to_list _); intros [= _ <-]. }
    destruct (balance_phase tree target w1) as [r w2] eqn:Hrun2.
    destruct (only_adds_balance_phase w1 tree target w1 r w2) as (Hg & _);
      [by split; [apply store_grows_refl|] | done |].
    eapply Forall_impl; [exact Hpresent|]. intros f. by apply present_grows.
  - rewrite (bind_raise _ _ _ _ _ Hmax). cbn [snd].
    assert (w1' = w1) as ->; [|done].
    revert Hmax. unfold largest_count. by destruct (map_to_list _); intros [= _ <-].
Qed.

Lemma balance_phase_flat `{CvKernels} (fs : list src_file) target w :
  balance_phase (map TopFile fs) target w = (Ok tt, w).
Proof.
  unfold balance_phase. induction fs as [|f fs IH]; [done|].
  cbn [map for_each]. unfold bind at 1. cbn. exact IH.
Qed.

(** Images that lie directly in the directory given on the command line
    are copied to augmented_directory and never augmented: the balancing
    loop looks for images inside the entries of that directory only, so a
    flat directory of images comes out as it went in. *)
Theorem flat_directory_is_only_copied `{CvKernels}
    (fs : list src_file) (g : rng) (store : gmap string (gset string)) (cwd : gset string) :
  Forall is_copy (w_trace (snd (directory_mode (map TopFile fs) (start g store cwd)))).
Proof.
  destruct (copy_loop_run (glob_all (map TopFile fs)) (start g store cwd))
    as (w1 & Hrun1 & _ & _ & Htrace).
  specialize (Htrace (Forall_nil_2 _)).
  unfold directory_mode, copy_phase. rewrite (bind_ok _ _ _ _ _ Hrun1).
  destruct (largest_count w1) as [[target|e] w1'] eqn:Hmax.
  - rewrite (bind_ok _ _ _ _ _ Hmax), balance_phase_flat. cbn [snd].
    revert Hmax. unfold largest_count. by destruct (map_to_list _); intros [= _ <-].
  - rewrite (bind_raise _ _ _ _ _ Hmax). cbn [snd].
    revert Hmax. unfold largest_count. by destruct (map_to_list _); intros [= _ <-].
Qed.

(** ** What the balancing loop achieves *)


Lemma served_grows target before after image :
  store_grows before after -> served target before image -> served target after image.
Proof.
  intros Hg (files & Hd & Hdone). destruct (Hg _ _ Hd) as (files' & Hd' & Hsub).
  exists files'. split; [done|]. destruct Hdone as [Hfull | Hall].
  - left. etrans; [exact Hfull|]. by apply subseteq_size.
  - right. intros t Ht. by apply Hsub, Hall.
Qed.

Lemma run_grows {A} (m : Drv A) w r w' :
  (forall w0, keeps (only_adds w0) m) -> m w = (r, w') ->
  store_grows (w_store w) (w_store w').
Proof.
  intros Hm Hrun. apply (Hm w w r w'); [|done].
  split; [apply store_grows_refl | done].
Qed.

(** A loop all of whose passes only add: what a pass establishes on
    returning still holds when the loop returns. *)
Lemma for_each_establishes {A} (l : list A) (body : A -> Drv unit)
    (P : A -> gmap string (gset string) -> Prop) :
  (forall x a b, store_grows a b -> P x a -> P x b) ->
  (forall x w0, keeps (only_adds w0) (body x)) ->
  (forall x w w', x ∈ l -> body x w = (Ok tt, w') -> P x (w_store w')) ->
  forall w w', for_each l body w = (Ok tt, w') ->
  forall x, x ∈ l -> P x (w_store w').
Proof.
  intros Hstable Hadds. induction l as [|y l IH]; intros Hbody w w' Hrun x Hx.
  { by apply elem_of_nil in Hx. }
  cbn [for_each] in Hrun. unfold bind in Hrun.
  destruct (body y w) as [[[]|e] w1] eqn:Hy; [|done].
  apply elem_of_cons in Hx as [->|Hx].
  - apply (Hstable y (w_store w1)).
    + apply (run_grows (for_each l body) w1 (Ok tt) w'); [|done].
      intros w0. apply keeps_for_each. intros z _. apply Hadds.
    + apply (Hbody y w w1); [by left | done].
  - apply (IH (fun z u u' Hz => Hbody z u u' (proj2 (elem_of_cons _ _ _) (or_intror Hz)))
             w1 w' Hrun x Hx).
Qed.

Section Served.
Context `{CvKernels}.
Variables (target : nat) (image : src_file).

(** A guarded block that returns has either found the directory full or
    added the variant. *)
Lemma guarded_augment_ok d t w w' :
  guarded_augment image d target t w = (Ok tt, w') ->
  exists files files',
    w_store w !! d = Some files /\ w_store w' !! d = Some files'
    /\ ((target <= size files')%nat \/ aug_name image t ∈ files').
Proof.
  unfold guarded_augment, bind at 1, count_entries.
  destruct (w_store w !! d) as [files|] eqn:Hd; [|done].
  destruct (size files <? target)%nat eqn:Hlt.
  2:{ apply Nat.ltb_ge in Hlt. intros [= <-]. exists files, files. auto. }
  rewrite (augment_counts _ _ _ _ _ _ Hd). unfold bind at 1.
  destruct (lift_rand _ w) as [[aug_img|e] w1] eqn:Hdraw; [|done].
  assert (w_store w1 = w_store w) as Hstore.
  { revert Hdraw. unfold lift_rand. destruct (call_method _ _ _). by intros [= _ <-]. }
  unfold bind at 1, lift_result.
  destruct (cv_resize aug_img _) as [resized|e]; [|done].
  unfold imsave. rewrite Hstore, Hd. intros [= <-]. cbn.
  exists files. eexists. split; [done|]. split; [by rewrite lookup_insert_eq|].
  right. apply elem_of_union_l, elem_of_singleton. done.
Qed.

Lemma guarded_loop_ok d l w w' :
  is_Some (w_store w !! d) ->
  for_each l (guarded_augment image d target) w = (Ok tt, w') ->
  exists files',
    w_store w' !! d = Some files'
    /\ ((target <= size files')%nat \/ forall t, t ∈ l -> aug_name image t ∈ files').
Proof.
  revert w. induction l as [|t l IH]; intros w [files Hd] Hrun.
  { injection Hrun as <-. exists files. split; [done|]. right.
    intros t Ht. by apply elem_of_nil in Ht. }
  cbn [for_each] in Hrun. unfold bind in Hrun.
  destruct (guarded_augment image d target t w) as [[[]|e] w1] eqn:Ht; [|done].
  destruct (guarded_augment_ok d t w w1 Ht) as (_ & files1 & _ & Hd1 & Hdone1).
  destruct (IH w1 (ex_intro _ files1 Hd1) Hrun) as (files' & Hd' & Hdone).
  exists files'. split; [done|].
  assert (files1 ⊆ files') as Hsub.
  { destruct (run_grows (for_each l (guarded_augment image d target)) w1 (Ok tt) w')
      with (d := d) (files := files1) as (f & Hf & Hsub); [|done|done|].
    - intros w0. apply keeps_for_each. intros z _. apply only_adds_guarded_augment.
    - by assert (f = files') as -> by congruence. }
  destruct Hdone as [Hfull | Hall]; [by left|].
  destruct Hdone1 as [Hfull1 | Hin1].
  - left. etrans; [exact Hfull1|]. by apply subseteq_size.
  - right. intros t' [->|Ht']%elem_of_cons; [by apply Hsub | by apply Hall].
Qed.

Lemma balance_image_ok w w' :
  balance_image target image w = (Ok tt, w') -> served target (w_store w') image.
Proof.
  rewrite balance_image_for_each.
  set (d := py_stem (f_dir image)).
  destruct (makedirs d w) as [r1 w1] eqn:Hmk.
  assert (r1 = Ok tt /\ is_Some (w_store w1 !! d)) as (-> & [files Hd]).
  { revert Hmk. unfold makedirs. destruct (w_store w !! d) eqn:Hd; intros [= <- <-]; cbn.
    - by rewrite Hd.
    - by rewrite lookup_insert_eq. }
  rewrite (bind_ok _ _ _ _ _ Hmk).
  destruct (imsave Resaved d (f_name image) w1) as [r2 w2] eqn:Hsave.
  assert (r2 = Ok tt /\ is_Some (w_store w2 !! d)) as [-> Hd2].
  { revert Hsave. unfold imsave. rewrite Hd. intros [= <- <-]. cbn.
    by rewrite lookup_insert_eq. }
  rewrite (bind_ok _ _ _ _ _ Hsave). intros Hrun.
  exact (guarded_loop_ok d augment_order w2 w' Hd2 Hrun).
Qed.

End Served.

Lemma only_adds_balance_image `{CvKernels} w0 target image :
  keeps (only_adds w0) (balance_image target image).
Proof.
  unfold balance_image.
  apply keeps_bind; [apply only_adds_makedirs|]. intros _.
  apply keeps_bind; [apply only_adds_imsave|]. intros _.
  repeat (apply keeps_bind; [apply only_adds_guarded_augment | intros _]).
  apply only_adds_guarded_augment.
Qed.

Lemma balance_phase_ok `{CvKernels} tree target w w' :
  balance_phase tree target w = (Ok tt, w') ->
  forall e image,
    e ∈ tree -> image ∈ glob_entry e ->
    served target (w_store w') image.
Proof.
  intros Hrun e image He Himage. unfold balance_phase in Hrun.
  refine (for_each_establishes tree _
            (fun e store => forall i, i ∈ glob_entry e -> served target store i)
            _ _ _ w w' Hrun e He image Himage).
  - intros e0 a b Hg Hs i Hi. eapply served_grows; [exact Hg|]. by apply Hs.
  - intros e0 w0. apply keeps_for_each. intros i _. apply only_adds_balance_image.
  - intros e0 u u' _ Hbody.
    apply (for_each_establishes (glob_entry e0) (balance_image target)
             (fun i store => served target store i)) with (w := u); [| | |done].
    + intros i a b. apply served_grows.
    + intros i w0. apply only_adds_balance_image.
    + intros i v v' _. apply balance_image_ok.
Qed.

(** When directory mode runs to its end, the balancing loop has done all
    it can for every image inside a subdirectory, or inside a symbolic
    link to one: with the target taken after the copy loop, the image's
    class directory holds at least [target] entries, or it holds all
    eight variants of the image. *)
Theorem balancing_serves_every_image `{CvKernels} (tree : list entry) (w : world) :
  fst (directory_mode tree w) = Ok tt ->
  exists target,
    fst (largest_count (snd (copy_phase tree w))) = Ok target
    /\ forall files image,
         SubDir files ∈ tree \/ LinkDir files ∈ tree -> image ∈ glob_jpg files ->
         served target (w_store (snd (directory_mode tree w))) image.
Proof.
  unfold directory_mode. unfold bind at 1 3.
  destruct (copy_phase tree w) as [[[]|e] w1]; [|done]. cbn [snd].
  unfold bind.
  destruct (largest_count w1) as [[target|e] w1'] eqn:Hmax; [|done]. cbn [fst].
  destruct (balance_phase tree target w1') as [r w2] eqn:Hrun. cbn [fst snd].
  intros ->. exists target. split; [done|].
  intros files image [Hdir|Hdir] Himage;
    by apply (balance_phase_ok tree target w1' w2 Hrun _ image Hdir).
Qed.


Lemma balancing_serves_every_image_witness :
  exists target,
    fst (largest_count (snd (@copy_phase two_class_tree (start rng0 ∅ ∅)))) = Ok target
    /\ forall files image,
         SubDir files ∈ two_class_tree \/ LinkDir files ∈ two_class_tree ->
         image ∈ glob_jpg files ->
         served target
           (w_store (snd (@directory_mode example_kernels two_class_tree (start rng0 ∅ ∅))))
           image.
Proof.
  apply (@balancing_serves_every_image example_kernels two_class_tree (start rng0 ∅ ∅)).
  vm_compute. reflexivity.
Defined.

(** ** When directory mode completes *)

Lemma completes_bind {A B} (P : world -> Prop) (m : Drv A) (k : A -> Drv B) :
  completes P m -> (forall a, completes P (k a)) -> completes P (bind m k).
Proof.
  intros Hm Hk w Hw. destruct (Hm w Hw) as (a & w1 & Hrun & Hw1).
  rewrite (bind_ok _ _ _ _ _ Hrun). by apply Hk.
Qed.

Lemma completes_ret {A} (P : world -> Prop) (a : A) : completes P (ret a).
Proof. intros w Hw. by exists a, w. Qed.

Lemma completes_count_entries d : completes (has_dir d) (count_entries d).
Proof.
  intros w [files Hd]. unfold count_entries. rewrite Hd.
  eexists _, _. split; [reflexivity | by exists files].
Qed.

Lemma completes_imsave k d name : completes (has_dir d) (imsave k d name).
Proof.
  intros w [files Hd]. unfold imsave. rewrite Hd.
  eexists _, _. split; [reflexivity|].
  unfold has_dir. cbn. rewrite lookup_insert_eq. by eexists.
Qed.

Lemma makedirs_has_dir d w : exists w', makedirs d w = (Ok tt, w') /\ has_dir d w'.
Proof.
  unfold makedirs. destruct (w_store w !! d) as [files|] eqn:Hd.
  - exists w. split; [done | by exists files].
  - eexists. split; [reflexivity|]. unfold has_dir. cbn. rewrite lookup_insert_eq. by eexists.
Qed.

Lemma for_each_succeeds {S A} (l : list A) (body : A -> M S unit) :
  (forall x, x ∈ l -> succeeds (body x)) -> succeeds (for_each l body).
Proof.
  induction l as [|x l IH]; intros Hbody; cbn [for_each].
  - apply succeeds_ret.
  - apply succeeds_bind; [apply Hbody; by left|].
    intros _. apply IH. intros y Hy. apply Hbody. by right.
Qed.

Lemma contrast_not_empty img : is_empty (contrast img) = is_empty img.
Proof.
  rewrite contrast_map. unfold is_empty, shape. rewrite length_map.
  destruct img as [|row img]; [done|]. cbn [map]. by rewrite length_map.
Qed.

Section LargeImage.
Context `{CvKernels}.
Variable img : image.
Hypothesis Himg : above_100 img.

(** Every transform returns on an image above 100 x 100, and what it
    returns is not empty. *)
Lemma call_method_large t g :
  exists out g', call_method t img g = (Ok out, g') /\ is_empty out = false.
Proof.
  destruct Himg as (rows & cols & Hs%has_shape_shaped & Hr & Hc).
  assert (forall m : Rand image, clipped rows cols 3 m ->
            exists out g', m g = (Ok out, g') /\ is_empty out = false) as Hclip.
  { intros m Hm. destruct (Hm g) as (out & g' & Hrun & Hout).
    exists out, g'. split; [done|].
    apply (shaped_not_empty _ _ _ _ Hout); lia. }
  destruct (warps_clipped img rows cols 3 Hs) as (Hrot & Htr & Hsh & Hsk & Hdi); [lia..|].
  destruct t; cbn [call_method]; try by apply Hclip.
  - unfold flip. rewrite (shaped_shape _ _ _ _ Hs) by lia.
    destruct (warpPerspective_shaped rows cols 3 img (flip_matrix rows cols 0)
                cols rows Hs) as (out & Hout & Hso); [lia..|].
    exists out, g. unfold lift_result. rewrite Hout. split; [done|].
    apply (shaped_not_empty _ _ _ _ Hso); lia.
  - destruct (crop_draws img rows cols) with (g := g)
      as (x & y & out & g' & Hrun & _ & _ & _ & Hout%has_shape_shaped);
      [by apply has_shape_shaped | lia | lia |].
    exists out, g'. split; [done|]. apply (shaped_not_empty _ _ _ _ Hout); lia.
  - rewrite (blur_grid img rows cols 3 Hs) by lia.
    eexists _, g. split; [reflexivity|].
    apply (shaped_not_empty rows cols 3); [|lia..].
    apply (shaped_grid (fun x y => map (box5_sample img (Z.of_nat rows) (Z.of_nat cols) x y)
                                       (seq 0 3))).
    intros x y. by rewrite length_map, length_seq.
  - exists (contrast img), g. split; [done|].
    rewrite contrast_not_empty. apply (shaped_not_empty _ _ _ _ Hs); lia.
Qed.

End LargeImage.

Section Completes.
Context `{CvKernels}.
Variables (target : nat) (image : src_file).
Hypothesis Himage : above_100 (f_pixels image).

Lemma completes_augment d t : completes (has_dir d) (augment image d target t).
Proof.
  intros w [files Hd].
  destruct (call_method_large _ Himage t (w_rng w)) as (out & g' & Hrun & Hout).
  rewrite (augment_counts _ _ _ _ _ _ Hd).
  unfold bind, lift_rand, lift_result. rewrite Hrun.
  unfold cv_resize. rewrite Hout. unfold imsave. cbn. rewrite Hd.
  eexists _, _. split; [reflexivity|].
  unfold has_dir. cbn. rewrite lookup_insert_eq. by eexists.
Qed.

Lemma completes_guarded_augment d t :
  completes (has_dir d) (guarded_augment image d target t).
Proof.
  unfold guarded_augment.
  apply completes_bind; [apply completes_count_entries|]. intros n.
  destruct (n <? target)%nat; [apply completes_augment | apply completes_ret].
Qed.

Lemma succeeds_balance_image : succeeds (balance_image target image).
Proof.
  intros w. unfold balance_image. cbv zeta.
  destruct (makedirs_has_dir (py_stem (f_dir image)) w) as (w1 & Hrun & Hd).
  rewrite (bind_ok _ _ _ _ _ Hrun).
  match goal with |- exists a s', ?m w1 = _ =>
    assert (completes (has_dir (py_stem (f_dir image))) m) as Hrest end.
  { apply completes_bind; [apply completes_imsave|]. intros _.
    repeat (apply completes_bind; [apply completes_guarded_augment | intros _]).
    apply completes_guarded_augment. }
  destruct (Hrest w1 Hd) as (a & w2 & Hrun2 & _). eauto.
Qed.

End Completes.

Lemma nonempty_copy_image f :
  keeps (fun w => w_store w <> ∅) (copy_image f).
Proof.
  unfold copy_image. cbv zeta.
  apply keeps_bind.
  - intros w r w' Hw. unfold makedirs.
    destruct (w_store w !! py_stem (f_dir f)); intros [= <- <-]; [done|].
    cbn. apply insert_non_empty.
  - intros _ w r w' Hw. unfold imsave.
    destruct (w_store w !! py_stem (f_dir f)); intros [= <- <-]; [|done].
    cbn. apply insert_non_empty.
Qed.

(** The largest count is found as soon as augmented_directory holds a
    class directory. *)
Lemma largest_count_ok w :
  w_store w <> ∅ -> exists target, largest_count w = (Ok target, w).
Proof.
  intros Hne. unfold largest_count.
  destruct (map_to_list (w_store w)) as [|p l] eqn:Hl; [|by eexists].
  by apply map_to_list_empty_iff in Hl.
Qed.

(** Directory mode completes when augmented_directory holds a class
    directory once the copy loop is over and every image the balancing
    loop walks is above 100 x 100. *)
Lemma directory_mode_completes `{CvKernels} tree w :
  glob_all tree <> [] \/ w_store w <> ∅ ->
  (forall e image, e ∈ tree -> image ∈ glob_entry e -> above_100 (f_pixels image)) ->
  exists w', directory_mode tree w = (Ok tt, w').
Proof.
  intros Hdir Hlarge. unfold directory_mode, copy_phase.
  destruct (copy_loop_run (glob_all tree) w) as (w1 & Hcopy & Hpresent & _).
  rewrite (bind_ok _ _ _ _ _ Hcopy).
  assert (w_store w1 <> ∅) as Hne.
  { destruct Hdir as [Hfiles|Hstore].
    - destruct (glob_all tree) as [|f l]; [done|].
      apply Forall_cons in Hpresent as [(files & Hd & _) _].
      intros Hempty. by rewrite Hempty, lookup_empty in Hd.
    - eapply (keeps_for_each (fun w => w_store w <> ∅)); [|exact Hstore|exact Hcopy].
      intros f _. apply nonempty_copy_image. }
  destruct (largest_count_ok w1 Hne) as (target & Htarget).
  rewrite (bind_ok _ _ _ _ _ Htarget).
  assert (succeeds (balance_phase tree target)) as Hrun.
  { unfold balance_phase. apply for_each_succeeds. intros e He.
    apply for_each_succeeds. intros image Hi.
    apply succeeds_balance_image. by apply (Hlarge e). }
  destruct (Hrun w1) as ([] & w2 & Hrun2). eauto.
Qed.

(** With no [.JPG] file to copy and no class directory in
    augmented_directory, directory mode raises. *)
Lemma directory_mode_no_class `{CvKernels} tree w :
  glob_all tree = [] -> w_store w = ∅ ->
  directory_mode tree w = (Raise ValueError, w).
Proof.
  intros Hfiles Hstore. unfold directory_mode, copy_phase. rewrite Hfiles.
  unfold bind, for_each, ret, largest_count. by rewrite Hstore, map_to_list_empty.
Qed.

(** C8 (amended). Invoked with a path that is neither a directory nor a
    regular file (a path that does not exist, but also a FIFO, a socket or
    a device), the entry point logs one error, the [FileNotFoundError],
    and exits with status 1.  For a directory or a regular file the check
    passes and the run is the processing of the path (directory mode or
    single-image mode): the exit status is 0 when that processing
    completes and 1 when it raises.  Single-image mode completes, and the
    status is 0, for every file that decodes to an image of three
    channels with height and width above 100.  Directory mode completes,
    and the status is 0, when a [.JPG] file is found below the directory
    or augmented_directory already holds a class directory, and every
    [.JPG] file the balancing loop walks decodes to an image of three
    channels with height and width above 100; it raises, and the status
    is 1, when no [.JPG] file is found and augmented_directory holds no
    class directory. *)
Theorem entry_point_exit_status `{CvKernels} (p : path_arg) (w : world) :
  match p with
  | NeitherFileNorDir =>
      exists w', main p w = (Raise (SystemExit 1), w')
                 /\ w_log w' = w_log w ++ [FileNotFoundError]
                 /\ exit_status (fst (main p w)) = 1
  | ImageFile name decoded =>
      main p w = process p w
      /\ exit_status (fst (main p w))
         = match fst (process p w) with Ok _ => 0 | Raise _ => 1 end
      /\ (forall img rows cols,
            decoded = Some img -> has_shape rows cols 3 img = true ->
            (100 < rows)%nat -> (100 < cols)%nat ->
            exit_status (fst (main p w)) = 0)
  | Directory tree =>
      main p w = process p w
      /\ exit_status (fst (main p w))
         = match fst (process p w) with Ok _ => 0 | Raise _ => 1 end
      /\ (glob_all tree <> [] \/ w_store w <> ∅ ->
          (forall e image, e ∈ tree -> image ∈ glob_entry e ->
                           above_100 (f_pixels image)) ->
          exit_status (fst (main p w)) = 0)
      /\ (glob_all tree = [] -> w_store w = ∅ ->
          exit_status (fst (main p w)) = 1)
  end.
Proof.
  assert (forall q, q <> NeitherFileNorDir ->
            main q w = process q w
            /\ exit_status (fst (main q w))
               = match fst (process q w) with Ok _ => 0 | Raise _ => 1 end) as Hexisting.
  { intros q Hq.
    assert (main q w = process q w) as Hmain.
    { unfold main. by rewrite (bind_ok _ _ _ _ _ (check_path_existing q w Hq)). }
    split; [done|]. rewrite Hmain.
    pose proof (no_exit_process q w) as Hord.
    destruct (fst (process q w)) as [u|e]; [done|].
    destruct e; try done. by destruct (Hord code). }
  destruct p as [|name decoded|tree].
  - eexists. split; [|split].
    + unfold main. rewrite (bind_raise _ _ _ _ _ (check_path_missing w)). reflexivity.
    + reflexivity.
    + unfold main. rewrite (bind_raise _ _ _ _ _ (check_path_missing w)). reflexivity.
  - destruct (Hexisting (ImageFile name decoded)) as [Hmain Hstatus]; [done|].
    split; [done|]. split; [done|].
    intros img rows cols -> Hs%has_shape_shaped Hr Hc.
    rewrite Hstatus. cbn [process].
    destruct (succeeds_single_mode img rows cols Hs Hr Hc name w) as (u & w' & Hrun).
    by rewrite Hrun.
  - destruct (Hexisting (Directory tree)) as [Hmain Hstatus]; [done|].
    split; [done|]. split; [done|]. split.
    + intros Hdir Hlarge. rewrite Hstatus. cbn [process].
      destruct (directory_mode_completes tree w Hdir Hlarge) as (w' & Hrun).
      by rewrite Hrun.
    + intros Hfiles Hstore. rewrite Hstatus. cbn [process].
      by rewrite (directory_mode_no_class tree w Hfiles Hstore).
Qed.

Lemma entry_point_exit_status_witness :
  (@main example_kernels (ImageFile "leaf.JPG" (Some (blank 101 101))) (start rng0 ∅ ∅)
   = @process example_kernels (ImageFile "leaf.JPG" (Some (blank 101 101))) (start rng0 ∅ ∅)
   /\ exit_status (fst (@main example_kernels (ImageFile "leaf.JPG" (Some (blank 101 101)))
                          (start rng0 ∅ ∅))) = 0)
  /\ (glob_all large_tree <> []
      /\ exit_status (fst (@main example_kernels (Directory large_tree) (start rng0 ∅ ∅))) = 0).
Proof.
  split.
  - pose proof (@entry_point_exit_status example_kernels
                  (ImageFile "leaf.JPG" (Some (blank 101 101))) (start rng0 ∅ ∅))
      as (Hmain & _ & Hzero).
    split; [exact Hmain|].
    apply (Hzero (blank 101 101) 101%nat 101%nat);
      [reflexivity | vm_compute; reflexivity | lia | lia].
  - assert (glob_all large_tree <> []) as Hfiles.
    { intros Heq. apply (f_equal length) in Heq. vm_compute in Heq. discriminate. }
    assert (forall e image, e ∈ large_tree -> image ∈ glob_entry e ->
                         above_100 (f_pixels image)) as Hlarge.
    { intros e image He Hi. unfold large_tree in He.
      apply list_elem_of_singleton in He. subst e.
      cbn [glob_entry] in Hi. unfold glob_jpg in Hi.
      apply list_elem_of_filter in Hi as [_ Hi].
      assert (has_shape 101 101 3 (blank 101 101) = true) as Hs by (vm_compute; reflexivity).
      repeat (apply elem_of_cons in Hi as [->|Hi]);
        [| |by apply elem_of_nil in Hi];
        (exists 101%nat, 101%nat; split; [exact Hs | lia]). }
    split; [exact Hfiles|].
    pose proof (@entry_point_exit_status example_kernels
                  (Directory large_tree) (start rng0 ∅ ∅))
      as (_ & _ & Hzero & _).
    exact (Hzero (or_introl Hfiles) Hlarge).
Defined.

(** C8 (as stated, refuted). An existing directory with no [.JPG] file
    below it, when augmented_directory holds no class directory either:
    the check passes, [max] finds nothing to choose from and raises, and
    the run exits with status 1, not 0. *)
Lemma existing_directory_exits_1 :
  check_path (Directory []) (start rng0 ∅ ∅) = (Ok tt, start rng0 ∅ ∅)
  /\ fst (@main example_kernels (Directory []) (start rng0 ∅ ∅)) = Raise ValueError
  /\ exit_status (fst (@main example_kernels (Directory []) (start rng0 ∅ ∅))) = 1.
Proof. vm_compute. done. Qed.
